(** * OpenGLProjectscene: a shallow embedding of the scene code

    The development follows the C++ sources:

    - [Cxx]: the few C++ idioms the code relies on (32-bit integers,
      counting [for] loops, array subscripts);
    - [ShapeMeshes]: the procedural mesh generator (ShapeMeshes.cpp), for
      its counts, layouts and indices;
    - [Ieee]: IEEE 754 binary32 arithmetic, the C++ type [float];
    - [Camera]: the free-fly camera (camera.h);
    - [ViewManager]: keyboard and mouse handling and the projection
      (ViewManager.cpp);
    - [SceneManager]: the texture registry and the material table
      (SceneManager.cpp);
    - [FloatMeshes]: the values [LoadSphereMesh] stores, in binary32.

    The definitions come first; the lemmas and theorems about them follow. *)

From Stdlib Require Import ZArith List String Ascii Bool Lia Reals Lra.
From Stdlib Require Import Floats.SpecFloat.
From Equations Require Import Equations.
Import ListNotations.

Set Implicit Arguments.
Set Default Goal Selector "!".

(* ===================================================================== *)
(** * C++ idioms *)
(* ===================================================================== *)

Module Cxx.

Local Open Scope Z_scope.

(** [int] is 32 bits wide on the platforms the project builds for. *)
Definition INT_MAX : Z := 2147483647.

(** Conversion to [GLuint] (an unsigned 32-bit integer) is reduction
    modulo 2^32. *)
Definition GLuint_of (z : Z) : Z := z mod 4294967296.

(** Conversion of a [GLuint] to [int]: values above [INT_MAX] wrap to
    negative numbers. *)
Definition int_of_GLuint (u : Z) : Z :=
  if u <=? INT_MAX then u else u - 4294967296.

(** [for (int i = start; ...; ++i) body], run for [n] rounds: the loop
    variable and the state threaded through the body. *)
Fixpoint for_from {S : Type} (n : nat) (i : Z) (body : Z -> S -> S) (s : S) : S :=
  match n with
  | O => s
  | Datatypes.S n' => for_from n' (i + 1) body (body i s)
  end.

(** [for (int i = 0; i < bound; ++i) body] *)
Definition for_lt {S : Type} (bound : Z) (body : Z -> S -> S) (s : S) : S :=
  for_from (Z.to_nat bound) 0 body s.

(** [for (int i = 0; i <= bound; ++i) body], for [bound < INT_MAX]. *)
Definition for_le {S : Type} (bound : Z) (body : Z -> S -> S) (s : S) : S :=
  for_from (Z.to_nat (bound + 1)) 0 body s.

(** The values [start, start+1, ...] a loop variable takes in [n] rounds. *)
Fixpoint Zseq (start : Z) (n : nat) : list Z :=
  match n with
  | O => []
  | Datatypes.S n' => start :: Zseq (start + 1) n'
  end.

(** The outcome of code that subscripts a fixed-size array: a subscript
    outside the array is undefined behaviour, which ends the run as
    [OutOfBounds]. *)
Inductive outcome (A : Type) : Type :=
| Normal (a : A)
| OutOfBounds.
Arguments OutOfBounds {A}.

Definition bind {A B : Type} (m : outcome A) (k : A -> outcome B) : outcome B :=
  match m with
  | Normal a => k a
  | OutOfBounds => OutOfBounds
  end.

(** [a[i]] as an rvalue. *)
Definition array_get {A : Type} (a : list A) (i : Z) : outcome A :=
  if (0 <=? i) && (i <? Z.of_nat (List.length a))
  then match nth_error a (Z.to_nat i) with
       | Some v => Normal v
       | None => OutOfBounds
       end
  else OutOfBounds.

Fixpoint list_set {A : Type} (a : list A) (n : nat) (v : A) : list A :=
  match a, n with
  | [], _ => []
  | _ :: t, O => v :: t
  | h :: t, Datatypes.S n' => h :: list_set t n' v
  end.

(** [a[i] = v]. *)
Definition array_set {A : Type} (a : list A) (i : Z) (v : A) : outcome (list A) :=
  if (0 <=? i) && (i <? Z.of_nat (List.length a))
  then Normal (list_set a (Z.to_nat i) v)
  else OutOfBounds.

End Cxx.

(* ===================================================================== *)
(** * ShapeMeshes.cpp: the procedural mesh generator *)
(* ===================================================================== *)

(** What the generator stores is read here for its bookkeeping: how many
    vertices and indices a mesh has, in which order they are laid out,
    which of them a draw call reads, and where the texture coordinates
    lie.  None of that depends on how a float is rounded, so [GLfloat] is
    [R] in this module and every operator is the exact one.  The values
    themselves, as the machine computes them in binary32, are the subject
    of [FloatMeshes] below. *)

Module ShapeMeshes.

Import Cxx.
Local Open Scope R_scope.

Definition GLfloat : Type := R.

(** namespace Constants *)
Definition Pi : R := 3.141592653589793.
Definition PiHalf : R := Pi / 2.0.
Definition FloatsPerVertex : Z := 3.
Definition FloatsPerNormal : Z := 3.
Definition FloatsPerUV : Z := 2.

(** Modelled from the spec: shapemeshes.h, which declares [GLMesh], is not
    among the sources.  The record keeps what a [Load...Mesh] method leaves
    behind: the two counts it stores in the [GLMesh] member and the
    contents it hands to [glBufferData] for the vertex buffer and for the
    element buffer.  The buffer handles are names chosen by the driver and
    are not modelled. *)
Record GLMesh : Type := mkGLMesh {
  nVertices : Z;
  nIndices : Z;
  vertexBuffer : list GLfloat;
  indexBuffer : list Z
}.

(** [v.size()] of a [std::vector] *)
Definition size {A : Type} (v : list A) : Z := Z.of_nat (List.length v).

(** ** LoadBoxMesh *)

Module Box.
Definition verts : list GLfloat :=
  [ 0.5; 0.5; -0.5; 0.0; 0.0; -1.0; 0.0; 1.0;
    0.5; -0.5; -0.5; 0.0; 0.0; -1.0; 0.0; 0.0;
    -0.5; -0.5; -0.5; 0.0; 0.0; -1.0; 1.0; 0.0;
    -0.5; 0.5; -0.5; 0.0; 0.0; -1.0; 1.0; 1.0;
    -0.5; -0.5; 0.5; 0.0; -1.0; 0.0; 0.0; 1.0;
    -0.5; -0.5; -0.5; 0.0; -1.0; 0.0; 0.0; 0.0;
    0.5; -0.5; -0.5; 0.0; -1.0; 0.0; 1.0; 0.0;
    0.5; -0.5; 0.5; 0.0; -1.0; 0.0; 1.0; 1.0;
    -0.5; 0.5; -0.5; -1.0; 0.0; 0.0; 0.0; 1.0;
    -0.5; -0.5; -0.5; -1.0; 0.0; 0.0; 0.0; 0.0;
    -0.5; -0.5; 0.5; -1.0; 0.0; 0.0; 1.0; 0.0;
    -0.5; 0.5; 0.5; -1.0; 0.0; 0.0; 1.0; 1.0;
    0.5; 0.5; 0.5; 1.0; 0.0; 0.0; 0.0; 1.0;
    0.5; -0.5; 0.5; 1.0; 0.0; 0.0; 0.0; 0.0;
    0.5; -0.5; -0.5; 1.0; 0.0; 0.0; 1.0; 0.0;
    0.5; 0.5; -0.5; 1.0; 0.0; 0.0; 1.0; 1.0;
    -0.5; 0.5; -0.5; 0.0; 1.0; 0.0; 0.0; 1.0;
    -0.5; 0.5; 0.5; 0.0; 1.0; 0.0; 0.0; 0.0;
    0.5; 0.5; 0.5; 0.0; 1.0; 0.0; 1.0; 0.0;
    0.5; 0.5; -0.5; 0.0; 1.0; 0.0; 1.0; 1.0;
    -0.5; 0.5; 0.5; 0.0; 0.0; 1.0; 0.0; 1.0;
    -0.5; -0.5; 0.5; 0.0; 0.0; 1.0; 0.0; 0.0;
    0.5; -0.5; 0.5; 0.0; 0.0; 1.0; 1.0; 0.0;
    0.5; 0.5; 0.5; 0.0; 0.0; 1.0; 1.0; 1.0 ].
Definition indices : list Z :=
    [ 0; 1; 2; 0; 3; 2;
      4; 5; 6; 4; 7; 6;
      8; 9; 10; 8; 11; 10;
      12; 13; 14; 12; 15; 14;
      16; 17; 18; 16; 19; 18;
      20; 21; 22; 20; 23; 22 ]%Z.
End Box.

Definition LoadBoxMesh : GLMesh :=
  {| nVertices := (size Box.verts / (FloatsPerVertex + FloatsPerNormal + FloatsPerUV))%Z;
     nIndices := size Box.indices;
     vertexBuffer := Box.verts;
     indexBuffer := Box.indices |}.

(** Modelled from the spec: shapemeshes.h, which declares [BoxSide], is not
    among the sources; the sides are those named in [DrawBoxMeshSide], in
    the order of [sideStartIndices]. *)
Inductive BoxSide : Type := back | bottom | left | right | top | front.

Definition sideStartIndices (side : BoxSide) : Z :=
  match side with
  | back => 0 | bottom => 4 | left => 8 | right => 12 | top => 16 | front => 20
  end%Z.

(** ** LoadSphereMesh *)

Definition sphere_vertices (latitudeSegments longitudeSegments : Z) (radius : GLfloat)
  : list GLfloat :=
  for_le latitudeSegments (fun lat vertices =>
    let theta := IZR lat * Pi / IZR latitudeSegments in
    let sinTheta := sin theta in
    let cosTheta := cos theta in
    for_le longitudeSegments (fun lon vertices =>
      let phi := IZR lon * 2 * Pi / IZR longitudeSegments in
      let sinPhi := sin phi in
      let cosPhi := cos phi in
      let x := radius * sinTheta * cosPhi in
      let y := radius * cosTheta in
      let z := radius * sinTheta * sinPhi in
      let nx := sinTheta * cosPhi in
      let ny := cosTheta in
      let nz := sinTheta * sinPhi in
      let u := 1.0 - IZR lon / IZR longitudeSegments in
      let v := 1.0 - IZR lat / IZR latitudeSegments in
      vertices ++ [x; y; z; nx; ny; nz; u; v]) vertices) [].

Definition sphere_indices (latitudeSegments longitudeSegments : Z) : list Z :=
  for_lt latitudeSegments (fun lat indices =>
    for_lt longitudeSegments (fun lon indices =>
      let first := (lat * (longitudeSegments + 1) + lon)%Z in
      let second := (first + longitudeSegments + 1)%Z in
      indices ++ [GLuint_of first; GLuint_of second; GLuint_of (first + 1);
                  GLuint_of second; GLuint_of (second + 1); GLuint_of (first + 1)])
      indices) [].

Definition LoadSphereMesh (latitudeSegments longitudeSegments : Z) (radius : GLfloat)
  : GLMesh :=
  let vertices := sphere_vertices latitudeSegments longitudeSegments radius in
  let indices := sphere_indices latitudeSegments longitudeSegments in
  {| nVertices := GLuint_of (size vertices / 8);
     nIndices := GLuint_of (size indices);
     vertexBuffer := vertices;
     indexBuffer := indices |}.

(** ** LoadTaperedCylinderMesh *)

Module TaperedCylinder.
(** The array [verts], in the three parts its comments name. *)
Definition cylinder_bottom : list GLfloat :=
  [ 1.0; 0.0; 0.0; 0.0; -1.0; 0.0; 0.5; 1.0;
    0.98; 0.0; -0.17; 0.0; -1.0; 0.0; 0.41; 0.983;
    0.94; 0.0; -0.34; 0.0; -1.0; 0.0; 0.33; 0.96;
    0.87; 0.0; -0.5; 0.0; -1.0; 0.0; 0.25; 0.92;
    0.77; 0.0; -0.64; 0.0; -1.0; 0.0; 0.17; 0.87;
    0.64; 0.0; -0.77; 0.0; -1.0; 0.0; 0.13; 0.83;
    0.5; 0.0; -0.87; 0.0; -1.0; 0.0; 0.08; 0.77;
    0.34; 0.0; -0.94; 0.0; -1.0; 0.0; 0.04; 0.68;
    0.17; 0.0; -0.98; 0.0; -1.0; 0.0; 0.017; 0.6;
    0.0; 0.0; -1.0; 0.0; -1.0; 0.0; 0.0; 0.5;
    -0.17; 0.0; -0.98; 0.0; -1.0; 0.0; 0.017; 0.41;
    -0.34; 0.0; -0.94; 0.0; -1.0; 0.0; 0.04; 0.33;
    -0.5; 0.0; -0.87; 0.0; -1.0; 0.0; 0.08; 0.25;
    -0.64; 0.0; -0.77; 0.0; -1.0; 0.0; 0.13; 0.17;
    -0.77; 0.0; -0.64; 0.0; -1.0; 0.0; 0.17; 0.13;
    -0.87; 0.0; -0.5; 0.0; -1.0; 0.0; 0.25; 0.08;
    -0.94; 0.0; -0.34; 0.0; -1.0; 0.0; 0.33; 0.04;
    -0.98; 0.0; -0.17; 0.0; -1.0; 0.0; 0.41; 0.017;
    -1.0; 0.0; 0.0; 0.0; -1.0; 0.0; 0.5; 0.0;
    -0.98; 0.0; 0.17; 0.0; -1.0; 0.0; 0.6; 0.017;
    -0.94; 0.0; 0.34; 0.0; -1.0; 0.0; 0.68; 0.04;
    -0.87; 0.0; 0.5; 0.0; -1.0; 0.0; 0.77; 0.08;
    -0.77; 0.0; 0.64; 0.0; -1.0; 0.0; 0.83; 0.13;
    -0.64; 0.0; 0.77; 0.0; -1.0; 0.0; 0.87; 0.17;
    -0.5; 0.0; 0.87; 0.0; -1.0; 0.0; 0.92; 0.25;
    -0.34; 0.0; 0.94; 0.0; -1.0; 0.0; 0.96; 0.33;
    -0.17; 0.0; 0.98; 0.0; -1.0; 0.0; 0.983; 0.41;
    0.0; 0.0; 1.0; 0.0; -1.0; 0.0; 1.0; 0.5;
    0.17; 0.0; 0.98; 0.0; -1.0; 0.0; 0.983; 0.6;
    0.34; 0.0; 0.94; 0.0; -1.0; 0.0; 0.96; 0.68;
    0.5; 0.0; 0.87; 0.0; -1.0; 0.0; 0.92; 0.77;
    0.64; 0.0; 0.77; 0.0; -1.0; 0.0; 0.87; 0.83;
    0.77; 0.0; 0.64; 0.0; -1.0; 0.0; 0.83; 0.87;
    0.87; 0.0; 0.5; 0.0; -1.0; 0.0; 0.77; 0.92;
    0.94; 0.0; 0.34; 0.0; -1.0; 0.0; 0.68; 0.96;
    0.98; 0.0; 0.17; 0.0; -1.0; 0.0; 0.6; 0.983 ].

Definition cylinder_top : list GLfloat :=
  [ 0.5; 1.0; 0.0; 0.0; 1.0; 0.0; 0.5; 1.0;
    0.49; 1.0; -0.085; 0.0; 1.0; 0.0; 0.41; 0.983;
    0.47; 1.0; -0.17; 0.0; 1.0; 0.0; 0.33; 0.96;
    0.435; 1.0; -0.25; 0.0; 1.0; 0.0; 0.25; 0.92;
    0.385; 1.0; -0.32; 0.0; 1.0; 0.0; 0.17; 0.87;
    0.32; 1.0; -0.385; 0.0; 1.0; 0.0; 0.13; 0.83;
    0.25; 1.0; -0.435; 0.0; 1.0; 0.0; 0.08; 0.77;
    0.17; 1.0; -0.47; 0.0; 1.0; 0.0; 0.04; 0.68;
    0.085; 1.0; -0.49; 0.0; 1.0; 0.0; 0.017; 0.6;
    0.0; 1.0; -0.5; 0.0; 1.0; 0.0; 0.0; 0.5;
    -0.085; 1.0; -0.49; 0.0; 1.0; 0.0; 0.017; 0.41;
    -0.17; 1.0; -0.47; 0.0; 1.0; 0.0; 0.04; 0.33;
    -0.25; 1.0; -0.435; 0.0; 1.0; 0.0; 0.08; 0.25;
    -0.32; 1.0; -0.385; 0.0; 1.0; 0.0; 0.13; 0.17;
    -0.385; 1.0; -0.32; 0.0; 1.0; 0.0; 0.17; 0.13;
    -0.435; 1.0; -0.25; 0.0; 1.0; 0.0; 0.25; 0.08;
    -0.47; 1.0; -0.17; 0.0; 1.0; 0.0; 0.33; 0.04;
    -0.49; 1.0; -0.085; 0.0; 1.0; 0.0; 0.41; 0.017;
    -0.5; 1.0; 0.0; 0.0; 1.0; 0.0; 0.5; 0.0;
    -0.49; 1.0; 0.085; 0.0; 1.0; 0.0; 0.6; 0.017;
    -0.47; 1.0; 0.17; 0.0; 1.0; 0.0; 0.68; 0.04;
    -0.435; 1.0; 0.25; 0.0; 1.0; 0.0; 0.77; 0.08;
    -0.385; 1.0; 0.32; 0.0; 1.0; 0.0; 0.83; 0.13;
    -0.32; 1.0; 0.385; 0.0; 1.0; 0.0; 0.87; 0.17;
    -0.25; 1.0; 0.435; 0.0; 1.0; 0.0; 0.92; 0.25;
    -0.17; 1.0; 0.47; 0.0; 1.0; 0.0; 0.96; 0.33;
    -0.085; 1.0; 0.49; 0.0; 1.0; 0.0; 0.983; 0.41;
    0.0; 1.0; 0.5; 0.0; 1.0; 0.0; 1.0; 0.5;
    0.085; 1.0; 0.49; 0.0; 1.0; 0.0; 0.983; 0.6;
    0.17; 1.0; 0.47; 0.0; 1.0; 0.0; 0.96; 0.68;
    0.25; 1.0; 0.435; 0.0; 1.0; 0.0; 0.92; 0.77;
    0.32; 1.0; 0.385; 0.0; 1.0; 0.0; 0.87; 0.83;
    0.385; 1.0; 0.32; 0.0; 1.0; 0.0; 0.83; 0.87;
    0.435; 1.0; 0.25; 0.0; 1.0; 0.0; 0.77; 0.92;
    0.47; 1.0; 0.17; 0.0; 1.0; 0.0; 0.68; 0.96;
    0.49; 1.0; 0.085; 0.0; 1.0; 0.0; 0.6; 0.983 ].

Definition cylinder_body : list GLfloat :=
  [ 0.5; 1.0; 0.0; 0.993150651; 0.5; -0.116841137; 0.25; 1.0;
    1.0; 0.0; 0.0; 0.993150651; 0.5; -0.116841137; 0.0; 0.0;
    0.98; 0.0; -0.17; 0.993150651; 0.5; -0.116841137; 0.0277; 0.0;
    0.5; 1.0; 0.0; 0.993150651; 0.5; -0.116841137; 0.25; 1.0;
    0.49; 1.0; -0.085; 0.993150651; 0.5; -0.116841137; 0.2635; 1.0;
    0.98; 0.0; -0.17; 0.993150651; 0.5; -0.116841137; 0.0277; 0.0;
    0.94; 0.0; -0.34; 0.993417103; 0.5; -0.229039446; 0.0554; 0.0;
    0.49; 1.0; -0.085; 0.993417103; 0.5; -0.229039446; 0.2635; 1.0;
    0.47; 1.0; -0.17; 0.993417103; 0.5; -0.229039446; 0.277; 1.0;
    0.94; 0.0; -0.34; 0.993417103; 0.5; -0.229039446; 0.0554; 0.0;
    0.87; 0.0; -0.5; 0.993417103; 0.5; -0.229039446; 0.0831; 0.0;
    0.47; 1.0; -0.17; 0.993417103; 0.5; -0.229039446; 0.277; 1.0;
    0.435; 1.0; -0.25; 0.813733339; 0.5; -0.581238329; 0.2905; 1.0;
    0.87; 0.0; -0.5; 0.813733339; 0.5; -0.581238329; 0.0831; 0.0;
    0.77; 0.0; -0.64; 0.813733339; 0.5; -0.581238329; 0.1108; 0.0;
    0.435; 1.0; -0.25; 0.813733339; 0.5; -0.581238329; 0.2905; 1.0;
    0.385; 1.0; -0.32; 0.813733339; 0.5; -0.581238329; 0.304; 1.0;
    0.77; 0.0; -0.64; 0.813733339; 0.5; -0.581238329; 0.1108; 0.0;
    0.64; 0.0; -0.77; 0.707106769; 0.5; -0.707106769; 0.1385; 0.0;
    0.385; 1.0; -0.32; 0.707106769; 0.5; -0.707106769; 0.304; 1.0;
    0.32; 1.0; -0.385; 0.707106769; 0.5; -0.707106769; 0.3175; 1.0;
    0.64; 0.0; -0.77; 0.707106769; 0.5; -0.707106769; 0.1385; 0.0;
    0.5; 0.0; -0.87; 0.707106769; 0.5; -0.707106769; 0.1662; 0.0;
    0.32; 1.0; -0.385; 0.707106769; 0.5; -0.707106769; 0.3175; 1.0;
    0.25; 1.0; -0.435; 0.400818795; 0.5; -0.916157305; 0.331; 1.0;
    0.5; 0.0; -0.87; 0.400818795; 0.5; -0.916157305; 0.1662; 0.0;
    0.34; 0.0; -0.94; 0.400818795; 0.5; -0.916157305; 0.1939; 0.0;
    0.25; 1.0; -0.435; 0.400818795; 0.5; -0.916157305; 0.331; 1.0;
    0.17; 1.0; -0.47; 0.400818795; 0.5; -0.916157305; 0.3445; 1.0;
    0.34; 0.0; -0.94; 0.400818795; 0.5; -0.916157305; 0.1939; 0.0;
    0.17; 0.0; -0.98; 0.229039446; 0.5; -0.973417103; 0.2216; 0.0;
    0.17; 1.0; -0.47; 0.229039446; 0.5; -0.973417103; 0.3445; 1.0;
    0.085; 1.0; -0.49; 0.229039446; 0.5; -0.973417103; 0.358; 1.0;
    0.17; 0.0; -0.98; 0.229039446; 0.5; -0.973417103; 0.2216; 0.0;
    0.0; 0.0; -1.0; 0.229039446; 0.5; -0.973417103; 0.2493; 0.0;
    0.085; 1.0; -0.49; 0.229039446; 0.5; -0.973417103; 0.358; 1.0;
    0.0; 1.0; -0.5; -0.116841137; 0.5; -0.993150651; 0.3715; 1.0;
    0.0; 0.0; -1.0; -0.116841137; 0.5; -0.993150651; 0.2493; 0.0;
    -0.17; 0.0; -0.98; -0.116841137; 0.5; -0.993150651; 0.277; 0.0;
    0.0; 1.0; -0.5; -0.116841137; 0.5; -0.993150651; 0.3715; 1.0;
    -0.085; 1.0; -0.49; -0.116841137; 0.5; -0.993150651; 0.385; 1.0;
    -0.17; 0.0; -0.98; -0.116841137; 0.5; -0.993150651; 0.277; 0.0;
    -0.34; 0.0; -0.94; -0.229039446; 0.5; -0.973417103; 0.3047; 0.0;
    -0.085; 1.0; -0.49; -0.229039446; 0.5; -0.973417103; 0.385; 1.0;
    -0.17; 1.0; -0.47; -0.229039446; 0.5; -0.973417103; 0.3985; 1.0;
    -0.34; 0.0; -0.94; -0.229039446; 0.5; -0.973417103; 0.3047; 0.0;
    -0.5; 0.0; -0.87; -0.229039446; 0.5; -0.973417103; 0.3324; 0.0;
    -0.17; 1.0; -0.47; -0.229039446; 0.5; -0.973417103; 0.3985; 1.0;
    -0.25; 1.0; -0.435; -0.581238329; 0.5; -0.581238329; 0.412; 1.0;
    -0.5; 0.0; -0.87; -0.581238329; 0.5; -0.581238329; 0.3324; 0.0;
    -0.64; 0.0; -0.77; -0.581238329; 0.5; -0.581238329; 0.3601; 0.0;
    -0.25; 1.0; -0.435; -0.581238329; 0.5; -0.581238329; 0.412; 1.0;
    -0.32; 1.0; -0.385; -0.581238329; 0.5; -0.581238329; 0.4255; 1.0;
    -0.64; 0.0; -0.77; -0.581238329; 0.5; -0.581238329; 0.3601; 0.0;
    -0.77; 0.0; -0.64; -0.707106769; 0.5; -0.707106769; 0.3878; 0.0;
    -0.32; 1.0; -0.385; -0.707106769; 0.5; -0.707106769; 0.4255; 1.0;
    -0.385; 1.0; -0.32; -0.707106769; 0.5; -0.707106769; 0.439; 1.0;
    -0.77; 0.0; -0.64; -0.707106769; 0.5; -0.707106769; 0.3878; 0.0;
    -0.87; 0.0; -0.5; -0.707106769; 0.5; -0.707106769; 0.4155; 0.0;
    -0.385; 1.0; -0.32; -0.707106769; 0.5; -0.707106769; 0.439; 1.0;
    -0.435; 1.0; -0.25; -0.916157305; 0.5; -0.400818795; 0.4525; 1.0;
    -0.87; 0.0; -0.5; -0.916157305; 0.5; -0.400818795; 0.4155; 0.0;
    -0.94; 0.0; -0.34; -0.916157305; 0.5; -0.400818795; 0.4432; 0.0;
    -0.435; 1.0; -0.25; -0.916157305; 0.5; -0.400818795; 0.4525; 1.0;
    -0.47; 1.0; -0.17; -0.916157305; 0.5; -0.400818795; 0.466; 1.0;
    -0.94; 0.0; -0.34; -0.916157305; 0.5; -0.400818795; 0.4432; 0.0;
    -0.98; 0.0; -0.17; -0.973417103; 0.5; -0.229039446; 0.4709; 0.0;
    -0.47; 1.0; -0.17; -0.973417103; 0.5; -0.229039446; 0.466; 1.0;
    -0.49; 1.0; -0.085; -0.973417103; 0.5; -0.229039446; 0.4795; 1.0;
    -0.98; 0.0; -0.17; -0.973417103; 0.5; -0.229039446; 0.4709; 0.0;
    -1.0; 0.0; 0.0; -0.973417103; 0.5; -0.229039446; 0.4986; 0.0;
    -0.49; 1.0; -0.085; -0.973417103; 0.5; -0.229039446; 0.4795; 1.0;
    -0.5; 1.0; 0.0; -0.993150651; 0.5; -0.116841137; 0.493; 1.0;
    -1.0; 0.0; 0.0; -0.993150651; 0.5; -0.116841137; 0.4986; 0.0;
    -0.98; 0.0; 0.17; -0.993150651; 0.5; 0.116841137; 0.5263; 0.0;
    -0.5; 1.0; 0.0; -0.993150651; 0.5; 0.116841137; 0.493; 1.0;
    -0.49; 1.0; 0.085; -0.993150651; 0.5; 0.116841137; 0.5065; 1.0;
    -0.98; 0.0; 0.17; -0.993150651; 0.5; 0.116841137; 0.5263; 0.0;
    -0.94; 0.0; 0.34; -0.973417103; 0.5; 0.229039446; 0.554; 0.0;
    -0.49; 1.0; 0.085; -0.973417103; 0.5; 0.229039446; 0.5065; 1.0;
    -0.47; 1.0; 0.17; -0.973417103; 0.5; 0.229039446; 0.52; 1.0;
    -0.94; 0.0; 0.34; -0.973417103; 0.5; 0.229039446; 0.554; 0.0;
    -0.87; 0.0; 0.5; -0.973417103; 0.5; 0.229039446; 0.5817; 0.0;
    -0.47; 1.0; 0.17; -0.973417103; 0.5; 0.229039446; 0.52; 1.0;
    -0.435; 1.0; 0.25; -0.813733339; 0.5; 0.581238329; 0.5335; 1.0;
    -0.87; 0.0; 0.5; -0.813733339; 0.5; 0.581238329; 0.5817; 0.0;
    -0.77; 0.0; 0.64; -0.813733339; 0.5; 0.581238329; 0.6094; 0.0;
    -0.435; 1.0; 0.25; -0.813733339; 0.5; 0.581238329; 0.5335; 1.0;
    -0.385; 1.0; 0.32; -0.813733339; 0.5; 0.581238329; 0.547; 1.0;
    -0.77; 0.0; 0.64; -0.813733339; 0.5; 0.581238329; 0.6094; 0.0;
    -0.64; 0.0; 0.77; -0.707106769; 0.5; 0.707106769; 0.6371; 0.0;
    -0.385; 1.0; 0.32; -0.707106769; 0.5; 0.707106769; 0.547; 1.0;
    -0.32; 1.0; 0.385; -0.707106769; 0.5; 0.707106769; 0.5605; 1.0;
    -0.64; 0.0; 0.77; -0.707106769; 0.5; 0.707106769; 0.6371; 0.0;
    -0.5; 0.0; 0.87; -0.707106769; 0.5; 0.707106769; 0.6648; 0.0;
    -0.32; 1.0; 0.385; -0.707106769; 0.5; 0.707106769; 0.5605; 1.0;
    -0.25; 1.0; 0.435; -0.400818795; 0.5; 0.916157305; 0.574; 1.0;
    -0.5; 0.0; 0.87; -0.400818795; 0.5; 0.916157305; 0.6648; 0.0;
    -0.34; 0.0; 0.94; -0.400818795; 0.5; 0.916157305; 0.6925; 0.0;
    -0.25; 1.0; 0.435; -0.400818795; 0.5; 0.916157305; 0.574; 1.0;
    -0.17; 1.0; 0.47; -0.400818795; 0.5; 0.916157305; 0.5875; 1.0;
    -0.34; 0.0; 0.94; -0.400818795; 0.5; 0.916157305; 0.6925; 0.0;
    -0.17; 0.0; 0.98; -0.229039446; 0.5; 0.973417103; 0.7202; 0.0;
    -0.17; 1.0; 0.47; -0.229039446; 0.5; 0.973417103; 0.5875; 1.0;
    -0.085; 1.0; 0.49; -0.229039446; 0.5; 0.973417103; 0.601; 1.0;
    -0.17; 0.0; 0.98; -0.229039446; 0.5; 0.973417103; 0.7202; 0.0;
    0.0; 0.0; 1.0; -0.229039446; 0.5; 0.973417103; 0.7479; 0.0;
    -0.085; 1.0; 0.49; -0.229039446; 0.5; 0.973417103; 0.601; 1.0;
    0.0; 1.0; 0.5; -0.116841137; 0.5; 0.993150651; 0.6145; 1.0;
    0.0; 0.0; 1.0; -0.116841137; 0.5; 0.993150651; 0.7479; 0.0;
    0.17; 0.0; 0.98; 0.116841137; 0.5; 0.993150651; 0.7756; 0.0;
    0.0; 1.0; 0.5; 0.116841137; 0.5; 0.993150651; 0.6145; 1.0;
    0.085; 1.0; 0.49; 0.116841137; 0.5; 0.993150651; 0.628; 1.0;
    0.17; 0.0; 0.98; 0.116841137; 0.5; 0.993150651; 0.7756; 0.0;
    0.34; 0.0; 0.94; 0.229039446; 0.5; 0.973417103; 0.8033; 0.0;
    0.085; 1.0; 0.49; 0.229039446; 0.5; 0.973417103; 0.628; 1.0;
    0.17; 1.0; 0.47; 0.229039446; 0.5; 0.973417103; 0.6415; 1.0;
    0.34; 0.0; 0.94; 0.229039446; 0.5; 0.973417103; 0.8033; 0.0;
    0.5; 0.0; 0.87; 0.229039446; 0.5; 0.973417103; 0.831; 0.0;
    0.17; 1.0; 0.47; 0.229039446; 0.5; 0.973417103; 0.6415; 1.0;
    0.25; 1.0; 0.435; 0.581238329; 0.5; 0.813733339; 0.655; 1.0;
    0.5; 0.0; 0.87; 0.581238329; 0.5; 0.813733339; 0.831; 0.0;
    0.64; 0.0; 0.77; 0.581238329; 0.5; 0.813733339; 0.8587; 0.0;
    0.25; 1.0; 0.435; 0.581238329; 0.5; 0.813733339; 0.655; 1.0;
    0.32; 1.0; 0.385; 0.581238329; 0.5; 0.813733339; 0.6685; 1.0;
    0.64; 0.0; 0.77; 0.581238329; 0.5; 0.813733339; 0.8587; 0.0;
    0.77; 0.0; 0.64; 0.707106769; 0.5; 0.707106769; 0.8864; 0.0;
    0.32; 1.0; 0.385; 0.707106769; 0.5; 0.707106769; 0.6685; 1.0;
    0.385; 1.0; 0.32; 0.707106769; 0.5; 0.707106769; 0.682; 1.0;
    0.77; 0.0; 0.64; 0.707106769; 0.5; 0.707106769; 0.8864; 0.0;
    0.87; 0.0; 0.5; 0.707106769; 0.5; 0.707106769; 0.9141; 0.0;
    0.385; 1.0; 0.32; 0.707106769; 0.5; 0.707106769; 0.682; 1.0;
    0.435; 1.0; 0.25; 0.916157305; 0.5; 0.400818795; 0.6955; 1.0;
    0.87; 0.0; 0.5; 0.916157305; 0.5; 0.400818795; 0.9141; 0.0;
    0.94; 0.0; 0.34; 0.916157305; 0.5; 0.400818795; 0.9418; 0.0;
    0.435; 1.0; 0.25; 0.916157305; 0.5; 0.400818795; 0.6955; 1.0;
    0.47; 1.0; 0.17; 0.916157305; 0.5; 0.400818795; 0.709; 1.0;
    0.94; 0.0; 0.34; 0.916157305; 0.5; 0.400818795; 0.9418; 1.0;
    0.98; 0.0; 0.17; 0.973417103; 0.5; 0.229039446; 0.9695; 0.0;
    0.47; 1.0; 0.17; 0.973417103; 0.5; 0.229039446; 0.709; 0.0;
    0.49; 1.0; 0.085; 0.973417103; 0.5; 0.229039446; 0.7225; 1.0;
    0.98; 0.0; 0.17; 0.973417103; 0.5; 0.229039446; 0.9695; 0.0;
    1.0; 0.0; 0.0; 0.973417103; 0.5; 0.229039446; 1.0; 0.0;
    0.49; 1.0; 0.085; 0.973417103; 0.5; 0.229039446; 0.7225; 1.0;
    0.5; 1.0; 0.0; 0.993150651; 0.5; 0.116841137; 0.75; 1.0;
    1.0; 0.0; 0.0; 0.993150651; 0.5; 0.116841137; 1.0; 0.0 ].
Definition verts : list GLfloat :=
    cylinder_bottom ++ cylinder_top ++ cylinder_body.
End TaperedCylinder.

Definition LoadTaperedCylinderMesh : GLMesh :=
  {| nVertices := (size TaperedCylinder.verts
                   / (FloatsPerVertex + FloatsPerNormal + FloatsPerUV))%Z;
     nIndices := 0;
     vertexBuffer := TaperedCylinder.verts;
     indexBuffer := [] |}.

(** ** LoadTorusMesh *)

(** [std::max(a, b)] is [(a < b) ? b : a]. *)
Definition std_max_float (a b : GLfloat) : GLfloat :=
  if Rlt_dec a b then b else a.

Record vec3 : Type := mkvec3 { x : GLfloat; y : GLfloat; z : GLfloat }.

Definition vec3_sub (a b : vec3) : vec3 :=
  mkvec3 (x a - x b) (y a - y b) (z a - z b).

Definition dot (a b : vec3) : GLfloat := x a * x b + y a * y b + z a * z b.

(** [glm::normalize(v)] is [v * inversesqrt(dot(v, v))]. *)
Definition normalize (v : vec3) : vec3 :=
  let s := 1 / sqrt (dot v v) in
  mkvec3 (x v * s) (y v * s) (z v * s).

Definition torus_vertices (mainRadius tubeRadius : GLfloat) (mainSegments tubeSegments : Z)
  : list GLfloat :=
  let mainSegmentStep := 2.0 * Pi / IZR mainSegments in
  let tubeSegmentStep := 2.0 * Pi / IZR tubeSegments in
  for_le mainSegments (fun i vertices =>
    let mainAngle := IZR i * mainSegmentStep in
    let cosMain := cos mainAngle in
    let sinMain := sin mainAngle in
    for_le tubeSegments (fun j vertices =>
      let tubeAngle := IZR j * tubeSegmentStep in
      let cosTube := cos tubeAngle in
      let sinTube := sin tubeAngle in
      let x := (mainRadius + tubeRadius * cosTube) * cosMain in
      let y := (mainRadius + tubeRadius * cosTube) * sinMain in
      let z := tubeRadius * sinTube in
      let center := mkvec3 (mainRadius * cosMain) (mainRadius * sinMain) 0.0 in
      let vertex := mkvec3 x y z in
      let normal := normalize (vec3_sub vertex center) in
      let u := IZR i / IZR mainSegments in
      let v := IZR j / IZR tubeSegments in
      vertices ++ [x; y; z; ShapeMeshes.x normal; ShapeMeshes.y normal;
                   ShapeMeshes.z normal; u; v]) vertices) [].

Definition torus_indices (mainSegments tubeSegments : Z) : list Z :=
  for_lt mainSegments (fun i indices =>
    for_lt tubeSegments (fun j indices =>
      let current := (i * (tubeSegments + 1) + j)%Z in
      let next := ((i + 1) * (tubeSegments + 1) + j)%Z in
      indices ++ [GLuint_of current; GLuint_of next; GLuint_of (current + 1);
                  GLuint_of (current + 1); GLuint_of next; GLuint_of (next + 1)])
      indices) [].

(** The body of [LoadTorusMesh] below the three clamping assignments. *)
Definition torus_mesh (mainRadius tubeRadius : GLfloat) (mainSegments tubeSegments : Z)
  : GLMesh :=
  let vertices := torus_vertices mainRadius tubeRadius mainSegments tubeSegments in
  let indices := torus_indices mainSegments tubeSegments in
  {| nVertices := GLuint_of (size vertices / 8);
     nIndices := GLuint_of (size indices);
     vertexBuffer := vertices;
     indexBuffer := indices |}.

Definition LoadTorusMesh (mainRadius tubeRadius : GLfloat) (mainSegments tubeSegments : Z)
  : GLMesh :=
  let mainSegments := Z.max 3 mainSegments in
  let tubeSegments := Z.max 3 tubeSegments in
  let tubeRadius := std_max_float 0.01 tubeRadius in
  torus_mesh mainRadius tubeRadius mainSegments tubeSegments.

(** ** Drawing *)

Inductive GLmode : Type :=
| GL_TRIANGLES | GL_TRIANGLE_FAN | GL_TRIANGLE_STRIP | GL_LINES | GL_LINE_STRIP.

(** A draw call issued on the bound vertex array. *)
Inductive DrawCall : Type :=
| glDrawArrays (mode : GLmode) (first count : Z)
| glDrawElements (mode : GLmode) (count : Z).

(** [glDrawArrays(mode, first, count)] reads [count] consecutive vertices
    of the bound buffer, from vertex [first] on. *)
Definition vertices_read (c : DrawCall) : list Z :=
  match c with
  | glDrawArrays _ first count => Zseq first (Z.to_nat count)
  | glDrawElements _ _ => []
  end.

Definition when (b : bool) (c : DrawCall) : list DrawCall :=
  if b then [c] else [].

Definition DrawTaperedCylinderMesh (bDrawTop bDrawBottom bDrawSides : bool)
  : list DrawCall :=
  when bDrawBottom (glDrawArrays GL_TRIANGLE_FAN 0 36)
  ++ when bDrawTop (glDrawArrays GL_TRIANGLE_FAN 36 72)
  ++ when bDrawSides (glDrawArrays GL_TRIANGLE_STRIP 72 146).

(** The sibling for the plain cylinder, whose counts are computed from
    the stored number of slices. *)
Definition DrawCylinderMesh (numSlices : Z) (bDrawTop bDrawBottom bDrawSides : bool)
  : list DrawCall :=
  let bottomVertexCount := (numSlices + 2)%Z in
  let topVertexCount := (numSlices + 2)%Z in
  let sideVertexCount := ((numSlices + 1) * 2)%Z in
  when bDrawBottom (glDrawArrays GL_TRIANGLE_FAN 0 bottomVertexCount)
  ++ when bDrawTop (glDrawArrays GL_TRIANGLE_FAN bottomVertexCount topVertexCount)
  ++ when bDrawSides
       (glDrawArrays GL_TRIANGLE_STRIP (bottomVertexCount + topVertexCount) sideVertexCount).

(** ** The interleaved vertex layout of [SetShaderMemoryLayout]:
    three position floats, three normal floats, two texture floats. *)

Record Vertex : Type := mkVertex {
  position : vec3;
  normal : vec3;
  uv : GLfloat * GLfloat
}.

Fixpoint unpack (data : list GLfloat) : list Vertex :=
  match data with
  | px :: py :: pz :: nx :: ny :: nz :: u :: v :: rest =>
      mkVertex (mkvec3 px py pz) (mkvec3 nx ny nz) (u, v) :: unpack rest
  | _ => []
  end.

Definition length3 (v : vec3) : GLfloat := sqrt (dot v v).

(** ** Reading the meshes back *)

Definition pack (v : Vertex) : list GLfloat :=
  [x (position v); y (position v); z (position v);
   x (normal v); y (normal v); z (normal v); fst (uv v); snd (uv v)].

(** The vertex the loops of [LoadSphereMesh] emit at [(lat, lon)]. *)
Definition sphere_vertex (latitudeSegments longitudeSegments : Z) (radius : GLfloat)
  (lat lon : Z) : Vertex :=
  let theta := IZR lat * Pi / IZR latitudeSegments in
  let phi := IZR lon * 2 * Pi / IZR longitudeSegments in
  mkVertex
    (mkvec3 (radius * sin theta * cos phi) (radius * cos theta) (radius * sin theta * sin phi))
    (mkvec3 (sin theta * cos phi) (cos theta) (sin theta * sin phi))
    (1.0 - IZR lon / IZR longitudeSegments, 1.0 - IZR lat / IZR latitudeSegments).

(** The vertex the loops of [LoadTorusMesh] emit at [(i, j)]. *)
Definition torus_vertex (mainRadius tubeRadius : GLfloat) (mainSegments tubeSegments : Z)
  (i j : Z) : Vertex :=
  let mainAngle := IZR i * (2.0 * Pi / IZR mainSegments) in
  let tubeAngle := IZR j * (2.0 * Pi / IZR tubeSegments) in
  let p := mkvec3 ((mainRadius + tubeRadius * cos tubeAngle) * cos mainAngle)
                  ((mainRadius + tubeRadius * cos tubeAngle) * sin mainAngle)
                  (tubeRadius * sin tubeAngle) in
  let center := mkvec3 (mainRadius * cos mainAngle) (mainRadius * sin mainAngle) 0.0 in
  mkVertex p (normalize (vec3_sub p center)) (IZR i / IZR mainSegments, IZR j / IZR tubeSegments).

(** The rows of a grid of vertices, [rows] by [columns]. *)
Definition grid (rows columns : Z) (f : Z -> Z -> Vertex) : list Vertex :=
  flat_map (fun i => map (f i) (Zseq 0 (Z.to_nat columns))) (Zseq 0 (Z.to_nat rows)).

(** The axis a side of the box faces, away from the centre. *)
Definition outward_axis (side : BoxSide) : vec3 :=
  match side with
  | back => mkvec3 0 0 (-1)
  | bottom => mkvec3 0 (-1) 0
  | left => mkvec3 (-1) 0 0
  | right => mkvec3 1 0 0
  | top => mkvec3 0 1 0
  | front => mkvec3 0 0 1
  end.

(** The four vertices [DrawBoxMeshSide] draws for a side. *)
Definition side_vertices (side : BoxSide) : list Vertex :=
  firstn 4 (skipn (Z.to_nat (sideStartIndices side)) (unpack (vertexBuffer LoadBoxMesh))).

Definition centroid (vs : list Vertex) : vec3 :=
  let sum := fold_right (fun v acc => mkvec3 (x (position v) + x acc)
                                             (y (position v) + y acc)
                                             (z (position v) + z acc))
                        (mkvec3 0 0 0) vs in
  let n := INR (List.length vs) in
  mkvec3 (x sum / n) (y sum / n) (z sum / n).

(** The three parts of the tapered cylinder's buffer: first vertex and
    number of vertices, from the sizes of the parts of [verts]. *)
Inductive CylinderPart : Type := Bottom | Top | Sides.

Definition part_count (p : CylinderPart) : Z :=
  match p with
  | Bottom => size TaperedCylinder.cylinder_bottom / 8
  | Top => size TaperedCylinder.cylinder_top / 8
  | Sides => size TaperedCylinder.cylinder_body / 8
  end%Z.

Definition part_first (p : CylinderPart) : Z :=
  match p with
  | Bottom => 0
  | Top => part_count Bottom
  | Sides => part_count Bottom + part_count Top
  end%Z.

Definition part_vertices (p : CylinderPart) : list Z :=
  Zseq (part_first p) (Z.to_nat (part_count p)).

(** A draw call stays inside a buffer of [n] vertices. *)
Definition within_buffer (n : Z) (c : DrawCall) : Prop :=
  match c with
  | glDrawArrays _ first count => (0 <= first /\ 0 <= count /\ first + count <= n)%Z
  | glDrawElements _ _ => True
  end.

(** ** LoadCylinderMesh and LoadConeMesh *)

(** [static_cast<GLsizei>(n)] of an unsigned size: reduction modulo 2^32,
    read as a signed 32-bit integer. *)
Definition GLsizei_of (n : Z) : Z := int_of_GLuint (GLuint_of n).

(** The vertex vector [LoadCylinderMesh] builds, below the clamp of
    [numSlices]: the bottom fan, the top fan and the side strip. *)
Definition cylinder_vertices (radius height : GLfloat) (numSlices : Z) : list GLfloat :=
  let vertices := [] in
  let angleStep := 2.0 * Pi / IZR numSlices in
  let vertices := vertices ++ [0.0; 0.0; 0.0; 0.0; -1.0; 0.0; 0.5; 0.5] in
  let vertices :=
    for_le numSlices (fun i vertices =>
      let angle := IZR i * angleStep in
      let x := radius * cos angle in
      let z := radius * sin angle in
      vertices ++ [x; 0.0; z; 0.0; -1.0; 0.0; 0.5 + 0.5 * cos angle; 0.5 + 0.5 * sin angle])
      vertices in
  let vertices := vertices ++ [0.0; height; 0.0; 0.0; 1.0; 0.0; 0.5; 0.5] in
  let vertices :=
    for_le numSlices (fun i vertices =>
      let angle := IZR i * angleStep in
      let x := radius * cos angle in
      let z := radius * sin angle in
      vertices ++ [x; height; z; 0.0; 1.0; 0.0; 0.5 + 0.5 * cos angle; 0.5 + 0.5 * sin angle])
      vertices in
  for_le numSlices (fun i vertices =>
    let angle := IZR i * angleStep in
    let x := radius * cos angle in
    let z := radius * sin angle in
    let nx := cos angle in
    let nz := sin angle in
    let vertices := vertices ++ [x; 0.0; z; nx; 0.0; nz; IZR i / IZR numSlices; 0.0] in
    vertices ++ [x; height; z; nx; 0.0; nz; IZR i / IZR numSlices; 1.0])
    vertices.

(** The mesh, and the [numSlices] member stored beside it. *)
Definition LoadCylinderMesh (radius height : GLfloat) (numSlices : Z) : GLMesh * Z :=
  let numSlices := if (numSlices <? 3)%Z then 3%Z else numSlices in
  let vertices := cylinder_vertices radius height numSlices in
  ({| nVertices := GLsizei_of (size vertices / (FloatsPerVertex + FloatsPerNormal + FloatsPerUV));
      nIndices := 0;
      vertexBuffer := vertices;
      indexBuffer := [] |}, numSlices).

(** The vertex vector [LoadConeMesh] builds, below the clamp of
    [numSlices]: the bottom fan and the side strip. *)
Definition cone_vertices (radius height : GLfloat) (numSlices : Z) : list GLfloat :=
  let vertices := [] in
  let angleStep := 2.0 * Pi / IZR numSlices in
  let vertices := vertices ++ [0.0; 0.0; 0.0; 0.0; -1.0; 0.0; 0.5; 0.5] in
  let vertices :=
    for_le numSlices (fun i vertices =>
      let angle := IZR i * angleStep in
      let x := radius * cos angle in
      let z := radius * sin angle in
      vertices ++ [x; 0.0; z; 0.0; -1.0; 0.0; 0.5 + 0.5 * cos angle; 0.5 + 0.5 * sin angle])
      vertices in
  for_le numSlices (fun i vertices =>
    let angle := IZR i * angleStep in
    let x := radius * cos angle in
    let z := radius * sin angle in
    let nx := cos angle in
    let nz := sin angle in
    let vertices := vertices ++ [x; 0.0; z; nx; 0.0; nz; IZR i / IZR numSlices; 1.0] in
    vertices ++ [0.0; height; 0.0; nx; 0.0; nz; IZR i / IZR numSlices; 0.0])
    vertices.

Definition LoadConeMesh (radius height : GLfloat) (numSlices : Z) : GLMesh * Z :=
  let numSlices := if (numSlices <? 3)%Z then 3%Z else numSlices in
  let vertices := cone_vertices radius height numSlices in
  ({| nVertices := GLsizei_of (size vertices / (FloatsPerVertex + FloatsPerNormal + FloatsPerUV));
      nIndices := 0;
      vertexBuffer := vertices;
      indexBuffer := [] |}, numSlices).

Definition DrawConeMesh (numSlices : Z) (bDrawBottom : bool) : list DrawCall :=
  let bottomVertexCount := (numSlices + 2)%Z in
  let sideVertexCount := (numSlices * 2)%Z in
  when bDrawBottom (glDrawArrays GL_TRIANGLE_FAN 0 bottomVertexCount)
  ++ [glDrawArrays GL_TRIANGLE_STRIP bottomVertexCount sideVertexCount].

Definition DrawConeMeshLines (numSlices : Z) (bDrawBottom : bool) : list DrawCall :=
  let bottomVertexCount := (numSlices + 2)%Z in
  let sideVertexCount := (numSlices * 2)%Z in
  when bDrawBottom (glDrawArrays GL_LINES 0 bottomVertexCount)
  ++ [glDrawArrays GL_LINE_STRIP bottomVertexCount sideVertexCount].

(** The vertices the loops above emit at step [i]. *)
Definition cap_vertex (radius y ny : GLfloat) (numSlices i : Z) : Vertex :=
  let angle := IZR i * (2.0 * Pi / IZR numSlices) in
  mkVertex (mkvec3 (radius * cos angle) y (radius * sin angle)) (mkvec3 0.0 ny 0.0)
           (0.5 + 0.5 * cos angle, 0.5 + 0.5 * sin angle).

Definition cap_centre (y ny : GLfloat) : Vertex :=
  mkVertex (mkvec3 0.0 y 0.0) (mkvec3 0.0 ny 0.0) (0.5, 0.5).

Definition cylinder_side_pair (radius height : GLfloat) (numSlices i : Z) : list Vertex :=
  let angle := IZR i * (2.0 * Pi / IZR numSlices) in
  [ mkVertex (mkvec3 (radius * cos angle) 0.0 (radius * sin angle))
             (mkvec3 (cos angle) 0.0 (sin angle)) (IZR i / IZR numSlices, 0.0);
    mkVertex (mkvec3 (radius * cos angle) height (radius * sin angle))
             (mkvec3 (cos angle) 0.0 (sin angle)) (IZR i / IZR numSlices, 1.0) ].

Definition cone_side_pair (radius height : GLfloat) (numSlices i : Z) : list Vertex :=
  let angle := IZR i * (2.0 * Pi / IZR numSlices) in
  [ mkVertex (mkvec3 (radius * cos angle) 0.0 (radius * sin angle))
             (mkvec3 (cos angle) 0.0 (sin angle)) (IZR i / IZR numSlices, 1.0);
    mkVertex (mkvec3 0.0 height 0.0)
             (mkvec3 (cos angle) 0.0 (sin angle)) (IZR i / IZR numSlices, 0.0) ].

(** All the vertices a list of draw calls reads, in order. *)
Definition all_vertices_read (calls : list DrawCall) : list Z :=
  flat_map vertices_read calls.

(** ** DrawSphereMesh and DrawHalfSphereMesh *)

(** What a draw method leaves behind: the lines written to [std::cerr]
    and the draw calls issued.  [vao] is the name of the vertex array the
    mesh was loaded into, 0 when it never was. *)
Definition DrawSphereMesh (vao : Z) (m_SphereMesh : GLMesh) : list string * list DrawCall :=
  if ((vao =? 0) || (nIndices m_SphereMesh =? 0))%Z
  then (["Error: Sphere mesh VAO or indices not properly initialized."%string], [])
  else ([], [glDrawElements GL_TRIANGLES (nIndices m_SphereMesh)]).

Definition DrawHalfSphereMesh (vao : Z) (m_SphereMesh : GLMesh)
  : list string * list DrawCall :=
  if ((vao =? 0) || (nIndices m_SphereMesh =? 0))%Z
  then (["Error: Sphere mesh VAO or indices not properly initialized."%string], [])
  else ([], [glDrawElements GL_TRIANGLES (Z.quot (nIndices m_SphereMesh) 2)]).

(** [glDrawElements(mode, count, GL_UNSIGNED_INT, 0)] reads the first
    [count] entries of the bound element buffer. *)
Definition indices_read (elements : list Z) (c : DrawCall) : list Z :=
  match c with
  | glDrawArrays _ _ _ => []
  | glDrawElements _ count => firstn (Z.to_nat count) elements
  end.

(** ** LoadPyramid4Mesh *)

Module Pyramid4.

Record Face : Type := mkFace {
  top : vec3;
  bottomLeft : vec3;
  bottomRight : vec3
}.

(** The lambda [addVertex], on the vector it captures. *)
Definition addVertex (verts : list GLfloat) (px py pz nx ny nz u v : GLfloat)
  : list GLfloat :=
  verts ++ [px; py; pz; nx; ny; nz; u; v].

(** The lambda [calculateNormal]. *)
Definition calculateNormal (x1 y1 z1 x2 y2 z2 : GLfloat) : vec3 :=
  let nx := y1 * z2 - z1 * y2 in
  let ny := z1 * x2 - x1 * z2 in
  let nz := x1 * y2 - y1 * x2 in
  let length := sqrt (nx * nx + ny * ny + nz * nz) in
  mkvec3 (nx / length) (ny / length) (nz / length).

Definition faces (halfBase height : GLfloat) : list Face :=
  [ mkFace (mkvec3 0.0 (height / 2.0) 0.0)
           (mkvec3 (- halfBase) (- halfBase) (- halfBase))
           (mkvec3 (- halfBase) (- halfBase) halfBase);
    mkFace (mkvec3 0.0 (height / 2.0) 0.0)
           (mkvec3 halfBase (- halfBase) (- halfBase))
           (mkvec3 (- halfBase) (- halfBase) (- halfBase));
    mkFace (mkvec3 0.0 (height / 2.0) 0.0)
           (mkvec3 halfBase (- halfBase) halfBase)
           (mkvec3 halfBase (- halfBase) (- halfBase));
    mkFace (mkvec3 0.0 (height / 2.0) 0.0)
           (mkvec3 (- halfBase) (- halfBase) halfBase)
           (mkvec3 halfBase (- halfBase) halfBase) ].

(** The normal the loop computes for a face. *)
Definition face_normal (face : Face) : vec3 :=
  calculateNormal
    (x (bottomRight face) - x (bottomLeft face)) (y (bottomRight face) - y (bottomLeft face))
    (z (bottomRight face) - z (bottomLeft face)) (x (top face) - x (bottomLeft face))
    (y (top face) - y (bottomLeft face)) (z (top face) - z (bottomLeft face)).

(** The body of the loop over the faces. *)
Definition add_face (verts : list GLfloat) (face : Face) : list GLfloat :=
  let normal := face_normal face in
  let verts := addVertex verts (x (top face)) (y (top face)) (z (top face))
                         (x normal) (y normal) (z normal) 0.5 1.0 in
  let verts := addVertex verts (x (bottomLeft face)) (y (bottomLeft face)) (z (bottomLeft face))
                         (x normal) (y normal) (z normal) 0.0 0.0 in
  addVertex verts (x (bottomRight face)) (y (bottomRight face)) (z (bottomRight face))
            (x normal) (y normal) (z normal) 1.0 0.0.

(** The three vertices the loop emits for a face. *)
Definition face_vertices (face : Face) : list Vertex :=
  [ mkVertex (top face) (face_normal face) (0.5, 1.0);
    mkVertex (bottomLeft face) (face_normal face) (0.0, 0.0);
    mkVertex (bottomRight face) (face_normal face) (1.0, 0.0) ].

(** The four vertices of the bottom face. *)
Definition bottom_vertices (halfBase : GLfloat) : list Vertex :=
  [ mkVertex (mkvec3 (- halfBase) (- halfBase) halfBase) (mkvec3 0.0 (-1.0) 0.0) (0.0, 1.0);
    mkVertex (mkvec3 (- halfBase) (- halfBase) (- halfBase)) (mkvec3 0.0 (-1.0) 0.0) (0.0, 0.0);
    mkVertex (mkvec3 halfBase (- halfBase) (- halfBase)) (mkvec3 0.0 (-1.0) 0.0) (1.0, 0.0);
    mkVertex (mkvec3 halfBase (- halfBase) halfBase) (mkvec3 0.0 (-1.0) 0.0) (1.0, 1.0) ].

End Pyramid4.

(** [nIndices] is not assigned by the method and is recorded as 0; the
    mesh is drawn with [glDrawArrays]. *)
Definition LoadPyramid4Mesh (baseSize height : GLfloat) : GLMesh :=
  let halfBase := baseSize / 2.0 in
  let verts := [] in
  let verts := Pyramid4.addVertex verts (- halfBase) (- halfBase) halfBase
                                  0.0 (-1.0) 0.0 0.0 1.0 in
  let verts := Pyramid4.addVertex verts (- halfBase) (- halfBase) (- halfBase)
                                  0.0 (-1.0) 0.0 0.0 0.0 in
  let verts := Pyramid4.addVertex verts halfBase (- halfBase) (- halfBase)
                                  0.0 (-1.0) 0.0 1.0 0.0 in
  let verts := Pyramid4.addVertex verts halfBase (- halfBase) halfBase
                                  0.0 (-1.0) 0.0 1.0 1.0 in
  let verts := fold_left Pyramid4.add_face (Pyramid4.faces halfBase height) verts in
  {| nVertices := (size verts / (3 + 3 + 2))%Z;
     nIndices := 0;
     vertexBuffer := verts;
     indexBuffer := [] |}.

Definition DrawPyramid4Mesh (m_Pyramid4Mesh : GLMesh) : list string * list DrawCall :=
  if (nVertices m_Pyramid4Mesh =? 0)%Z
  then (["Error: Pyramid mesh not loaded or has no vertices!"%string], [])
  else ([], [glDrawArrays GL_TRIANGLE_STRIP 0 (nVertices m_Pyramid4Mesh)]).

(** ** DrawTorusMesh and DrawHalfTorusMesh *)

Definition DrawTorusMesh (m_TorusMesh : GLMesh) : list DrawCall :=
  [glDrawElements GL_TRIANGLES (nIndices m_TorusMesh)].

Definition DrawHalfTorusMesh (m_TorusMesh : GLMesh) : list DrawCall :=
  [glDrawElements GL_TRIANGLES (Z.quot (nIndices m_TorusMesh) 2)].

(** The texture coordinates of a vertex lie in the unit square. *)
Definition in_unit_square (v : Vertex) : Prop :=
  0 <= fst (uv v) <= 1 /\ 0 <= snd (uv v) <= 1.

End ShapeMeshes.

(* ===================================================================== *)
(** * IEEE 754 binary32: the C++ type [float] *)
(* ===================================================================== *)

(** The camera and the view manager only add, subtract, multiply, divide
    and compare floats, operations that IEEE 754 fixes bit for bit; they
    are taken from the specification of floating-point numbers in the
    Standard Library, at precision 24 and maximal exponent 128. *)

Module Ieee.

Definition float : Type := spec_float.
Definition double : Type := spec_float.

Definition prec : Z := 24.
Definition emax : Z := 128.

Definition add : float -> float -> float := SFadd prec emax.
Definition sub : float -> float -> float := SFsub prec emax.
Definition mul : float -> float -> float := SFmul prec emax.
Definition div : float -> float -> float := SFdiv prec emax.
Definition sqrt : float -> float := SFsqrt prec emax.
Definition opp : float -> float := SFopp.
Definition ltb : float -> float -> bool := SFltb.
Definition leb : float -> float -> bool := SFleb.
Definition eqb : float -> float -> bool := SFeqb.

Definition is_nan (x : float) : bool :=
  match x with
  | S754_nan => true
  | _ => false
  end.

(** Neither an infinity nor a NaN. *)
Definition is_finite (x : float) : bool :=
  match x with
  | S754_zero _ | S754_finite _ _ _ => true
  | _ => false
  end.


(** Conversion of an integer to [float]. *)
Definition of_int (z : Z) : float := binary_normalize prec emax z 0 false.

(** The literal [num/den] for integers that are floats themselves:
    division rounds the exact quotient, as the compiler does the literal. *)
Definition lit (num den : Z) : float := div (of_int num) (of_int den).

(** Rounding to another format: [double] to [float] and back. *)
Definition round_to (p e : Z) (x : spec_float) : spec_float :=
  match x with
  | S754_finite s m ex => binary_normalize p e (cond_Zopp s (Z.pos m)) ex s
  | _ => x
  end.
Definition to_float (d : double) : float := round_to prec emax d.
Definition to_double (f : float) : double := round_to 53 1024 f.
Definition sub_double : double -> double -> double := SFsub 53 1024.

Record vec3 : Type := mkvec3 { x : float; y : float; z : float }.

Definition vadd (a b : vec3) : vec3 :=
  mkvec3 (add (x a) (x b)) (add (y a) (y b)) (add (z a) (z b)).
Definition vsub (a b : vec3) : vec3 :=
  mkvec3 (sub (x a) (x b)) (sub (y a) (y b)) (sub (z a) (z b)).
Definition vscale (a : vec3) (s : float) : vec3 :=
  mkvec3 (mul (x a) s) (mul (y a) s) (mul (z a) s).

(** [glm::dot], [glm::cross], [glm::normalize], [glm::radians] *)
Definition dot (a b : vec3) : float :=
  add (add (mul (x a) (x b)) (mul (y a) (y b))) (mul (z a) (z b)).
Definition cross (a b : vec3) : vec3 :=
  mkvec3 (sub (mul (y a) (z b)) (mul (y b) (z a)))
         (sub (mul (z a) (x b)) (mul (z b) (x a)))
         (sub (mul (x a) (y b)) (mul (x b) (y a))).
Definition normalize (v : vec3) : vec3 :=
  vscale v (div (of_int 1) (sqrt (dot v v))).
(** The float nearest to 0.01745329251994329576923690768489. *)
Definition degrees_to_radians : float := S754_finite false 9370165 (-29).
Definition radians (degrees : float) : float := mul degrees degrees_to_radians.

End Ieee.

(* ===================================================================== *)
(** * camera.h *)
(* ===================================================================== *)

Module Camera.

Import Ieee.

Inductive Camera_Movement : Type := FORWARD | BACKWARD | LEFT | RIGHT | UP | DOWN.

(** Default camera values *)
Definition YAW : float := of_int (-90).
Definition PITCH : float := of_int 0.
Definition SPEED : float := lit 25 10.
Definition SENSITIVITY : float := lit 1 10.
Definition ZOOM : float := of_int 45.

Record t : Type := mk {
  Position : vec3;
  Front : vec3;
  Up : vec3;
  Right : vec3;
  WorldUp : vec3;
  Yaw : float;
  Pitch : float;
  MovementSpeed : float;
  MouseSensitivity : float;
  Zoom : float
}.

Definition set_Position (c : t) (v : vec3) : t :=
  mk v (Front c) (Up c) (Right c) (WorldUp c) (Yaw c) (Pitch c)
     (MovementSpeed c) (MouseSensitivity c) (Zoom c).
Definition set_Front (c : t) (v : vec3) : t :=
  mk (Position c) v (Up c) (Right c) (WorldUp c) (Yaw c) (Pitch c)
     (MovementSpeed c) (MouseSensitivity c) (Zoom c).
Definition set_Up (c : t) (v : vec3) : t :=
  mk (Position c) (Front c) v (Right c) (WorldUp c) (Yaw c) (Pitch c)
     (MovementSpeed c) (MouseSensitivity c) (Zoom c).
Definition set_Right (c : t) (v : vec3) : t :=
  mk (Position c) (Front c) (Up c) v (WorldUp c) (Yaw c) (Pitch c)
     (MovementSpeed c) (MouseSensitivity c) (Zoom c).
Definition set_Yaw (c : t) (v : float) : t :=
  mk (Position c) (Front c) (Up c) (Right c) (WorldUp c) v (Pitch c)
     (MovementSpeed c) (MouseSensitivity c) (Zoom c).
Definition set_Pitch (c : t) (v : float) : t :=
  mk (Position c) (Front c) (Up c) (Right c) (WorldUp c) (Yaw c) v
     (MovementSpeed c) (MouseSensitivity c) (Zoom c).
Definition set_MovementSpeed (c : t) (v : float) : t :=
  mk (Position c) (Front c) (Up c) (Right c) (WorldUp c) (Yaw c) (Pitch c)
     v (MouseSensitivity c) (Zoom c).
Definition set_Zoom (c : t) (v : float) : t :=
  mk (Position c) (Front c) (Up c) (Right c) (WorldUp c) (Yaw c) (Pitch c)
     (MovementSpeed c) (MouseSensitivity c) v.

(** The view matrix is kept as the call that builds it. *)
Inductive ViewMatrix : Type :=
| glm_lookAt (eye center up : vec3).

Definition GetViewMatrix (c : t) : ViewMatrix :=
  glm_lookAt (Position c) (vadd (Position c) (Front c)) (Up c).

Section Libm.

(** [sin] and [cos] of the C library, on floats. *)
Variables sinf cosf : float -> float.

Definition updateCameraVectors (c : t) : t :=
  let front :=
    mkvec3 (mul (cosf (radians (Yaw c))) (cosf (radians (Pitch c))))
           (sinf (radians (Pitch c)))
           (mul (sinf (radians (Yaw c))) (cosf (radians (Pitch c)))) in
  let c := set_Front c (normalize front) in
  let c := set_Right c (normalize (cross (Front c) (WorldUp c))) in
  set_Up c (normalize (cross (Right c) (Front c))).

(** The constructor with vectors. *)
Definition Camera (position up : vec3) (yaw pitch : float) : t :=
  let c := {| Position := position;
              Front := mkvec3 (of_int 0) (of_int 0) (of_int (-1));
              Up := mkvec3 (of_int 0) (of_int 0) (of_int 0);
              Right := mkvec3 (of_int 0) (of_int 0) (of_int 0);
              WorldUp := up;
              Yaw := yaw;
              Pitch := pitch;
              MovementSpeed := SPEED;
              MouseSensitivity := SENSITIVITY;
              Zoom := ZOOM |} in
  updateCameraVectors c.

(** [Camera()], every argument at its default. *)
Definition Camera_default : t :=
  Camera (mkvec3 (of_int 0) (of_int 0) (of_int 0))
         (mkvec3 (of_int 0) (of_int 1) (of_int 0)) YAW PITCH.

Definition ProcessMouseMovement (xoffset yoffset : float) (constrainPitch : bool) (c : t) : t :=
  let xoffset := mul xoffset (MouseSensitivity c) in
  let yoffset := mul yoffset (MouseSensitivity c) in
  let c := set_Yaw c (add (Yaw c) xoffset) in
  let c := set_Pitch c (add (Pitch c) yoffset) in
  let c :=
    if constrainPitch then
      let c := if ltb (of_int 89) (Pitch c) then set_Pitch c (of_int 89) else c in
      if ltb (Pitch c) (of_int (-89)) then set_Pitch c (of_int (-89)) else c
    else c in
  updateCameraVectors c.

End Libm.

Definition ProcessKeyboard (direction : Camera_Movement) (deltaTime : float) (c : t) : t :=
  let velocity := mul (MovementSpeed c) deltaTime in
  match direction with
  | FORWARD => set_Position c (vadd (Position c) (vscale (Front c) velocity))
  | BACKWARD => set_Position c (vsub (Position c) (vscale (Front c) velocity))
  | LEFT => set_Position c (vsub (Position c) (vscale (Right c) velocity))
  | RIGHT => set_Position c (vadd (Position c) (vscale (Right c) velocity))
  | UP => set_Position c (vadd (Position c) (vscale (Up c) velocity))
  | DOWN => set_Position c (vsub (Position c) (vscale (Up c) velocity))
  end.

Definition ProcessMouseScroll (yoffset : float) (c : t) : t :=
  let c := set_MovementSpeed c (sub (MovementSpeed c) yoffset) in
  let c := if ltb (MovementSpeed c) (of_int 1) then set_MovementSpeed c (of_int 1) else c in
  if ltb (of_int 45) (MovementSpeed c) then set_MovementSpeed c (of_int 45) else c.

Definition ProcessMousePress (leftButtonPressed rightButtonPressed : bool) (c : t) : t :=
  if rightButtonPressed && negb (eqb (Zoom c) (of_int 45)) then set_Zoom c (of_int 45)
  else if rightButtonPressed && eqb (Zoom c) (of_int 45) then set_Zoom c (of_int 80)
  else c.

(** ** The pitch constraint *)

(** [-89.0f <= Pitch <= 89.0f] *)
Definition pitch_constrained (c : t) : Prop :=
  leb (of_int (-89)) (Pitch c) = true /\ leb (Pitch c) (of_int 89) = true.

(** The pitch right after [Pitch += yoffset], before it is constrained. *)
Definition updated_pitch (yoffset : float) (c : t) : float :=
  add (Pitch c) (mul yoffset (MouseSensitivity c)).

(** A sequence of mouse movements, each a pair of offsets, processed with
    [constrainPitch] true. *)
Definition process_movements (sinf cosf : float -> float)
  (movements : list (float * float)) (c : t) : t :=
  fold_left (fun c m => ProcessMouseMovement sinf cosf (fst m) (snd m) true c) movements c.

End Camera.

(* ===================================================================== *)
(** * ViewManager.cpp *)
(* ===================================================================== *)

Module ViewManager.

Import Ieee.

Definition WINDOW_WIDTH : Z := 1500.
Definition WINDOW_HEIGHT : Z := 1200.
Definition g_ViewName : string := "view".
Definition g_ProjectionName : string := "projection".

(** The keys [ProcessKeyboardEvents] polls. *)
Inductive Key : Type :=
| GLFW_KEY_ESCAPE | GLFW_KEY_W | GLFW_KEY_S | GLFW_KEY_A | GLFW_KEY_D
| GLFW_KEY_Q | GLFW_KEY_E | GLFW_KEY_O | GLFW_KEY_I | GLFW_KEY_U | GLFW_KEY_P.

(** The projection matrix is kept as the call that builds it. *)
Inductive ProjectionMatrix : Type :=
| glm_perspective (fovy aspect zNear zFar : float)
| glm_ortho (left right bottom top zNear zFar : float).

(** Uniforms handed to the shader manager. *)
Inductive Uniform : Type :=
| setMat4Value_view (name : string) (m : Camera.ViewMatrix)
| setMat4Value_projection (name : string) (m : ProjectionMatrix)
| setVec3Value (name : string) (v : vec3).

(** The globals of the anonymous namespace, the members of the class, and
    what the class has sent out: the close request to the window, the
    viewport and the shader uniforms. *)
Record State : Type := mkState {
  g_pCamera : Camera.t;
  gLastX : float;
  gLastY : float;
  gFirstMouse : bool;
  gDeltaTime : float;
  gLastFrame : float;
  bOrthographicProjection : bool;
  m_pShaderManager : bool;      (* whether the pointer is not NULL *)
  m_pWindow : bool;             (* whether the pointer is not NULL *)
  windowShouldClose : bool;
  viewport : option (Z * Z);
  uniforms : list Uniform
}.

Definition set_camera (s : State) (c : Camera.t) : State :=
  mkState c (gLastX s) (gLastY s) (gFirstMouse s) (gDeltaTime s) (gLastFrame s)
    (bOrthographicProjection s) (m_pShaderManager s) (m_pWindow s)
    (windowShouldClose s) (viewport s) (uniforms s).
Definition set_mouse (s : State) (lastX lastY : float) (first : bool) : State :=
  mkState (g_pCamera s) lastX lastY first (gDeltaTime s) (gLastFrame s)
    (bOrthographicProjection s) (m_pShaderManager s) (m_pWindow s)
    (windowShouldClose s) (viewport s) (uniforms s).
Definition set_frame (s : State) (deltaTime lastFrame : float) : State :=
  mkState (g_pCamera s) (gLastX s) (gLastY s) (gFirstMouse s) deltaTime lastFrame
    (bOrthographicProjection s) (m_pShaderManager s) (m_pWindow s)
    (windowShouldClose s) (viewport s) (uniforms s).
Definition set_bOrthographicProjection (s : State) (b : bool) : State :=
  mkState (g_pCamera s) (gLastX s) (gLastY s) (gFirstMouse s) (gDeltaTime s) (gLastFrame s)
    b (m_pShaderManager s) (m_pWindow s)
    (windowShouldClose s) (viewport s) (uniforms s).
Definition set_m_pWindow (s : State) (w : bool) : State :=
  mkState (g_pCamera s) (gLastX s) (gLastY s) (gFirstMouse s) (gDeltaTime s) (gLastFrame s)
    (bOrthographicProjection s) (m_pShaderManager s) w
    (windowShouldClose s) (viewport s) (uniforms s).
Definition set_windowShouldClose (s : State) (b : bool) : State :=
  mkState (g_pCamera s) (gLastX s) (gLastY s) (gFirstMouse s) (gDeltaTime s) (gLastFrame s)
    (bOrthographicProjection s) (m_pShaderManager s) (m_pWindow s)
    b (viewport s) (uniforms s).
Definition set_viewport (s : State) (v : option (Z * Z)) : State :=
  mkState (g_pCamera s) (gLastX s) (gLastY s) (gFirstMouse s) (gDeltaTime s) (gLastFrame s)
    (bOrthographicProjection s) (m_pShaderManager s) (m_pWindow s)
    (windowShouldClose s) v (uniforms s).
Definition send (s : State) (u : Uniform) : State :=
  mkState (g_pCamera s) (gLastX s) (gLastY s) (gFirstMouse s) (gDeltaTime s) (gLastFrame s)
    (bOrthographicProjection s) (m_pShaderManager s) (m_pWindow s)
    (windowShouldClose s) (viewport s) (uniforms s ++ [u]).

Definition vec (a b c : float) : vec3 := mkvec3 a b c.

Section Libm.

Variables sinf cosf : float -> float.

(** The initial values of the globals, then the constructor. *)
Definition ViewManager (pShaderManager : bool) : State :=
  let camera := Camera.Camera_default sinf cosf in
  let camera := Camera.set_Position camera (vec (of_int 0) (of_int 10) (of_int 12)) in
  let camera := Camera.set_Front camera (vec (of_int 0) (lit (-5) 10) (of_int (-2))) in
  let camera := Camera.set_Up camera (vec (of_int 0) (of_int 1) (of_int 0)) in
  let camera := Camera.set_Zoom camera (of_int 80) in
  let camera := Camera.set_MovementSpeed camera (of_int 20) in
  {| g_pCamera := camera;
     gLastX := div (of_int WINDOW_WIDTH) (of_int 2);
     gLastY := div (of_int WINDOW_HEIGHT) (of_int 2);
     gFirstMouse := true;
     gDeltaTime := of_int 0;
     gLastFrame := of_int 0;
     bOrthographicProjection := false;
     m_pShaderManager := pShaderManager;
     m_pWindow := false;
     windowShouldClose := false;
     viewport := None;
     uniforms := [] |}.

(** [created] tells whether [glfwCreateWindow] returned a window. *)
Definition CreateDisplayWindow (created : bool) (s : State) : State :=
  if created then set_m_pWindow s true else s.

Definition GLFW_MOUSE_BUTTON_RIGHT : Z := 1.
Definition GLFW_PRESS : Z := 1.

Definition Mouse_Button_Callback (button action mods : Z) (s : State) : State :=
  if (button =? GLFW_MOUSE_BUTTON_RIGHT)%Z && (action =? GLFW_PRESS)%Z then
    let rightButtonPressed := negb (button =? 0)%Z in
    let camera := g_pCamera s in
    if rightButtonPressed && negb (eqb (Camera.Zoom camera) (of_int 45))
    then set_camera s (Camera.set_Zoom camera (of_int 45))
    else if rightButtonPressed && eqb (Camera.Zoom camera) (of_int 45)
    then set_camera s (Camera.set_Zoom camera (of_int 80))
    else s
  else s.

Definition Window_Resize_Callback (width height : Z) (s : State) : State :=
  set_viewport s (Some (width, height)).

Definition Mouse_Scroll_Wheel_Callback (xOffset yOffset : double) (s : State) : State :=
  let camera := g_pCamera s in
  let camera :=
    Camera.set_MovementSpeed camera (add (Camera.MovementSpeed camera) (to_float yOffset)) in
  let camera :=
    if ltb (Camera.MovementSpeed camera) (of_int 1)
    then Camera.set_MovementSpeed camera (of_int 1) else camera in
  let camera :=
    if ltb (of_int 45) (Camera.MovementSpeed camera)
    then Camera.set_MovementSpeed camera (of_int 45) else camera in
  set_camera s camera.

Definition Mouse_Position_Callback (xMousePos yMousePos : double) (s : State) : State :=
  let s :=
    if gFirstMouse s
    then set_mouse s (to_float xMousePos) (to_float yMousePos) false
    else s in
  let xOffset := to_float (sub_double xMousePos (to_double (gLastX s))) in
  let yOffset := to_float (sub_double (to_double (gLastY s)) yMousePos) in
  let s := set_mouse s (to_float xMousePos) (to_float yMousePos) (gFirstMouse s) in
  set_camera s (Camera.ProcessMouseMovement sinf cosf xOffset yOffset true (g_pCamera s)).

(** [if (glfwGetKey(m_pWindow, key) == GLFW_PRESS) { action }]: whether the
    key is down is the input [pressed key]. *)
Definition if_pressed (pressed : Key -> bool) (key : Key) (action : State -> State)
  (s : State) : State :=
  if pressed key then action s else s.

(** [g_pCamera->ProcessKeyboard(direction, gDeltaTime)] *)
Definition move (direction : Camera.Camera_Movement) (s : State) : State :=
  set_camera s (Camera.ProcessKeyboard direction (gDeltaTime s) (g_pCamera s)).

(** The three assignments to the camera's position, up and front vectors. *)
Definition look (position up front : vec3) (s : State) : State :=
  set_camera s
    (Camera.set_Front (Camera.set_Up (Camera.set_Position (g_pCamera s) position) up) front).

Definition ProcessKeyboardEvents (pressed : Key -> bool) (s : State) : State :=
  let s := if_pressed pressed GLFW_KEY_ESCAPE (fun s => set_windowShouldClose s true) s in
  let s := if_pressed pressed GLFW_KEY_W (move Camera.FORWARD) s in
  let s := if_pressed pressed GLFW_KEY_S (move Camera.BACKWARD) s in
  let s := if_pressed pressed GLFW_KEY_A (move Camera.LEFT) s in
  let s := if_pressed pressed GLFW_KEY_D (move Camera.RIGHT) s in
  let s := if_pressed pressed GLFW_KEY_Q (move Camera.UP) s in
  let s := if_pressed pressed GLFW_KEY_E (move Camera.DOWN) s in
  let s :=
    if_pressed pressed GLFW_KEY_O (fun s =>
      let s := set_bOrthographicProjection s true in
      look (vec (of_int 0) (of_int 5) (of_int 12))
           (vec (of_int 0) (of_int 1) (of_int 0))
           (vec (of_int 0) (of_int 0) (of_int (-1))) s) s in
  let s :=
    if_pressed pressed GLFW_KEY_I (fun s =>
      let s := set_bOrthographicProjection s true in
      look (vec (of_int 12) (of_int 5) (of_int 0))
           (vec (of_int 0) (of_int 1) (of_int 0))
           (vec (of_int (-1)) (of_int 0) (of_int 0)) s) s in
  let s :=
    if_pressed pressed GLFW_KEY_U (fun s =>
      let s := set_bOrthographicProjection s true in
      look (vec (of_int 0) (of_int 16) (of_int 2))
           (vec (of_int (-1)) (of_int 0) (of_int 0))
           (vec (of_int 0) (of_int (-1)) (of_int 0)) s) s in
  if_pressed pressed GLFW_KEY_P (fun s =>
    let s := set_bOrthographicProjection s false in
    let s := look (vec (of_int 0) (of_int 10) (of_int 12))
                  (vec (of_int 0) (of_int 1) (of_int 0))
                  (vec (of_int 0) (lit (-5) 10) (of_int (-2))) s in
    set_camera s (Camera.set_Zoom (g_pCamera s) (of_int 80))) s.

(** The projection [PrepareSceneView] defines for the current state. *)
Definition projection_of (s : State) : ProjectionMatrix :=
  let Zoom := Camera.Zoom (g_pCamera s) in
  if Bool.eqb (bOrthographicProjection s) false then
    glm_perspective (radians Zoom)
      (div (of_int WINDOW_WIDTH) (of_int WINDOW_HEIGHT)) (lit 1 10) (of_int 100)
  else
    glm_ortho
      (div (opp (of_int WINDOW_WIDTH)) (mul (of_int 2) Zoom))
      (div (of_int WINDOW_WIDTH) (mul (of_int 2) Zoom))
      (div (opp (of_int WINDOW_HEIGHT)) (mul (of_int 2) Zoom))
      (div (of_int WINDOW_HEIGHT) (mul (of_int 2) Zoom))
      (lit 1 10) (of_int 100).

(** One frame: [glfwGetTime()] and the keyboard are the inputs. *)
Definition PrepareSceneView (glfwGetTime : double) (pressed : Key -> bool) (s : State)
  : State :=
  let currentFrame := to_float glfwGetTime in
  let s := set_frame s (sub currentFrame (gLastFrame s)) currentFrame in
  let s := ProcessKeyboardEvents pressed s in
  let view := Camera.GetViewMatrix (g_pCamera s) in
  let projection := projection_of s in
  if m_pShaderManager s then
    let s := send s (setMat4Value_view g_ViewName view) in
    let s := send s (setMat4Value_projection g_ProjectionName projection) in
    send s (setVec3Value "viewPosition" (Camera.Position (g_pCamera s)))
  else s.

End Libm.

(** ** The projection mode *)

Definition is_ortho (p : ProjectionMatrix) : bool :=
  match p with
  | glm_ortho _ _ _ _ _ _ => true
  | glm_perspective _ _ _ _ => false
  end.

(** What the four mode keys make of the flag, in the order they are
    polled: O, I and U set it, P clears it last. *)
Definition mode_after_keys (pressed : Key -> bool) (flag : bool) : bool :=
  if pressed GLFW_KEY_P then false
  else if pressed GLFW_KEY_O || pressed GLFW_KEY_I || pressed GLFW_KEY_U then true
  else flag.

(** The state in which [PrepareSceneView] chooses the projection. *)
Definition polled (glfwGetTime : double) (pressed : Key -> bool) (s : State) : State :=
  ProcessKeyboardEvents pressed
    (set_frame s (sub (to_float glfwGetTime) (gLastFrame s)) (to_float glfwGetTime)).

(** What reaches the class from outside: the window system's callbacks
    and the frame of the render loop. *)
Inductive Event : Type :=
| MouseButton (button action mods : Z)
| WindowResize (width height : Z)
| MouseScroll (xOffset yOffset : double)
| MousePosition (xMousePos yMousePos : double)
| Frame (glfwGetTime : double) (pressed : Key -> bool).

Definition handle (sinf cosf : float -> float) (e : Event) (s : State) : State :=
  match e with
  | MouseButton button action mods => Mouse_Button_Callback button action mods s
  | WindowResize width height => Window_Resize_Callback width height s
  | MouseScroll xOffset yOffset => Mouse_Scroll_Wheel_Callback xOffset yOffset s
  | MousePosition xMousePos yMousePos =>
      Mouse_Position_Callback sinf cosf xMousePos yMousePos s
  | Frame glfwGetTime pressed => PrepareSceneView glfwGetTime pressed s
  end.

(** A run of events, and what it makes of the flag: only frames count. *)
Definition run (sinf cosf : float -> float) (events : list Event) (s : State) : State :=
  fold_left (fun s e => handle sinf cosf e s) events s.

Definition mode_after (events : list Event) (flag : bool) : bool :=
  fold_left (fun flag e =>
               match e with
               | Frame _ pressed => mode_after_keys pressed flag
               | _ => flag
               end) events flag.

(** ** What holds through every run *)

(** [1.0f <= MovementSpeed <= 45.0f] *)
Definition speed_clamped (c : Camera.t) : Prop :=
  leb (of_int 1) (Camera.MovementSpeed c) = true
  /\ leb (Camera.MovementSpeed c) (of_int 45) = true.

(** The scroll offset of the event, if it is one, is a number. *)
Definition scroll_defined (e : Event) : Prop :=
  match e with
  | MouseScroll _ yOffset => is_nan yOffset = false
  | _ => True
  end.

(** The vertical cursor position of the event, if it has one, is finite. *)
Definition cursor_finite (e : Event) : Prop :=
  match e with
  | MousePosition _ yMousePos => is_finite yMousePos = true
  | _ => True
  end.

(** What keeps the pitch constrained from one event to the next: the
    pitch is constrained, the sensitivity is the constant the camera is
    created with, and the last cursor height is a number. *)
Definition pitch_invariant (s : State) : Prop :=
  Camera.pitch_constrained (g_pCamera s)
  /\ Camera.MouseSensitivity (g_pCamera s) = Camera.SENSITIVITY
  /\ is_nan (gLastY s) = false.

End ViewManager.

(* ===================================================================== *)
(** * SceneManager.cpp *)
(* ===================================================================== *)

Module SceneManager.

Import Cxx.
Local Open Scope string_scope.
Local Open Scope Z_scope.

(** Modelled from the spec: SceneManager.h, which declares [TEXTURE_INFO],
    is not among the sources; the structure has the two members
    SceneManager.cpp uses, a tag and the [GLuint] handed to
    [glDeleteTextures]. *)
Module TEXTURE_INFO.
Record t : Type := mk { tag : string; ID : Z }.
End TEXTURE_INFO.

(** Modelled from the spec: SceneManager.h, which declares
    [OBJECT_MATERIAL], is not among the sources; the structure has the four
    members SceneManager.cpp uses. *)
Module OBJECT_MATERIAL.
Record t : Type := mk {
  diffuseColor : Ieee.vec3;
  specularColor : Ieee.vec3;
  shininess : Ieee.float;
  tag : string
}.
End OBJECT_MATERIAL.

(** Modelled from the spec: SceneManager.h, which declares [m_textureIDs],
    is not among the sources; the array is the fixed one of 16 entries of
    the spec, as the comments of SceneManager.cpp have it ("There are up to
    16 slots", "Up to 16 textures can be loaded per scene"). *)
Definition TEXTURE_SLOTS : nat := 16.

(** What is inserted into [std::cout]. *)
Inductive Out : Type :=
| Str (s : string)
| Int (n : Z)
| Endl.

Inductive GLformat : Type := GL_RGB8 | GL_RGB | GL_RGBA8 | GL_RGBA.
Inductive GLparam : Type :=
| GL_TEXTURE_WRAP_S | GL_TEXTURE_WRAP_T | GL_TEXTURE_MIN_FILTER | GL_TEXTURE_MAG_FILTER.
Inductive GLvalue : Type := GL_REPEAT | GL_LINEAR.

(** The calls into stb_image and OpenGL, in the order they are made. *)
Inductive Call : Type :=
| stbi_set_flip_vertically_on_load (flag : bool)
| stbi_load (filename : string)
| stbi_image_free
| glGenTextures (name : Z)
| glBindTexture (name : Z)
| glTexParameteri (pname : GLparam) (param : GLvalue)
| glTexImage2D (internalformat : GLformat) (width height : Z) (format : GLformat)
| glGenerateMipmap
| glActiveTexture (unit : Z)
| glDeleteTextures (name : Z).

(** What [stbi_load] reports about a decoded image. *)
Record Image : Type := mkImage { width : Z; height : Z; colorChannels : Z }.

(** The members of the class, the output stream and the trace of library
    calls. *)
Record State : Type := mkState {
  m_textureIDs : list TEXTURE_INFO.t;
  m_loadedTextures : Z;
  m_objectMaterials : list OBJECT_MATERIAL.t;
  cout : list Out;
  calls : list Call
}.

(** Methods run in a state and may hit undefined behaviour. *)
Definition M (A : Type) : Type := State -> outcome (A * State).

Definition ret {A : Type} (a : A) : M A := fun s => Normal (a, s).
Definition mbind {A B : Type} (m : M A) (k : A -> M B) : M B :=
  fun s => match m s with
           | Normal (a, s') => k a s'
           | OutOfBounds => OutOfBounds
           end.

Declare Scope scene_scope.
Delimit Scope scene_scope with scene.
Notation "x <- m ;; k" := (mbind m (fun x => k))
  (at level 61, m at next level, right associativity) : scene_scope.
Notation "m ;; k" := (mbind m (fun _ => k))
  (at level 61, right associativity) : scene_scope.
Local Open Scope scene_scope.

Definition print (items : list Out) : M unit :=
  fun s => Normal (tt, mkState (m_textureIDs s) (m_loadedTextures s) (m_objectMaterials s)
                         (cout s ++ items) (calls s)).
Definition call (c : Call) : M unit :=
  fun s => Normal (tt, mkState (m_textureIDs s) (m_loadedTextures s) (m_objectMaterials s)
                         (cout s) (calls s ++ [c])).
Definition get_loadedTextures : M Z := fun s => Normal (m_loadedTextures s, s).
Definition set_loadedTextures (n : Z) : M unit :=
  fun s => Normal (tt, mkState (m_textureIDs s) n (m_objectMaterials s) (cout s) (calls s)).
(** [m_textureIDs[i]] read, and [m_textureIDs[i].ID = id; m_textureIDs[i].tag = tag]. *)
Definition read_texture (i : Z) : M TEXTURE_INFO.t :=
  fun s => bind (array_get (m_textureIDs s) i) (fun e => Normal (e, s)).
Definition write_texture (i : Z) (e : TEXTURE_INFO.t) : M unit :=
  fun s => bind (array_set (m_textureIDs s) i e)
             (fun a => Normal (tt, mkState a (m_loadedTextures s) (m_objectMaterials s)
                                     (cout s) (calls s))).

(** [for (int i = 0; i < n; i++) body] over methods. *)
Fixpoint for_from_M (n : nat) (i : Z) (body : Z -> M unit) : M unit :=
  match n with
  | O => ret tt
  | S n' => body i ;; for_from_M n' (i + 1) body
  end.

(** The constructor: every entry tagged "/0" with the ID -1. *)
Definition SceneManager : State :=
  {| m_textureIDs := repeat (TEXTURE_INFO.mk "/0" (GLuint_of (-1))) TEXTURE_SLOTS;
     m_loadedTextures := 0;
     m_objectMaterials := [];
     cout := [];
     calls := [] |}.

Section Environment.

(** The files on disk, as stb_image decodes them, and the texture name the
    driver hands out after a given history of calls. *)
Variable decode : string -> option Image.
Variable fresh_texture : list Call -> Z.

Definition CreateGLTexture (filename : string) (tag : string) : M bool :=
  call (stbi_set_flip_vertically_on_load true) ;;
  call (stbi_load filename) ;;
  match decode filename with
  | Some image =>
      print [Str "Successfully loaded image:"; Str filename;
             Str ", width:"; Int (width image);
             Str ", height:"; Int (height image);
             Str ", channels:"; Int (colorChannels image); Endl] ;;
      textureID <- (fun s => Normal (GLuint_of (fresh_texture (calls s)), s)) ;;
      call (glGenTextures textureID) ;;
      call (glBindTexture textureID) ;;
      call (glTexParameteri GL_TEXTURE_WRAP_S GL_REPEAT) ;;
      call (glTexParameteri GL_TEXTURE_WRAP_T GL_REPEAT) ;;
      call (glTexParameteri GL_TEXTURE_MIN_FILTER GL_LINEAR) ;;
      call (glTexParameteri GL_TEXTURE_MAG_FILTER GL_LINEAR) ;;
      let register : M bool :=
        call glGenerateMipmap ;;
        call stbi_image_free ;;
        call (glBindTexture 0) ;;
        n <- get_loadedTextures ;;
        write_texture n (TEXTURE_INFO.mk tag textureID) ;;
        set_loadedTextures (n + 1) ;;
        ret true in
      if colorChannels image =? 3 then
        call (glTexImage2D GL_RGB8 (width image) (height image) GL_RGB) ;; register
      else if colorChannels image =? 4 then
        call (glTexImage2D GL_RGBA8 (width image) (height image) GL_RGBA) ;; register
      else
        print [Str "Not implemented to handle image with "; Int (colorChannels image);
               Str " channels"; Endl] ;;
        ret false
  | None =>
      print [Str "Could not load image:"; Str filename; Endl] ;;
      ret false
  end.


(** ** What a call of [CreateGLTexture] prints and calls *)

(** The two lines [CreateGLTexture] can print when it fails. *)
Definition could_not_load (filename : string) : list Out :=
  [Str "Could not load image:"; Str filename; Endl].

Definition not_implemented (image : Image) : list Out :=
  [Str "Not implemented to handle image with "; Int (colorChannels image);
   Str " channels"; Endl].

Definition successfully_loaded (filename : string) (image : Image) : list Out :=
  [Str "Successfully loaded image:"; Str filename;
   Str ", width:"; Int (width image); Str ", height:"; Int (height image);
   Str ", channels:"; Int (colorChannels image); Endl].

(** The calls up to the test of the number of channels. *)
Definition texture_setup (filename : string) (name : Z) : list Call :=
  [stbi_set_flip_vertically_on_load true; stbi_load filename;
   glGenTextures name; glBindTexture name;
   glTexParameteri GL_TEXTURE_WRAP_S GL_REPEAT;
   glTexParameteri GL_TEXTURE_WRAP_T GL_REPEAT;
   glTexParameteri GL_TEXTURE_MIN_FILTER GL_LINEAR;
   glTexParameteri GL_TEXTURE_MAG_FILTER GL_LINEAR].

(** The name [glGenTextures] yields in state [s] while loading [filename]. *)
Definition new_name (filename : string) (s : State) : Z :=
  GLuint_of (fresh_texture
               (calls s ++ [stbi_set_flip_vertically_on_load true; stbi_load filename])).

(** What is uploaded for an image of three or of four channels. *)
Definition upload (image : Image) : Call :=
  if colorChannels image =? 3
  then glTexImage2D GL_RGB8 (width image) (height image) GL_RGB
  else glTexImage2D GL_RGBA8 (width image) (height image) GL_RGBA.

Definition texture_calls (filename : string) (image : Image) (name : Z) : list Call :=
  texture_setup filename name
  ++ [upload image; glGenerateMipmap; stbi_image_free; glBindTexture 0].

Definition BindGLTextures : M unit :=
  n <- get_loadedTextures ;;
  for_from_M (Z.to_nat n) 0 (fun i =>
    call (glActiveTexture i) ;;
    e <- read_texture i ;;
    call (glBindTexture (TEXTURE_INFO.ID e))).

Definition DestroyGLTextures : M unit :=
  n <- get_loadedTextures ;;
  for_from_M (Z.to_nat n) 0 (fun i =>
    e <- read_texture i ;;
    call (glDeleteTextures (TEXTURE_INFO.ID e))) ;;
  set_loadedTextures 0.

Definition LoadSceneTextures : M unit :=
  bReturn <- CreateGLTexture "textures/floor.png" "floor" ;;
  bReturn <- CreateGLTexture "textures/wallpaper.jpg" "wallpaper" ;;
  bReturn <- CreateGLTexture "textures/ceiling.jpg" "ceiling" ;;
  bReturn <- CreateGLTexture "textures/soda1.png" "soda1" ;;
  bReturn <- CreateGLTexture "textures/soda2.png" "soda2" ;;
  bReturn <- CreateGLTexture "textures/sodatop.png" "soda_top" ;;
  bReturn <- CreateGLTexture "textures/tekken.jpg" "tekken" ;;
  bReturn <- CreateGLTexture "textures/arcade2.png" "arcade2" ;;
  bReturn <- CreateGLTexture "textures/coinslot.png" "coin_slot" ;;
  bReturn <- CreateGLTexture "textures/test2.png" "test" ;;
  bReturn <- CreateGLTexture "textures/testt.jpg" "testt" ;;
  bReturn <- CreateGLTexture "textures/yellow.png" "yellow" ;;
  bReturn <- CreateGLTexture "textures/linen.jpg" "linen" ;;
  bReturn <- CreateGLTexture "textures/leather.jpg" "leather" ;;
  bReturn <- CreateGLTexture "textures/metal2.jpg" "metal2" ;;
  bReturn <- CreateGLTexture "textures/aluminum.png" "aluminum" ;;
  BindGLTextures.

End Environment.

(** ** The lookups *)

(** [a.compare(b) == 0] on [std::string] *)
Definition compare_is_0 (a b : string) : bool := String.eqb a b.

(** The [while] loop of [FindTextureID]: its three locals are the running
    state. *)
Equations? FindTextureID_loop (s : State) (tag : string) (textureID index : Z) (bFound : bool)
  : outcome Z by wf (Z.to_nat (m_loadedTextures s - index) + (if bFound then 0 else 1))%nat lt :=
FindTextureID_loop s tag textureID index bFound
  with Z_lt_dec index (m_loadedTextures s), bool_dec bFound false => {
  | left _, left _ with array_get (m_textureIDs s) index => {
    | OutOfBounds := OutOfBounds
    | Normal e with compare_is_0 (TEXTURE_INFO.tag e) tag => {
      | true := FindTextureID_loop s tag (int_of_GLuint (TEXTURE_INFO.ID e)) index true
      | false := FindTextureID_loop s tag textureID (index + 1) bFound } }
  | _, _ := Normal textureID }.
Proof.
  all: subst; simpl; lia.
Qed.

Definition FindTextureID (tag : string) (s : State) : outcome Z :=
  FindTextureID_loop s tag (-1) 0 false.

Equations? FindTextureSlot_loop (s : State) (tag : string) (textureSlot index : Z) (bFound : bool)
  : outcome Z by wf (Z.to_nat (m_loadedTextures s - index) + (if bFound then 0 else 1))%nat lt :=
FindTextureSlot_loop s tag textureSlot index bFound
  with Z_lt_dec index (m_loadedTextures s), bool_dec bFound false => {
  | left _, left _ with array_get (m_textureIDs s) index => {
    | OutOfBounds := OutOfBounds
    | Normal e with compare_is_0 (TEXTURE_INFO.tag e) tag => {
      | true := FindTextureSlot_loop s tag index index true
      | false := FindTextureSlot_loop s tag textureSlot (index + 1) bFound } }
  | _, _ := Normal textureSlot }.
Proof.
  all: subst; simpl; lia.
Qed.

Definition FindTextureSlot (tag : string) (s : State) : outcome Z :=
  FindTextureSlot_loop s tag (-1) 0 false.

(** The [while] loop of [FindMaterial]. *)
Equations? FindMaterial_loop (materials : list OBJECT_MATERIAL.t) (tag : string)
  (material : OBJECT_MATERIAL.t) (index : Z) (bFound : bool)
  : outcome OBJECT_MATERIAL.t
  by wf (Z.to_nat (Z.of_nat (List.length materials) - index) + (if bFound then 0 else 1))%nat lt :=
FindMaterial_loop materials tag material index bFound
  with Z_lt_dec index (Z.of_nat (List.length materials)), bool_dec bFound false => {
  | left _, left _ with array_get materials index => {
    | OutOfBounds := OutOfBounds
    | Normal m with compare_is_0 (OBJECT_MATERIAL.tag m) tag => {
      | true :=
          FindMaterial_loop materials tag
            (OBJECT_MATERIAL.mk (OBJECT_MATERIAL.diffuseColor m)
                                (OBJECT_MATERIAL.specularColor m)
                                (OBJECT_MATERIAL.shininess m)
                                (OBJECT_MATERIAL.tag material))
            index true
      | false := FindMaterial_loop materials tag material (index + 1) bFound } }
  | _, _ := Normal material }.
Proof.
  all: subst; simpl; lia.
Qed.

(** The result and the caller's [material] after the call. *)
Definition FindMaterial (tag : string) (material : OBJECT_MATERIAL.t) (s : State)
  : outcome (bool * OBJECT_MATERIAL.t) :=
  if Z.of_nat (List.length (m_objectMaterials s)) =? 0 then Normal (false, material)
  else bind (FindMaterial_loop (m_objectMaterials s) tag material 0 false)
            (fun material => Normal (true, material)).

(** ** Reading the registry and the material table *)

(** The array has its 16 entries and the counter stays within them. *)
Definition registry_ok (s : State) : Prop :=
  List.length (m_textureIDs s) = TEXTURE_SLOTS
  /\ 0 <= m_loadedTextures s <= Z.of_nat TEXTURE_SLOTS.

(** No loaded texture from [index] on carries the tag. *)
Definition no_match_from (s : State) (tag : string) (index : Z) : Prop :=
  forall i e, index <= i < m_loadedTextures s ->
              array_get (m_textureIDs s) i = Normal e -> TEXTURE_INFO.tag e <> tag.

(** Entry [k] is the first loaded texture from [index] on that carries
    the tag. *)
Definition first_match_from (s : State) (tag : string) (index k : Z) (e : TEXTURE_INFO.t)
  : Prop :=
  index <= k < m_loadedTextures s
  /\ array_get (m_textureIDs s) k = Normal e
  /\ TEXTURE_INFO.tag e = tag
  /\ forall j e', index <= j < k ->
                  array_get (m_textureIDs s) j = Normal e' -> TEXTURE_INFO.tag e' <> tag.

Definition has_tag (tag : string) (m : OBJECT_MATERIAL.t) : bool :=
  compare_is_0 (OBJECT_MATERIAL.tag m) tag.

(** What [FindMaterial] writes into the caller's material on a match. *)
Definition copy_colors (m material : OBJECT_MATERIAL.t) : OBJECT_MATERIAL.t :=
  OBJECT_MATERIAL.mk (OBJECT_MATERIAL.diffuseColor m) (OBJECT_MATERIAL.specularColor m)
                     (OBJECT_MATERIAL.shininess m) (OBJECT_MATERIAL.tag material).

(** ** Reading the trace *)

(** The image decodes and has three or four channels. *)
Definition loads (decode : string -> option Image) (filename : string) : bool :=
  match decode filename with
  | Some image => (colorChannels image =? 3) || (colorChannels image =? 4)
  | None => false
  end.

Definition is_stbi_load (c : Call) : bool :=
  match c with
  | stbi_load _ => true
  | _ => false
  end.

(** The number of attempts to decode a file. *)
Definition load_attempts (s : State) : nat := List.length (filter is_stbi_load (calls s)).

(** The file names and tags of [LoadSceneTextures], in order. *)
Definition scene_textures : list (string * string) :=
  [ ("textures/floor.png", "floor"); ("textures/wallpaper.jpg", "wallpaper");
    ("textures/ceiling.jpg", "ceiling"); ("textures/soda1.png", "soda1");
    ("textures/soda2.png", "soda2"); ("textures/sodatop.png", "soda_top");
    ("textures/tekken.jpg", "tekken"); ("textures/arcade2.png", "arcade2");
    ("textures/coinslot.png", "coin_slot"); ("textures/test2.png", "test");
    ("textures/testt.jpg", "testt"); ("textures/yellow.png", "yellow");
    ("textures/linen.jpg", "linen"); ("textures/leather.jpg", "leather");
    ("textures/metal2.jpg", "metal2"); ("textures/aluminum.png", "aluminum") ].

(** The loads of a list that succeed. *)
Definition successes (decode : string -> option Image) (l : list (string * string)) : nat :=
  List.length (filter (fun p => loads decode (fst p)) l).

(** [CreateGLTexture] for each pair of a list in turn, then [k]. *)
Fixpoint create_all (decode : string -> option Image) (fresh_texture : list Call -> Z)
  (l : list (string * string)) (k : M unit) : M unit :=
  match l with
  | [] => k
  | (filename, tag) :: l' =>
      bReturn <- CreateGLTexture decode fresh_texture filename tag ;;
      create_all decode fresh_texture l' k
  end.

(** ** The shader values *)

Definition g_TextureValueName : string := "objectTexture".
Definition g_UseTextureName : string := "bUseTexture".

(** What the methods below hand to the shader manager, as declared in
    ShaderManager.h. *)
Inductive Uniform : Type :=
| setIntValue (name : string) (value : Z)
| setSampler2DValue (name : string) (value : Z)
| setFloatValue (name : string) (value : Ieee.float)
| setVec3Value (name : string) (value : Ieee.vec3).

(** How a method that goes through [m_pShaderManager] ends: it returns, or
    runs into undefined behaviour, a subscript outside an array or a
    member call through the NULL pointer. *)
Inductive Ending (A : Type) : Type :=
| Returns (a : A)
| SubscriptOutOfRange
| NullDereference.
Arguments SubscriptOutOfRange {A}.
Arguments NullDereference {A}.

(** The methods below take [m_pShaderManager] as whether the pointer is
    not NULL, and yield the values sent through it, in order. *)
Definition SetShaderTexture (m_pShaderManager : bool) (textureTag : string) (s : State)
  : outcome (list Uniform) :=
  if m_pShaderManager
  then bind (FindTextureSlot textureTag s) (fun textureID =>
         Normal [setIntValue g_UseTextureName 1;
                 setSampler2DValue g_TextureValueName textureID])
  else Normal [].

(** [material] is the local of that name as its declaration leaves it,
    before [FindMaterial] is given it. *)
Definition SetShaderMaterial (m_pShaderManager : bool) (materialTag : string)
  (material : OBJECT_MATERIAL.t) (s : State) : Ending (list Uniform) :=
  if 0 <? Z.of_nat (List.length (m_objectMaterials s)) then
    match FindMaterial materialTag material s with
    | Normal (bReturn, material) =>
        if bReturn then
          if m_pShaderManager
          then Returns
                 [setVec3Value "material.diffuseColor" (OBJECT_MATERIAL.diffuseColor material);
                  setVec3Value "material.specularColor" (OBJECT_MATERIAL.specularColor material);
                  setFloatValue "material.shininess" (OBJECT_MATERIAL.shininess material)]
          else NullDereference
        else Returns []
    | OutOfBounds => SubscriptOutOfRange
    end
  else Returns [].

(** ** Reading the registry as a list *)

(** The entries in use: the first [m_loadedTextures] of the array. *)
Definition loaded (s : State) : list TEXTURE_INFO.t :=
  firstn (Z.to_nat (m_loadedTextures s)) (m_textureIDs s).

Definition loaded_tags (s : State) : list string := map TEXTURE_INFO.tag (loaded s).

(** The position of the first of [tags] equal to [tag], counted from
    [index], or -1. *)
Fixpoint slot_from (tags : list string) (tag : string) (index : Z) : Z :=
  match tags with
  | [] => -1
  | t :: rest => if compare_is_0 t tag then index else slot_from rest tag (index + 1)
  end.

(** The ID of the first entry tagged [tag], as an [int], or -1. *)
Definition id_of (entries : list TEXTURE_INFO.t) (tag : string) : Z :=
  match find (fun e => compare_is_0 (TEXTURE_INFO.tag e) tag) entries with
  | Some e => int_of_GLuint (TEXTURE_INFO.ID e)
  | None => -1
  end.

(** The calls of [BindGLTextures] for a list of entries, from unit [i]. *)
Fixpoint bind_calls (entries : list TEXTURE_INFO.t) (i : Z) : list Call :=
  match entries with
  | [] => []
  | e :: rest =>
      glActiveTexture i :: glBindTexture (TEXTURE_INFO.ID e) :: bind_calls rest (i + 1)
  end.

(** The calls of [DestroyGLTextures] for a list of entries. *)
Definition delete_calls (entries : list TEXTURE_INFO.t) : list Call :=
  map (fun e => glDeleteTextures (TEXTURE_INFO.ID e)) entries.

(** The tags of the files of a list that load, in order. *)
Definition loaded_of (decode : string -> option Image) (l : list (string * string))
  : list string :=
  map snd (filter (fun p => loads decode (fst p)) l).

(** No string occurs twice in the list. *)
Fixpoint distinct (l : list string) : bool :=
  match l with
  | [] => true
  | t :: rest => negb (existsb (String.eqb t) rest) && distinct rest
  end.

End SceneManager.

(* ===================================================================== *)
(** * ShapeMeshes.cpp in binary32: LoadSphereMesh *)
(* ===================================================================== *)

(** The values [LoadSphereMesh] stores, as the machine computes them: a
    [float] is an IEEE 754 binary32 number, a [double] a binary64 one, and
    every operation rounds to nearest, ties to even.  [sin] and [cos] come
    from the C library and are parameters. *)

Module FloatMeshes.

Import Cxx Ieee.
Local Open Scope Z_scope.

(** Arithmetic in [double] and the conversion of an [int] to [double],
    which is exact. *)
Definition mul_double : double -> double -> double := SFmul 53 1024.
Definition div_double : double -> double -> double := SFdiv 53 1024.
Definition double_of_int (z : Z) : double := binary_normalize 53 1024 z 0 false.

(** [Constants::Pi], the [double] nearest to 3.141592653589793. *)
Definition Pi : double :=
  div_double (double_of_int 3141592653589793) (double_of_int 1000000000000000).

(** Modelled from the spec: shapemeshes.h, which declares [GLMesh], is not
    among the sources.  The record keeps what [LoadSphereMesh] leaves
    behind: the two counts it stores in the [GLMesh] member and the
    contents it hands to [glBufferData] for the vertex buffer and for the
    element buffer. *)
Record GLMesh : Type := mkGLMesh {
  nVertices : Z;
  nIndices : Z;
  vertexBuffer : list float;
  indexBuffer : list Z
}.

(** [float theta = lat * Pi / latitudeSegments]: the product and the
    quotient are computed in [double], the result is rounded to [float]. *)
Definition theta (latitudeSegments lat : Z) : float :=
  to_float (div_double (mul_double (double_of_int lat) Pi) (double_of_int latitudeSegments)).

(** [float phi = lon * 2 * Pi / longitudeSegments] *)
Definition phi (longitudeSegments lon : Z) : float :=
  to_float (div_double (mul_double (double_of_int (lon * 2)) Pi)
                       (double_of_int longitudeSegments)).

Section LoadSphereMesh.

(** [sin] and [cos] of <cmath> at a [float], as the result is stored in a
    [float]. *)
Variables sinf cosf : float -> float.

Definition sphere_vertices (latitudeSegments longitudeSegments : Z) (radius : float)
  : list float :=
  for_le latitudeSegments (fun lat vertices =>
    let theta := theta latitudeSegments lat in
    let sinTheta := sinf theta in
    let cosTheta := cosf theta in
    for_le longitudeSegments (fun lon vertices =>
      let phi := phi longitudeSegments lon in
      let sinPhi := sinf phi in
      let cosPhi := cosf phi in
      let x := mul (mul radius sinTheta) cosPhi in
      let y := mul radius cosTheta in
      let z := mul (mul radius sinTheta) sinPhi in
      let nx := mul sinTheta cosPhi in
      let ny := cosTheta in
      let nz := mul sinTheta sinPhi in
      let u := sub (of_int 1) (div (of_int lon) (of_int longitudeSegments)) in
      let v := sub (of_int 1) (div (of_int lat) (of_int latitudeSegments)) in
      vertices ++ [x; y; z; nx; ny; nz; u; v]) vertices) [].

Definition LoadSphereMesh (latitudeSegments longitudeSegments : Z) (radius : float)
  : GLMesh :=
  let vertices := sphere_vertices latitudeSegments longitudeSegments radius in
  let indices := ShapeMeshes.sphere_indices latitudeSegments longitudeSegments in
  {| nVertices := GLuint_of (ShapeMeshes.size vertices / 8);
     nIndices := GLuint_of (ShapeMeshes.size indices);
     vertexBuffer := vertices;
     indexBuffer := indices |}.

End LoadSphereMesh.

(** ** The interleaved vertex layout of [SetShaderMemoryLayout]:
    three position floats, three normal floats, two texture floats. *)

Record Vertex : Type := mkVertex {
  position : vec3;
  normal : vec3;
  uv : float * float
}.

Fixpoint unpack (data : list float) : list Vertex :=
  match data with
  | px :: py :: pz :: nx :: ny :: nz :: u :: v :: rest =>
      mkVertex (mkvec3 px py pz) (mkvec3 nx ny nz) (u, v) :: unpack rest
  | _ => []
  end.

Definition pack (v : Vertex) : list float :=
  [x (position v); y (position v); z (position v);
   x (normal v); y (normal v); z (normal v); fst (uv v); snd (uv v)].

(** The vertex the loops of [LoadSphereMesh] emit at [(lat, lon)]. *)
Definition sphere_vertex (sinf cosf : float -> float)
  (latitudeSegments longitudeSegments : Z) (radius : float) (lat lon : Z) : Vertex :=
  let sinTheta := sinf (theta latitudeSegments lat) in
  let cosTheta := cosf (theta latitudeSegments lat) in
  let sinPhi := sinf (phi longitudeSegments lon) in
  let cosPhi := cosf (phi longitudeSegments lon) in
  mkVertex
    (mkvec3 (mul (mul radius sinTheta) cosPhi) (mul radius cosTheta)
            (mul (mul radius sinTheta) sinPhi))
    (mkvec3 (mul sinTheta cosPhi) cosTheta (mul sinTheta sinPhi))
    (sub (of_int 1) (div (of_int lon) (of_int longitudeSegments)),
     sub (of_int 1) (div (of_int lat) (of_int latitudeSegments))).

(** The rows of a grid of vertices, [rows] by [columns]. *)
Definition grid (rows columns : Z) (f : Z -> Z -> Vertex) : list Vertex :=
  flat_map (fun i => map (f i) (Zseq 0 (Z.to_nat columns))) (Zseq 0 (Z.to_nat rows)).

(** ** The real number a float stands for *)

Definition B2R (f : float) : R :=
  match f with
  | S754_finite s m e => (IZR (cond_Zopp s (Zpos m)) * powerRZ 2 e)%R
  | _ => 0%R
  end.

(** The length of a vector of floats, in exact arithmetic. *)
Definition length3 (v : vec3) : R :=
  R_sqrt.sqrt (B2R (x v) * B2R (x v) + B2R (y v) * B2R (y v) + B2R (z v) * B2R (z v))%R.

(** What is asked of the C library at an angle: the two floats it returns
    for the sine and the cosine are finite, and the sum of their squares
    is within 2^-22 of 1. *)
Definition tolerance : R := (/ 4194304)%R.
Definition sin_cos_accurate (s c : float) : Prop :=
  is_finite s = true /\ is_finite c = true /\
  (Rabs (B2R s * B2R s + B2R c * B2R c - 1) <= tolerance)%R.

(** The bound on the length of a normal, 2^-20. *)
Definition epsilon : R := (/ 1048576)%R.

(** ** Rounding *)

(** The float of sign [sx], mantissa [m] and exponent [e]. *)
Definition make (sx : bool) (m e : Z) : float :=
  match m with
  | Z0 => S754_zero sx
  | Zpos p => S754_finite sx p e
  | Zneg _ => S754_nan
  end.

(** [mrs] is [m] shifted to the right by [k] bits: the bits that are left,
    the last bit shifted out and whether a bit shifted out before it was
    set. *)
Definition shifted (m k : Z) (mrs : shr_record) : Prop :=
  exists rem : Z,
    m = shr_m mrs * 2 ^ k + rem /\ 0 <= rem < 2 ^ k /\ 0 <= shr_m mrs /\
    (shr_r mrs = false -> shr_s mrs = false -> rem = 0) /\
    (shr_r mrs = false -> 2 * rem < 2 ^ k) /\
    (shr_r mrs = true -> 2 ^ k <= 2 * rem) /\
    (shr_r mrs = true -> shr_s mrs = false -> 2 * rem = 2 ^ k).

(** ** A C library to run the generator with *)

(** A finite float in units of 2^-149, the smallest positive float. *)
Definition in_units (f : float) : bool :=
  match f with
  | S754_zero _ => true
  | S754_finite _ _ e => -149 <=? e
  | _ => false
  end.
Definition units (f : float) : Z :=
  match f with
  | S754_finite s m e => cond_Zopp s (Zpos m) * 2 ^ (e + 149)
  | _ => 0
  end.

(** [sin_cos_accurate], decided on the integers. *)
Definition sin_cos_accurate_check (s c : float) : bool :=
  in_units s && in_units c
  && (Z.abs (units s * units s + units c * units c - 2 ^ 298) * 4194304 <=? 2 ^ 298).

(** The sine and the cosine of the thirteen angles [LoadSphereMesh(8, 8,
    radius)] computes, each rounded to the nearest float: angle, sine,
    cosine. *)
Definition sin_cos_table : list (float * (float * float)) :=
  [ (S754_zero false,
     (S754_zero false, S754_finite false 8388608 (-23)));
    (S754_finite false 13176795 (-25),
     (S754_finite false 12840726 (-25), S754_finite false 15500126 (-24)));
    (S754_finite false 13176795 (-24),
     (S754_finite false 11863283 (-24), S754_finite false 11863283 (-24)));
    (S754_finite false 9882596 (-23),
     (S754_finite false 15500126 (-24), S754_finite false 12840725 (-25)));
    (S754_finite false 13176795 (-23),
     (S754_finite false 8388608 (-23), S754_finite true 12303662 (-48)));
    (S754_finite false 16470993 (-23),
     (S754_finite false 15500127 (-24), S754_finite true 12840724 (-25)));
    (S754_finite false 9882596 (-22),
     (S754_finite false 11863283 (-24), S754_finite true 11863283 (-24)));
    (S754_finite false 11529695 (-22),
     (S754_finite false 12840727 (-25), S754_finite true 15500126 (-24)));
    (S754_finite false 13176795 (-22),
     (S754_finite true 12303662 (-47), S754_finite true 8388608 (-23)));
    (S754_finite false 16470993 (-22),
     (S754_finite true 11863282 (-24), S754_finite true 11863284 (-24)));
    (S754_finite false 9882596 (-21),
     (S754_finite true 8388608 (-23), S754_finite false 13426222 (-50)));
    (S754_finite false 11529695 (-21),
     (S754_finite true 11863285 (-24), S754_finite false 11863281 (-24)));
    (S754_finite false 13176795 (-21),
     (S754_finite false 12303662 (-46), S754_finite false 8388608 (-23))) ].

(** A library that knows the angles of the table and no other. *)
Definition table_lookup (angle : float) : float * float :=
  match find (fun row => eqb angle (fst row)) sin_cos_table with
  | Some row => snd row
  | None => (S754_nan, S754_nan)
  end.
Definition table_sinf (angle : float) : float := fst (table_lookup angle).
Definition table_cosf (angle : float) : float := snd (table_lookup angle).

End FloatMeshes.

(* ===================================================================== *)
(** * Loops and lists *)
(* ===================================================================== *)

Section Loops.

Import Cxx.
Local Open Scope Z_scope.

Lemma for_from_ext (S : Type) (body body' : Z -> S -> S) :
  (forall i s, body i s = body' i s) ->
  forall n i s, for_from n i body s = for_from n i body' s.
Proof.
  intros Hext n. induction n as [|n IH]; intros i s; simpl.
  - reflexivity.
  - rewrite Hext. apply IH.
Qed.

(** A loop whose body appends to a vector appends the pieces in order. *)
Lemma for_from_app (A : Type) (f : Z -> list A) :
  forall n i acc,
    for_from n i (fun i acc => acc ++ f i) acc = acc ++ flat_map f (Zseq i n).
Proof.
  intros n. induction n as [|n IH]; intros i acc; simpl.
  - now rewrite app_nil_r.
  - rewrite IH. now rewrite <- app_assoc.
Qed.

Lemma Zseq_length start n : List.length (Zseq start n) = n.
Proof.
  revert start. induction n as [|n IH]; intros start; simpl; [reflexivity|].
  now rewrite IH.
Qed.

Lemma Zseq_In k start n : In k (Zseq start n) <-> start <= k < start + Z.of_nat n.
Proof.
  revert start. induction n as [|n IH]; intros start.
  - simpl. lia.
  - cbn [Zseq In]. rewrite IH. lia.
Qed.

Lemma flat_map_length_const (A B : Type) (f : A -> list B) (c : nat) (l : list A) :
  (forall a, In a l -> List.length (f a) = c) ->
  List.length (flat_map f l) = (c * List.length l)%nat.
Proof.
  induction l as [|a l IH]; intros Hc; simpl.
  - lia.
  - rewrite length_app, Hc by (now left). rewrite IH by (intros; apply Hc; now right). lia.
Qed.

Lemma Forall_flat_map_intro (A B : Type) (P : B -> Prop) (f : A -> list B) (l : list A) :
  (forall a, In a l -> Forall P (f a)) -> Forall P (flat_map f l).
Proof.
  induction l as [|a l IH]; intros H; simpl.
  - constructor.
  - apply Forall_app. split; [apply H; now left | apply IH; intros; apply H; now right].
Qed.

End Loops.

(* ===================================================================== *)
(** * The meshes *)
(* ===================================================================== *)

Section Meshes.

Import Cxx ShapeMeshes.
Local Open Scope R_scope.

Lemma unpack_pack (v : Vertex) (rest : list GLfloat) :
  unpack (pack v ++ rest) = v :: unpack rest.
Proof.
  destruct v as [[px py pz] [nx ny nz] [u w]]. reflexivity.
Qed.

Lemma unpack_row (A : Type) (g : A -> Vertex) (l : list A) (rest : list GLfloat) :
  unpack (flat_map (fun a => pack (g a)) l ++ rest) = map g l ++ unpack rest.
Proof.
  induction l as [|a l IH]; cbn [flat_map map].
  - reflexivity.
  - rewrite <- app_assoc, unpack_pack. rewrite IH. reflexivity.
Qed.

Lemma unpack_grid (rows columns : Z) (f : Z -> Z -> Vertex) :
  unpack (flat_map (fun i => flat_map (fun j => pack (f i j)) (Zseq 0 (Z.to_nat columns)))
                   (Zseq 0 (Z.to_nat rows)))
  = grid rows columns f.
Proof.
  unfold grid. induction (Zseq 0 (Z.to_nat rows)) as [|i l IH]; cbn [flat_map].
  - reflexivity.
  - rewrite unpack_row. now rewrite IH.
Qed.

Lemma grid_flat_length (rows columns : Z) (f : Z -> Z -> Vertex) :
  (0 <= rows)%Z -> (0 <= columns)%Z ->
  size (flat_map (fun i => flat_map (fun j => pack (f i j)) (Zseq 0 (Z.to_nat columns)))
                 (Zseq 0 (Z.to_nat rows)))
  = (8 * (rows * columns))%Z.
Proof.
  intros Hr Hc. unfold size.
  rewrite (@flat_map_length_const _ _ _ (8 * Z.to_nat columns)%nat).
  - rewrite Zseq_length. lia.
  - intros i _. rewrite (@flat_map_length_const _ _ _ 8%nat).
    + now rewrite Zseq_length.
    + reflexivity.
Qed.

Lemma grid_length (rows columns : Z) (f : Z -> Z -> Vertex) :
  List.length (grid rows columns f) = (Z.to_nat rows * Z.to_nat columns)%nat.
Proof.
  unfold grid. rewrite (@flat_map_length_const _ _ _ (Z.to_nat columns)).
  - rewrite Zseq_length. lia.
  - intros i _. now rewrite length_map, Zseq_length.
Qed.

Lemma grid_Forall (P : Vertex -> Prop) (rows columns : Z) (f : Z -> Z -> Vertex) :
  (forall i j, (0 <= i < rows)%Z -> (0 <= j < columns)%Z -> P (f i j)) ->
  Forall P (grid rows columns f).
Proof.
  intros H. unfold grid. apply Forall_flat_map_intro. intros i Hi.
  apply Zseq_In in Hi. apply Forall_forall. intros v Hv.
  apply in_map_iff in Hv. destruct Hv as [j [<- Hj]]. apply Zseq_In in Hj.
  apply H; lia.
Qed.

(** ** The sphere *)

Lemma sphere_vertices_grid (latitudeSegments longitudeSegments : Z) (radius : GLfloat) :
  sphere_vertices latitudeSegments longitudeSegments radius
  = flat_map (fun lat =>
      flat_map (fun lon =>
        pack (sphere_vertex latitudeSegments longitudeSegments radius lat lon))
        (Zseq 0 (Z.to_nat (longitudeSegments + 1))))
      (Zseq 0 (Z.to_nat (latitudeSegments + 1))).
Proof.
  unfold sphere_vertices, for_le.
  erewrite for_from_ext.
  - rewrite for_from_app. reflexivity.
  - intros lat vertices. cbv zeta. rewrite for_from_app. reflexivity.
Qed.

Lemma sphere_nVertices (latitudeSegments longitudeSegments : Z) (radius : GLfloat) :
  (0 <= latitudeSegments)%Z -> (0 <= longitudeSegments)%Z ->
  ((latitudeSegments + 1) * (longitudeSegments + 1) <= INT_MAX)%Z ->
  nVertices (LoadSphereMesh latitudeSegments longitudeSegments radius)
  = ((latitudeSegments + 1) * (longitudeSegments + 1))%Z.
Proof.
  intros Hlat Hlon Hfit. unfold LoadSphereMesh. cbn [nVertices].
  rewrite sphere_vertices_grid, grid_flat_length by lia.
  rewrite Z.mul_comm, Z.div_mul by lia.
  unfold GLuint_of, INT_MAX in *. apply Z.mod_small. lia.
Qed.

(** ** The torus *)

Lemma torus_vertices_grid (mainRadius tubeRadius : GLfloat) (mainSegments tubeSegments : Z) :
  torus_vertices mainRadius tubeRadius mainSegments tubeSegments
  = flat_map (fun i =>
      flat_map (fun j =>
        pack (torus_vertex mainRadius tubeRadius mainSegments tubeSegments i j))
        (Zseq 0 (Z.to_nat (tubeSegments + 1))))
      (Zseq 0 (Z.to_nat (mainSegments + 1))).
Proof.
  unfold torus_vertices, for_le. cbv zeta.
  erewrite for_from_ext.
  - rewrite for_from_app. reflexivity.
  - intros i vertices. rewrite for_from_app. reflexivity.
Qed.

(** The six indices the loops of [LoadTorusMesh] emit at [(i, j)]. *)
Lemma torus_indices_quads (mainSegments tubeSegments : Z) :
  torus_indices mainSegments tubeSegments
  = flat_map (fun i =>
      flat_map (fun j =>
        let current := (i * (tubeSegments + 1) + j)%Z in
        let next := ((i + 1) * (tubeSegments + 1) + j)%Z in
        [GLuint_of current; GLuint_of next; GLuint_of (current + 1);
         GLuint_of (current + 1); GLuint_of next; GLuint_of (next + 1)])
        (Zseq 0 (Z.to_nat tubeSegments)))
      (Zseq 0 (Z.to_nat mainSegments)).
Proof.
  unfold torus_indices, for_lt.
  erewrite for_from_ext.
  - rewrite for_from_app. reflexivity.
  - intros i indices. cbv zeta. rewrite for_from_app. reflexivity.
Qed.

Lemma torus_indices_length (mainSegments tubeSegments : Z) :
  (0 <= mainSegments)%Z -> (0 <= tubeSegments)%Z ->
  size (torus_indices mainSegments tubeSegments) = (6 * mainSegments * tubeSegments)%Z.
Proof.
  intros Hm Ht. rewrite torus_indices_quads. unfold size.
  rewrite (@flat_map_length_const _ _ _ (6 * Z.to_nat tubeSegments)%nat).
  - rewrite Zseq_length. lia.
  - intros i _. rewrite (@flat_map_length_const _ _ _ 6%nat).
    + now rewrite Zseq_length.
    + reflexivity.
Qed.

Lemma torus_indices_bound (mainSegments tubeSegments : Z) :
  (0 <= mainSegments)%Z -> (0 <= tubeSegments)%Z ->
  ((mainSegments + 1) * (tubeSegments + 1) - 1 <= INT_MAX)%Z ->
  Forall (fun index => (0 <= index < (mainSegments + 1) * (tubeSegments + 1))%Z)
         (torus_indices mainSegments tubeSegments).
Proof.
  intros Hm Ht Hfit. rewrite torus_indices_quads.
  apply Forall_flat_map_intro. intros i Hi. apply Zseq_In in Hi.
  apply Forall_flat_map_intro. intros j Hj. apply Zseq_In in Hj.
  assert (Hcur : (0 <= i * (tubeSegments + 1) + j
                  /\ (i + 1) * (tubeSegments + 1) + j + 1
                     < (mainSegments + 1) * (tubeSegments + 1))%Z) by nia.
  assert (Hsmall : forall k : Z,
            (0 <= k < (mainSegments + 1) * (tubeSegments + 1))%Z ->
            (0 <= GLuint_of k < (mainSegments + 1) * (tubeSegments + 1))%Z).
  { intros k Hk. unfold GLuint_of. rewrite Z.mod_small; [exact Hk|].
    unfold INT_MAX in Hfit. lia. }
  cbv zeta. repeat constructor; apply Hsmall; nia.
Qed.






(** ** The box *)

Lemma vec3_eq (a b c a' b' c' : R) :
  a = a' -> b = b' -> c = c' -> mkvec3 a b c = mkvec3 a' b' c'.
Proof.
  intros -> -> ->. reflexivity.
Qed.

Lemma outward_axis_unit (side : BoxSide) : length3 (outward_axis side) = 1.
Proof.
  unfold length3, dot.
  destruct side; cbn [outward_axis x y z];
    match goal with |- sqrt ?e = 1 => replace e with 1 by ring end; apply sqrt_1.
Qed.

(** The four vertices of a side, read off the table. *)
Ltac box_side :=
  unfold side_vertices;
  match goal with
  | |- context [Z.to_nat ?z] =>
      let n := eval vm_compute in (Z.to_nat z) in change (Z.to_nat z) with n
  end;
  cbv [LoadBoxMesh vertexBuffer Box.verts unpack firstn skipn].

(** C5. The box mesh has 24 vertices, four for each of the six sides drawn
    by [DrawBoxMeshSide].  Every vertex of a side carries the unit vector
    of the axis that side faces and lies in the plane at distance 0.5 from
    the centre along it; the normal of a side and the centroid of its four
    vertices have a positive dot product. *)
Theorem box_normals_axis_aligned_and_outward :
  nVertices LoadBoxMesh = 24%Z /\
  unpack (vertexBuffer LoadBoxMesh)
  = flat_map side_vertices [back; bottom; left; right; top; front] /\
  forall side : BoxSide,
    List.length (side_vertices side) = 4%nat /\
    length3 (outward_axis side) = 1 /\
    Forall (fun v => normal v = outward_axis side
                     /\ dot (outward_axis side) (position v) = 0.5)
           (side_vertices side) /\
    dot (outward_axis side) (centroid (side_vertices side)) > 0.
Proof.
  split; [reflexivity|]. split; [reflexivity|].
  intros side. split; [destruct side; reflexivity|].
  split; [apply outward_axis_unit|].
  split.
  - destruct side; box_side;
      repeat (apply Forall_cons;
              [cbv [normal position outward_axis dot x y z];
               split; [apply vec3_eq; lra | lra]|]);
      apply Forall_nil.
  - destruct side; box_side; cbv [centroid fold_right List.length];
      cbv [position outward_axis dot x y z INR]; lra.
Qed.

(** ** The tapered cylinder *)

Lemma when_within (n : Z) (b : bool) (c : DrawCall) :
  within_buffer n c -> Forall (within_buffer n) (when b c).
Proof.
  intros H. destruct b; repeat constructor. exact H.
Qed.

(** C2, as the code has it.  The buffer holds 218 vertices: 36 for the
    bottom, 36 for the top, 146 for the sides.  Every draw call of
    [DrawTaperedCylinderMesh] stays inside the buffer, and the calls for
    the bottom and for the sides read the vertices of their part.  The call
    for the top, [glDrawArrays(GL_TRIANGLE_FAN, 36, 72)], reads 72
    vertices, 36 to 107: the 36 of the top and the first 36 of the sides.
    [DrawCylinderMesh] passes the number of vertices of the top instead. *)
Theorem tapered_cylinder_top_draw_overruns_its_part :
  nVertices LoadTaperedCylinderMesh = 218%Z /\
  (part_count Bottom, part_count Top, part_count Sides) = (36, 36, 146)%Z /\
  (forall bDrawTop bDrawBottom bDrawSides,
     Forall (within_buffer (nVertices LoadTaperedCylinderMesh))
            (DrawTaperedCylinderMesh bDrawTop bDrawBottom bDrawSides)) /\
  flat_map vertices_read (DrawTaperedCylinderMesh false true false) = part_vertices Bottom /\
  flat_map vertices_read (DrawTaperedCylinderMesh false false true) = part_vertices Sides /\
  DrawTaperedCylinderMesh true false false = [glDrawArrays GL_TRIANGLE_FAN 36 72] /\
  flat_map vertices_read (DrawTaperedCylinderMesh true false false)
  = part_vertices Top ++ Zseq 72 36 /\
  flat_map vertices_read (DrawTaperedCylinderMesh true false false) <> part_vertices Top /\
  incl (Zseq 72 36) (part_vertices Sides) /\
  (forall numSlices,
     DrawCylinderMesh numSlices true false false
     = [glDrawArrays GL_TRIANGLE_FAN (numSlices + 2) (numSlices + 2)]).
Proof.
  assert (Hn : nVertices LoadTaperedCylinderMesh = 218%Z) by reflexivity.
  repeat match goal with |- _ /\ _ => split end.
  - exact Hn.
  - reflexivity.
  - intros bDrawTop bDrawBottom bDrawSides. rewrite Hn. unfold DrawTaperedCylinderMesh.
    repeat (apply Forall_app; split); apply when_within; cbn [within_buffer]; lia.
  - reflexivity.
  - reflexivity.
  - reflexivity.
  - reflexivity.
  - intros H. apply (f_equal (@List.length Z)) in H. vm_compute in H. discriminate H.
  - intros k Hk. apply Zseq_In in Hk. apply Zseq_In.
    change (part_first Sides) with 72%Z. change (part_count Sides) with 146%Z. lia.
  - reflexivity.
Qed.

End Meshes.

(* ===================================================================== *)
(** * The lookups of the scene manager *)
(* ===================================================================== *)

Section Lookups.

Import Cxx SceneManager.
Local Open Scope Z_scope.

Lemma array_get_inside (A : Type) (a : list A) (i : Z) :
  0 <= i < Z.of_nat (List.length a) -> exists v, array_get a i = Normal v.
Proof.
  intros Hi. unfold array_get.
  replace ((0 <=? i) && (i <? Z.of_nat (List.length a))) with true
    by (symmetry; apply andb_true_iff; split; [apply Z.leb_le | apply Z.ltb_lt]; lia).
  destruct (nth_error a (Z.to_nat i)) as [v|] eqn:Hnth.
  - now exists v.
  - apply nth_error_None in Hnth. lia.
Qed.

Lemma array_get_nth (A : Type) (a : list A) (i : Z) (v : A) :
  array_get a i = Normal v -> 0 <= i /\ nth_error a (Z.to_nat i) = Some v.
Proof.
  unfold array_get. destruct (0 <=? i) eqn:H0; [|discriminate].
  destruct (i <? Z.of_nat (List.length a)); [|discriminate]. cbn [andb].
  destruct (nth_error a (Z.to_nat i)); [|discriminate].
  intros [= ->]. split; [now apply Z.leb_le | reflexivity].
Qed.

(** ** The loops, one round at a time *)

Lemma FindTextureSlot_loop_round (s : State) (tag : string) (textureSlot index : Z)
  (bFound : bool) :
  FindTextureSlot_loop s tag textureSlot index bFound
  = if (index <? m_loadedTextures s) && Bool.eqb bFound false then
      match array_get (m_textureIDs s) index with
      | Normal e =>
          if compare_is_0 (TEXTURE_INFO.tag e) tag
          then FindTextureSlot_loop s tag index index true
          else FindTextureSlot_loop s tag textureSlot (index + 1) bFound
      | OutOfBounds => OutOfBounds
      end
    else Normal textureSlot.
Proof.
  rewrite (FindTextureSlot_loop_equation_1 s tag textureSlot index bFound).
  rewrite FindTextureSlot_loop_clause_1_equation_1.
  destruct (Z_lt_dec index (m_loadedTextures s)) as [Hlt|Hge];
    [pose proof (proj2 (Z.ltb_lt _ _) Hlt) as Hb | pose proof (proj2 (Z.ltb_nlt _ _) Hge) as Hb];
    rewrite Hb.
  - destruct (bool_dec bFound false) as [->|Hnf].
    + rewrite FindTextureSlot_loop_clause_1_clause_1_equation_1. cbn [Bool.eqb andb].
      destruct (array_get (m_textureIDs s) index) as [e|].
      * rewrite FindTextureSlot_loop_clause_1_clause_1_clause_1_equation_1.
        destruct (compare_is_0 (TEXTURE_INFO.tag e) tag).
        -- now rewrite FindTextureSlot_loop_clause_1_clause_1_clause_1_clause_2_equation_1.
        -- now rewrite FindTextureSlot_loop_clause_1_clause_1_clause_1_clause_2_equation_2.
      * now rewrite FindTextureSlot_loop_clause_1_clause_1_clause_1_equation_2.
    + rewrite FindTextureSlot_loop_clause_1_clause_1_equation_2.
      destruct bFound; [reflexivity | contradiction].
  - now rewrite FindTextureSlot_loop_clause_1_clause_1_equation_3.
Qed.

Lemma FindTextureID_loop_round (s : State) (tag : string) (textureID index : Z)
  (bFound : bool) :
  FindTextureID_loop s tag textureID index bFound
  = if (index <? m_loadedTextures s) && Bool.eqb bFound false then
      match array_get (m_textureIDs s) index with
      | Normal e =>
          if compare_is_0 (TEXTURE_INFO.tag e) tag
          then FindTextureID_loop s tag (int_of_GLuint (TEXTURE_INFO.ID e)) index true
          else FindTextureID_loop s tag textureID (index + 1) bFound
      | OutOfBounds => OutOfBounds
      end
    else Normal textureID.
Proof.
  rewrite (FindTextureID_loop_equation_1 s tag textureID index bFound).
  rewrite FindTextureID_loop_clause_1_equation_1.
  destruct (Z_lt_dec index (m_loadedTextures s)) as [Hlt|Hge];
    [pose proof (proj2 (Z.ltb_lt _ _) Hlt) as Hb | pose proof (proj2 (Z.ltb_nlt _ _) Hge) as Hb];
    rewrite Hb.
  - destruct (bool_dec bFound false) as [->|Hnf].
    + rewrite FindTextureID_loop_clause_1_clause_1_equation_1. cbn [Bool.eqb andb].
      destruct (array_get (m_textureIDs s) index) as [e|].
      * rewrite FindTextureID_loop_clause_1_clause_1_clause_1_equation_1.
        destruct (compare_is_0 (TEXTURE_INFO.tag e) tag).
        -- now rewrite FindTextureID_loop_clause_1_clause_1_clause_1_clause_2_equation_1.
        -- now rewrite FindTextureID_loop_clause_1_clause_1_clause_1_clause_2_equation_2.
      * now rewrite FindTextureID_loop_clause_1_clause_1_clause_1_equation_2.
    + rewrite FindTextureID_loop_clause_1_clause_1_equation_2.
      destruct bFound; [reflexivity | contradiction].
  - now rewrite FindTextureID_loop_clause_1_clause_1_equation_3.
Qed.

Lemma FindMaterial_loop_round (materials : list OBJECT_MATERIAL.t) (tag : string)
  (material : OBJECT_MATERIAL.t) (index : Z) (bFound : bool) :
  FindMaterial_loop materials tag material index bFound
  = if (index <? Z.of_nat (List.length materials)) && Bool.eqb bFound false then
      match array_get materials index with
      | Normal m =>
          if compare_is_0 (OBJECT_MATERIAL.tag m) tag
          then FindMaterial_loop materials tag
                 (OBJECT_MATERIAL.mk (OBJECT_MATERIAL.diffuseColor m)
                                     (OBJECT_MATERIAL.specularColor m)
                                     (OBJECT_MATERIAL.shininess m)
                                     (OBJECT_MATERIAL.tag material))
                 index true
          else FindMaterial_loop materials tag material (index + 1) bFound
      | OutOfBounds => OutOfBounds
      end
    else Normal material.
Proof.
  rewrite (FindMaterial_loop_equation_1 materials tag material index bFound).
  rewrite FindMaterial_loop_clause_1_equation_1.
  destruct (Z_lt_dec index (Z.of_nat (List.length materials))) as [Hlt|Hge];
    [pose proof (proj2 (Z.ltb_lt _ _) Hlt) as Hb | pose proof (proj2 (Z.ltb_nlt _ _) Hge) as Hb];
    rewrite Hb.
  - destruct (bool_dec bFound false) as [->|Hnf].
    + rewrite FindMaterial_loop_clause_1_clause_1_equation_1. cbn [Bool.eqb andb].
      destruct (array_get materials index) as [e|].
      * rewrite FindMaterial_loop_clause_1_clause_1_clause_1_equation_1.
        destruct (compare_is_0 (OBJECT_MATERIAL.tag e) tag).
        -- now rewrite FindMaterial_loop_clause_1_clause_1_clause_1_clause_2_equation_1.
        -- now rewrite FindMaterial_loop_clause_1_clause_1_clause_1_clause_2_equation_2.
      * now rewrite FindMaterial_loop_clause_1_clause_1_clause_1_equation_2.
    + rewrite FindMaterial_loop_clause_1_clause_1_equation_2.
      destruct bFound; [reflexivity | contradiction].
  - now rewrite FindMaterial_loop_clause_1_clause_1_equation_3.
Qed.

Lemma loop_cond_found (index bound : Z) : (index <? bound) && Bool.eqb true false = false.
Proof.
  now rewrite andb_false_r.
Qed.

(** ** The texture registry *)

Lemma texture_loops_scan (s : State) (tag : string) :
  registry_ok s ->
  forall (n : nat) (index textureSlot textureID : Z),
    n = Z.to_nat (m_loadedTextures s - index) -> 0 <= index ->
    (no_match_from s tag index
     /\ FindTextureSlot_loop s tag textureSlot index false = Normal textureSlot
     /\ FindTextureID_loop s tag textureID index false = Normal textureID)
    \/ (exists k e,
          first_match_from s tag index k e
          /\ FindTextureSlot_loop s tag textureSlot index false = Normal k
          /\ FindTextureID_loop s tag textureID index false
             = Normal (int_of_GLuint (TEXTURE_INFO.ID e))).
Proof.
  intros [Hlen Hloaded] n.
  induction n as [|n IH]; intros index textureSlot textureID Hn Hindex;
    rewrite FindTextureSlot_loop_round, FindTextureID_loop_round.
  - left. destruct (Z.ltb_spec index (m_loadedTextures s)) as [Hlt|Hge]; [lia|].
    cbn [andb]. repeat split. intros i e Hi. lia.
  - destruct (Z.ltb_spec index (m_loadedTextures s)) as [Hlt|Hge]; [|lia].
    cbn [andb Bool.eqb].
    destruct (@array_get_inside _ (m_textureIDs s) index) as [e He].
    { rewrite Hlen. lia. }
    rewrite He. destruct (compare_is_0 (TEXTURE_INFO.tag e) tag) eqn:Htag.
    + right. exists index, e. split; [|split].
      * unfold first_match_from. split; [lia|]. split; [exact He|].
        split; [now apply String.eqb_eq|]. intros j e' Hj. lia.
      * rewrite FindTextureSlot_loop_round, loop_cond_found. reflexivity.
      * rewrite FindTextureID_loop_round, loop_cond_found. reflexivity.
    + apply String.eqb_neq in Htag.
      destruct (IH (index + 1) textureSlot textureID) as [[Hnone [Hs Hi]]|[k [e' [Hk [Hs Hi]]]]];
        try lia.
      * left. split; [|now split]. intros i e1 Hi1 He1.
        destruct (Z.eq_dec i index) as [->|Hne].
        -- rewrite He in He1. injection He1 as <-. exact Htag.
        -- apply (Hnone i e1); [lia | exact He1].
      * right. exists k, e'. split; [|now split].
        destruct Hk as [Hrange [Hget [Hktag Hbefore]]].
        unfold first_match_from. split; [lia|]. split; [exact Hget|].
        split; [exact Hktag|].
        intros j e1 Hj He1. destruct (Z.eq_dec j index) as [->|Hne].
        -- rewrite He in He1. injection He1 as <-. exact Htag.
        -- apply (Hbefore j e1); [lia | exact He1].
Qed.

(** C7. In a registry with its 16 entries and between 0 and 16 loaded
    textures, [FindTextureSlot] scans the loaded entries from index 0: it
    returns -1 when none carries the tag, and otherwise the index of the
    first one that does.  [FindTextureID] returns -1 in the first case and,
    in the second, the ID stored in that same entry (as the [int] it is
    converted to, which is the ID itself up to [INT_MAX]). *)
Theorem find_texture_first_match (tag : string) (s : State) :
  registry_ok s ->
  (no_match_from s tag 0
   /\ FindTextureSlot tag s = Normal (-1)
   /\ FindTextureID tag s = Normal (-1))
  \/ (exists k e,
        first_match_from s tag 0 k e
        /\ FindTextureSlot tag s = Normal k
        /\ FindTextureID tag s = Normal (int_of_GLuint (TEXTURE_INFO.ID e))
        /\ (0 <= TEXTURE_INFO.ID e <= INT_MAX ->
            FindTextureID tag s = Normal (TEXTURE_INFO.ID e))).
Proof.
  intros Hok. unfold FindTextureSlot, FindTextureID.
  destruct (@texture_loops_scan s tag Hok (Z.to_nat (m_loadedTextures s - 0)) 0 (-1) (-1))
    as [H|[k [e [Hk [Hs Hi]]]]]; try lia.
  - left. exact H.
  - right. exists k, e. split; [exact Hk|]. split; [exact Hs|]. split; [exact Hi|].
    intros Hsmall. rewrite Hi. unfold int_of_GLuint.
    destruct (Z.leb_spec (TEXTURE_INFO.ID e) INT_MAX); [reflexivity | lia].
Qed.

(** ** The material table *)

Lemma array_get_skipn (A : Type) (a : list A) (i : Z) (v : A) :
  array_get a i = Normal v ->
  skipn (Z.to_nat i) a = v :: skipn (Z.to_nat (i + 1)) a.
Proof.
  intros H. apply array_get_nth in H. destruct H as [Hi Hnth].
  replace (Z.to_nat (i + 1)) with (S (Z.to_nat i)) by lia.
  revert Hnth. generalize (Z.to_nat i) as n. clear Hi.
  induction a as [|h a IH]; intros n Hn.
  - destruct n; discriminate Hn.
  - destruct n as [|n].
    + injection Hn as ->. reflexivity.
    + cbn [skipn]. cbn [nth_error] in Hn. rewrite (IH n Hn). reflexivity.
Qed.

Lemma FindMaterial_loop_find (materials : list OBJECT_MATERIAL.t) (tag : string)
  (material : OBJECT_MATERIAL.t) :
  forall (n : nat) (index : Z),
    n = Z.to_nat (Z.of_nat (List.length materials) - index) -> 0 <= index ->
    FindMaterial_loop materials tag material index false
    = Normal match find (has_tag tag) (skipn (Z.to_nat index) materials) with
             | Some m => copy_colors m material
             | None => material
             end.
Proof.
  induction n as [|n IH]; intros index Hn Hindex; rewrite FindMaterial_loop_round.
  - destruct (Z.ltb_spec index (Z.of_nat (List.length materials))) as [Hlt|Hge]; [lia|].
    cbn [andb]. rewrite skipn_all2 by lia. reflexivity.
  - destruct (Z.ltb_spec index (Z.of_nat (List.length materials))) as [Hlt|Hge]; [|lia].
    cbn [andb Bool.eqb].
    destruct (@array_get_inside _ materials index) as [m Hm]; [lia|].
    rewrite Hm, (array_get_skipn _ _ Hm). cbn [find]. unfold has_tag at 1.
    destruct (compare_is_0 (OBJECT_MATERIAL.tag m) tag).
    + rewrite FindMaterial_loop_round, loop_cond_found. reflexivity.
    + apply IH; lia.
Qed.

(** C8. [FindMaterial] returns false exactly when the list of materials is
    empty, and then leaves the caller's material alone.  On a list that is
    not empty it returns true whatever the tag: when no material carries
    the tag the caller's material is unchanged, and otherwise it receives
    the colours and the shininess of the first material that does. *)
Theorem find_material_true_unless_empty (tag : string) (material : OBJECT_MATERIAL.t)
  (s : State) :
  exists (found : bool) (material' : OBJECT_MATERIAL.t),
    FindMaterial tag material s = Normal (found, material')
    /\ (found = false <-> m_objectMaterials s = [])
    /\ (found = false -> material' = material)
    /\ ((forall m, In m (m_objectMaterials s) -> OBJECT_MATERIAL.tag m <> tag) ->
        material' = material)
    /\ (forall m, find (has_tag tag) (m_objectMaterials s) = Some m ->
                  material' = copy_colors m material).
Proof.
  unfold FindMaterial. destruct (m_objectMaterials s) as [|m0 materials] eqn:Hmats.
  - exists false, material. cbn. repeat split; try reflexivity. intros m [=].
  - replace (Z.of_nat (List.length (m0 :: materials)) =? 0) with false
      by (symmetry; apply Z.eqb_neq; cbn [List.length]; lia).
    rewrite (@FindMaterial_loop_find (m0 :: materials) tag material
               (Z.to_nat (Z.of_nat (List.length (m0 :: materials)) - 0)) 0) by lia.
    cbn [bind Z.to_nat skipn].
    eexists true, _. split; [reflexivity|].
    split; [split; discriminate|]. split; [discriminate|]. split.
    + intros Hnone.
      destruct (find (has_tag tag) (m0 :: materials)) as [m|] eqn:Hfind; [|reflexivity].
      apply find_some in Hfind. destruct Hfind as [Hin Htag].
      apply String.eqb_eq in Htag. now apply Hnone in Hin.
    + intros m ->. reflexivity.
Qed.

End Lookups.

(** A registry with two textures loaded, searched for the second tag. *)
Lemma find_texture_first_match_witness :
  let s := SceneManager.mkState
             (SceneManager.TEXTURE_INFO.mk "floor" 1
              :: SceneManager.TEXTURE_INFO.mk "wallpaper" 2
              :: repeat (SceneManager.TEXTURE_INFO.mk "/0" (Cxx.GLuint_of (-1))) 14)
             2 [] [] [] in
  (SceneManager.no_match_from s "wallpaper" 0
   /\ SceneManager.FindTextureSlot "wallpaper" s = Cxx.Normal (-1)%Z
   /\ SceneManager.FindTextureID "wallpaper" s = Cxx.Normal (-1)%Z)
  \/ (exists k e,
        SceneManager.first_match_from s "wallpaper" 0 k e
        /\ SceneManager.FindTextureSlot "wallpaper" s = Cxx.Normal k
        /\ SceneManager.FindTextureID "wallpaper" s
           = Cxx.Normal (Cxx.int_of_GLuint (SceneManager.TEXTURE_INFO.ID e))
        /\ ((0 <= SceneManager.TEXTURE_INFO.ID e <= Cxx.INT_MAX)%Z ->
            SceneManager.FindTextureID "wallpaper" s
            = Cxx.Normal (SceneManager.TEXTURE_INFO.ID e))).
Proof.
  cbv zeta. apply find_texture_first_match.
  split; [reflexivity | cbn; lia].
Defined.

(** A table with one material, searched for a tag it does not hold. *)
Lemma find_material_true_unless_empty_witness :
  let zero := Ieee.of_int 0 in
  let black := Ieee.mkvec3 zero zero zero in
  let floor := SceneManager.OBJECT_MATERIAL.mk black black (Ieee.of_int 8) "floor" in
  let material := SceneManager.OBJECT_MATERIAL.mk black black zero "" in
  let s := SceneManager.mkState [] 0 [floor] [] [] in
  exists (found : bool) (material' : SceneManager.OBJECT_MATERIAL.t),
    SceneManager.FindMaterial "glass" material s = Cxx.Normal (found, material')
    /\ (found = false <-> SceneManager.m_objectMaterials s = [])
    /\ (found = false -> material' = material)
    /\ ((forall m, In m (SceneManager.m_objectMaterials s) ->
                   SceneManager.OBJECT_MATERIAL.tag m <> "glass"%string) ->
        material' = material)
    /\ (forall m, find (SceneManager.has_tag "glass") (SceneManager.m_objectMaterials s)
                  = Some m ->
                  material' = SceneManager.copy_colors m material).
Proof.
  cbv zeta. apply find_material_true_unless_empty.
Defined.

(* ===================================================================== *)
(** * Loading textures *)
(* ===================================================================== *)

Section Textures.

Import Cxx SceneManager.
Local Open Scope string_scope.
Local Open Scope Z_scope.
Local Open Scope list_scope.

Variable decode : string -> option Image.
Variable fresh_texture : list Call -> Z.

Lemma load_attempts_app (s : State) (cs : list Call) (a : list TEXTURE_INFO.t) (n : Z)
  (o : list Out) :
  load_attempts (mkState a n (m_objectMaterials s) o (calls s ++ cs))
  = (load_attempts s + List.length (filter is_stbi_load cs))%nat.
Proof.
  unfold load_attempts. cbn [calls]. now rewrite filter_app, length_app.
Qed.

(** [CreateGLTexture] when the file does not decode. *)
Lemma CreateGLTexture_undecodable (filename tag : string) (s : State) :
  decode filename = None ->
  CreateGLTexture decode fresh_texture filename tag s
  = Normal (false,
            mkState (m_textureIDs s) (m_loadedTextures s) (m_objectMaterials s)
                    (cout s ++ could_not_load filename)
                    (calls s ++ [stbi_set_flip_vertically_on_load true; stbi_load filename])).
Proof.
  intros Hdecode. unfold CreateGLTexture. rewrite Hdecode.
  destruct s as [ids n mats out cs].
  cbv [mbind call print ret m_textureIDs m_loadedTextures m_objectMaterials cout calls
       could_not_load].
  rewrite <- app_assoc. reflexivity.
Qed.

(** [CreateGLTexture] when the image has neither three nor four channels. *)
Lemma CreateGLTexture_unsupported (filename tag : string) (s : State) (image : Image) :
  decode filename = Some image ->
  colorChannels image <> 3 -> colorChannels image <> 4 ->
  CreateGLTexture decode fresh_texture filename tag s
  = Normal (false,
            mkState (m_textureIDs s) (m_loadedTextures s) (m_objectMaterials s)
                    (cout s ++ successfully_loaded filename image ++ not_implemented image)
                    (calls s ++ texture_setup filename (new_name fresh_texture filename s))).
Proof.
  intros Hdecode H3 H4. unfold CreateGLTexture. rewrite Hdecode.
  apply Z.eqb_neq in H3, H4. rewrite H3, H4.
  destruct s as [ids n mats out cs].
  cbv [mbind call print ret new_name m_textureIDs m_loadedTextures m_objectMaterials
       cout calls successfully_loaded not_implemented texture_setup].
  repeat rewrite <- app_assoc. reflexivity.
Qed.

(** The run of an accepted image, once the state is laid open. *)
Ltac registers :=
  cbv [mbind call print ret new_name write_texture get_loadedTextures set_loadedTextures
       bind m_textureIDs m_loadedTextures m_objectMaterials cout calls
       successfully_loaded texture_setup];
  repeat rewrite <- app_assoc; cbn [app];
  match goal with
  | |- context [array_set ?a ?i ?v] => destruct (array_set a i v)
  end;
  reflexivity.

(** [CreateGLTexture] when the image is accepted: the write to the array at
    index [m_loadedTextures] decides between the two outcomes. *)
Lemma CreateGLTexture_accepted (filename tag : string) (s : State) (image : Image) :
  decode filename = Some image ->
  loads decode filename = true ->
  CreateGLTexture decode fresh_texture filename tag s
  = match array_set (m_textureIDs s) (m_loadedTextures s)
            (TEXTURE_INFO.mk tag (new_name fresh_texture filename s)) with
    | Normal a =>
        Normal (true,
                mkState a (m_loadedTextures s + 1) (m_objectMaterials s)
                        (cout s ++ successfully_loaded filename image)
                        (calls s
                         ++ texture_calls filename image (new_name fresh_texture filename s)))
    | OutOfBounds => OutOfBounds
    end.
Proof.
  intros Hdecode Hloads. unfold loads in Hloads. rewrite Hdecode in Hloads.
  unfold CreateGLTexture, texture_calls, upload. rewrite Hdecode.
  destruct (colorChannels image =? 3) eqn:H3.
  - destruct s as [ids n mats out cs]. registers.
  - cbn [orb] in Hloads. rewrite Hloads.
    destruct s as [ids n mats out cs]. registers.
Qed.

(** C3. Whatever the file name, the tag and the state: when the file does
    not decode, or decodes to an image of neither three nor four channels,
    [CreateGLTexture] returns false; the array of textures, the counter of
    loaded textures and the materials are as before; a line naming the
    failure ends the output; and the file has been given to [stbi_load]
    once, with nothing attempted after the failure. *)
Theorem create_texture_failure_leaves_registry (filename tag : string) (s : State) :
  decode filename = None
  \/ (exists image, decode filename = Some image
                    /\ colorChannels image <> 3 /\ colorChannels image <> 4) ->
  exists s',
    CreateGLTexture decode fresh_texture filename tag s = Normal (false, s')
    /\ m_textureIDs s' = m_textureIDs s
    /\ m_loadedTextures s' = m_loadedTextures s
    /\ m_objectMaterials s' = m_objectMaterials s
    /\ load_attempts s' = (load_attempts s + 1)%nat
    /\ match decode filename with
       | None =>
           cout s' = (cout s ++ could_not_load filename)
           /\ calls s'
              = (calls s ++ [stbi_set_flip_vertically_on_load true; stbi_load filename])
       | Some image =>
           cout s'
           = (cout s ++ successfully_loaded filename image ++ not_implemented image)
           /\ calls s'
              = (calls s ++ texture_setup filename (new_name fresh_texture filename s))
       end.
Proof.
  intros [Hnone|[image0 [Hsome [H3 H4]]]];
    destruct (decode filename) as [image|] eqn:Hdecode; try discriminate.
  - rewrite (CreateGLTexture_undecodable tag s Hdecode).
    eexists. split; [reflexivity|]. cbn [m_textureIDs m_loadedTextures m_objectMaterials].
    repeat split. apply load_attempts_app.
  - injection Hsome as <-.
    rewrite (CreateGLTexture_unsupported tag s Hdecode H3 H4).
    eexists. split; [reflexivity|]. cbn [m_textureIDs m_loadedTextures m_objectMaterials].
    repeat split. apply load_attempts_app.
Qed.

(** ** Filling the registry *)

Lemma list_set_length (A : Type) (a : list A) (n : nat) (v : A) :
  List.length (list_set a n v) = List.length a.
Proof.
  revert n. induction a as [|h a IH]; intros [|n]; cbn; try reflexivity.
  now rewrite IH.
Qed.

Lemma list_set_same (A : Type) (a : list A) (n : nat) (v : A) :
  (n < List.length a)%nat -> nth_error (list_set a n v) n = Some v.
Proof.
  revert n. induction a as [|h a IH]; intros [|n] Hn; cbn in *; try lia.
  - reflexivity.
  - apply IH. lia.
Qed.

Lemma list_set_other (A : Type) (a : list A) (n m : nat) (v : A) :
  n <> m -> nth_error (list_set a n v) m = nth_error a m.
Proof.
  revert n m. induction a as [|h a IH]; intros [|n] [|m] Hne; cbn; try reflexivity.
  - contradiction.
  - apply IH. lia.
Qed.

Lemma array_set_inside (A : Type) (a : list A) (i : Z) (v : A) :
  0 <= i < Z.of_nat (List.length a) ->
  array_set a i v = Normal (list_set a (Z.to_nat i) v).
Proof.
  intros Hi. unfold array_set.
  destruct (Z.leb_spec 0 i); [|lia].
  destruct (Z.ltb_spec i (Z.of_nat (List.length a))); [|lia]. reflexivity.
Qed.

Lemma array_set_outside (A : Type) (a : list A) (i : Z) (v : A) :
  Z.of_nat (List.length a) <= i -> array_set a i v = OutOfBounds.
Proof.
  intros Hi. unfold array_set.
  destruct (Z.ltb_spec i (Z.of_nat (List.length a))); [lia|].
  now rewrite andb_false_r.
Qed.

Lemma loads_decodes (filename : string) :
  loads decode filename = true -> exists image, decode filename = Some image.
Proof.
  unfold loads. destruct (decode filename) as [image|]; [|discriminate].
  intros _. now exists image.
Qed.

Lemma texture_calls_one_load (filename : string) (image : Image) (name : Z) :
  List.length (filter is_stbi_load (texture_calls filename image name)) = 1%nat.
Proof.
  unfold texture_calls, upload. destruct (colorChannels image =? 3); reflexivity.
Qed.

(** A successful load with room left in the array. *)
Lemma CreateGLTexture_registers (filename tag : string) (s : State) :
  loads decode filename = true ->
  0 <= m_loadedTextures s < Z.of_nat (List.length (m_textureIDs s)) ->
  exists s',
    CreateGLTexture decode fresh_texture filename tag s = Normal (true, s')
    /\ m_textureIDs s'
       = list_set (m_textureIDs s) (Z.to_nat (m_loadedTextures s))
                  (TEXTURE_INFO.mk tag (new_name fresh_texture filename s))
    /\ m_loadedTextures s' = m_loadedTextures s + 1
    /\ load_attempts s' = (load_attempts s + 1)%nat.
Proof.
  intros Hloads Hroom. destruct (loads_decodes _ Hloads) as [image Hdecode].
  rewrite (CreateGLTexture_accepted tag s Hdecode Hloads).
  rewrite array_set_inside by exact Hroom.
  eexists. split; [reflexivity|]. cbn [m_textureIDs m_loadedTextures].
  repeat split. rewrite load_attempts_app, texture_calls_one_load. reflexivity.
Qed.

(** A successful load with the array full. *)
Lemma CreateGLTexture_overflows (filename tag : string) (s : State) :
  loads decode filename = true ->
  Z.of_nat (List.length (m_textureIDs s)) <= m_loadedTextures s ->
  CreateGLTexture decode fresh_texture filename tag s = OutOfBounds.
Proof.
  intros Hloads Hfull. destruct (loads_decodes _ Hloads) as [image Hdecode].
  rewrite (CreateGLTexture_accepted tag s Hdecode Hloads).
  now rewrite array_set_outside.
Qed.

(** A failed load, in the terms of [loads]. *)
Lemma CreateGLTexture_rejects (filename tag : string) (s : State) :
  loads decode filename = false ->
  exists s',
    CreateGLTexture decode fresh_texture filename tag s = Normal (false, s')
    /\ m_textureIDs s' = m_textureIDs s
    /\ m_loadedTextures s' = m_loadedTextures s
    /\ load_attempts s' = (load_attempts s + 1)%nat.
Proof.
  intros Hfail. unfold loads in Hfail.
  destruct (decode filename) as [image|] eqn:Hdecode.
  - apply orb_false_iff in Hfail. destruct Hfail as [H3 H4].
    apply Z.eqb_neq in H3, H4.
    rewrite (CreateGLTexture_unsupported tag s Hdecode H3 H4).
    eexists. split; [reflexivity|]. repeat split. apply load_attempts_app.
  - rewrite (CreateGLTexture_undecodable tag s Hdecode).
    eexists. split; [reflexivity|]. repeat split. apply load_attempts_app.
Qed.

Lemma create_all_counts (l : list (string * string)) :
  forall s : State,
    0 <= m_loadedTextures s ->
    m_loadedTextures s + Z.of_nat (List.length l) <= Z.of_nat (List.length (m_textureIDs s)) ->
    exists s',
      (forall k, create_all decode fresh_texture l k s = k s')
      /\ List.length (m_textureIDs s') = List.length (m_textureIDs s)
      /\ m_loadedTextures s' = m_loadedTextures s + Z.of_nat (successes decode l)
      /\ load_attempts s' = (load_attempts s + List.length l)%nat.
Proof.
  induction l as [|[filename tag] l IH]; intros s Hpos Hroom.
  - exists s. unfold successes. cbn. repeat split; lia.
  - cbn [List.length] in Hroom.
    assert (Hlen : (successes decode ((filename, tag) :: l)
                    = (if loads decode filename then 1 else 0) + successes decode l)%nat).
    { unfold successes. cbn [filter fst]. destruct (loads decode filename); reflexivity. }
    destruct (loads decode filename) eqn:Hloads.
    + destruct (@CreateGLTexture_registers filename tag s Hloads) as [s1 [Hrun [Hids [Hn Hat]]]];
        [lia|].
      destruct (IH s1) as [s' [Hk [Hl [Hc Ha]]]].
      * lia.
      * rewrite Hids, list_set_length. lia.
      * exists s'. split; [|split; [|split]].
        -- intros k. cbn [create_all]. unfold mbind at 1. rewrite Hrun. apply Hk.
        -- rewrite Hl, Hids. apply list_set_length.
        -- lia.
        -- cbn [List.length]. lia.
    + destruct (@CreateGLTexture_rejects filename tag s Hloads) as [s1 [Hrun [Hids [Hn Hat]]]].
      destruct (IH s1) as [s' [Hk [Hl [Hc Ha]]]].
      * lia.
      * rewrite Hids. lia.
      * exists s'. split; [|split; [|split]].
        -- intros k. cbn [create_all]. unfold mbind at 1. rewrite Hrun. apply Hk.
        -- now rewrite Hl, Hids.
        -- lia.
        -- cbn [List.length]. lia.
Qed.

Lemma bind_loop_reads_loaded (s : State) :
  forall (n : nat) (i : Z) (cs : list Call),
    0 <= i -> i + Z.of_nat n <= Z.of_nat (List.length (m_textureIDs s)) ->
    filter is_stbi_load cs = [] ->
    exists cs',
      for_from_M n i
        (fun i => mbind (call (glActiveTexture i))
                    (fun _ => mbind (read_texture i)
                                (fun e => call (glBindTexture (TEXTURE_INFO.ID e)))))
        (mkState (m_textureIDs s) (m_loadedTextures s) (m_objectMaterials s) (cout s)
                 (calls s ++ cs))
      = Normal (tt, mkState (m_textureIDs s) (m_loadedTextures s) (m_objectMaterials s)
                            (cout s) (calls s ++ cs'))
      /\ filter is_stbi_load cs' = [].
Proof.
  induction n as [|n IH]; intros i cs Hi Hroom Hcs.
  - exists cs. split; [reflexivity | exact Hcs].
  - destruct (@array_get_inside _ (m_textureIDs s) i) as [e He]; [lia|].
    destruct (IH (i + 1) (cs ++ [glActiveTexture i; glBindTexture (TEXTURE_INFO.ID e)]))
      as [cs' [Hrun Hcs']]; try lia.
    { rewrite filter_app, Hcs. reflexivity. }
    exists cs'. split; [|exact Hcs'].
    cbn [for_from_M]. unfold mbind at 1 2 3, call at 1 2, read_texture at 1.
    cbn [m_textureIDs m_loadedTextures m_objectMaterials cout calls].
    rewrite He. cbn [bind m_textureIDs m_loadedTextures m_objectMaterials cout calls].
    rewrite <- Hrun. repeat rewrite <- app_assoc. reflexivity.
Qed.

Lemma BindGLTextures_keeps_registry (s : State) :
  0 <= m_loadedTextures s <= Z.of_nat (List.length (m_textureIDs s)) ->
  exists s',
    BindGLTextures s = Normal (tt, s')
    /\ m_textureIDs s' = m_textureIDs s
    /\ m_loadedTextures s' = m_loadedTextures s
    /\ load_attempts s' = load_attempts s.
Proof.
  intros Hloaded. unfold BindGLTextures, mbind at 1, get_loadedTextures.
  destruct (@bind_loop_reads_loaded s (Z.to_nat (m_loadedTextures s)) 0 [])
    as [cs' [Hrun Hcs']]; try lia; [reflexivity|].
  rewrite app_nil_r in Hrun. destruct s as [ids n mats out cs]. cbn in *.
  rewrite Hrun. eexists. split; [reflexivity|]. cbn. repeat split.
  unfold load_attempts. cbn. now rewrite filter_app, Hcs', app_nil_r.
Qed.

Lemma LoadSceneTextures_create_all :
  LoadSceneTextures decode fresh_texture
  = create_all decode fresh_texture scene_textures BindGLTextures.
Proof.
  reflexivity.
Qed.

Lemma constructed_loaded : m_loadedTextures SceneManager = 0.
Proof.
  reflexivity.
Qed.

Lemma constructed_slots : List.length (m_textureIDs SceneManager) = TEXTURE_SLOTS.
Proof.
  reflexivity.
Qed.

Lemma scene_textures_length : List.length scene_textures = 16%nat.
Proof.
  reflexivity.
Qed.

(** C10. [CreateGLTexture] stores the entry at index [m_loadedTextures]
    whatever that index is.  With fewer than 16 textures loaded a
    successful load writes inside the array, at that index, and adds one to
    the counter; with 16 loaded it writes outside.  From the state the
    constructor leaves, any 16 calls or fewer leave the counter at the
    number of loads that succeeded.  [LoadSceneTextures] makes 16 calls;
    when all succeed the counter is 16, the size of the array, and a
    further successful load writes outside the array. *)
Theorem registry_filled_to_capacity_without_bounds_check :
  (forall filename tag s,
     loads decode filename = true ->
     List.length (m_textureIDs s) = TEXTURE_SLOTS ->
     0 <= m_loadedTextures s < 16 ->
     exists s',
       CreateGLTexture decode fresh_texture filename tag s = Normal (true, s')
       /\ List.length (m_textureIDs s') = TEXTURE_SLOTS
       /\ array_get (m_textureIDs s') (m_loadedTextures s)
          = Normal (TEXTURE_INFO.mk tag (new_name fresh_texture filename s))
       /\ (forall i, i <> m_loadedTextures s -> 0 <= i ->
                     array_get (m_textureIDs s') i = array_get (m_textureIDs s) i)
       /\ m_loadedTextures s' = m_loadedTextures s + 1) /\
  (forall filename tag s,
     loads decode filename = true ->
     List.length (m_textureIDs s) = TEXTURE_SLOTS ->
     16 <= m_loadedTextures s ->
     CreateGLTexture decode fresh_texture filename tag s = OutOfBounds) /\
  (forall l : list (string * string),
     (List.length l <= 16)%nat ->
     exists s',
       create_all decode fresh_texture l (ret tt) SceneManager = Normal (tt, s')
       /\ load_attempts s' = List.length l
       /\ m_loadedTextures s' = Z.of_nat (successes decode l)) /\
  List.length scene_textures = 16%nat /\
  exists s',
    LoadSceneTextures decode fresh_texture SceneManager = Normal (tt, s')
    /\ load_attempts s' = 16%nat
    /\ List.length (m_textureIDs s') = TEXTURE_SLOTS
    /\ m_loadedTextures s' = Z.of_nat (successes decode scene_textures)
    /\ ((forall p, In p scene_textures -> loads decode (fst p) = true) ->
        m_loadedTextures s' = 16
        /\ forall filename tag,
             loads decode filename = true ->
             CreateGLTexture decode fresh_texture filename tag s' = OutOfBounds).
Proof.
  split; [|split; [|split; [|split]]].
  - intros filename tag s Hloads Hlen Hroom.
    destruct (@CreateGLTexture_registers filename tag s Hloads) as [s' [Hrun [Hids [Hn _]]]].
    { rewrite Hlen. unfold TEXTURE_SLOTS. lia. }
    exists s'. split; [exact Hrun|]. rewrite Hids, list_set_length.
    split; [exact Hlen|]. split; [|split; [|exact Hn]].
    + unfold array_get. rewrite list_set_length, Hlen.
      destruct (Z.leb_spec 0 (m_loadedTextures s)); [|lia].
      destruct (Z.ltb_spec (m_loadedTextures s) (Z.of_nat TEXTURE_SLOTS));
        [|unfold TEXTURE_SLOTS in *; lia].
      cbn [andb]. rewrite list_set_same; [reflexivity|]. rewrite Hlen.
      unfold TEXTURE_SLOTS. lia.
    + intros i Hne Hi. unfold array_get. rewrite list_set_length.
      rewrite list_set_other by lia. reflexivity.
  - intros filename tag s Hloads Hlen Hfull.
    apply CreateGLTexture_overflows; [exact Hloads|].
    rewrite Hlen. unfold TEXTURE_SLOTS. lia.
  - intros l Hl.
    destruct (@create_all_counts l SceneManager) as [s' [Hk [_ [Hc Ha]]]].
    + rewrite constructed_loaded. lia.
    + rewrite constructed_loaded, constructed_slots. unfold TEXTURE_SLOTS. lia.
    + exists s'. rewrite Hk. split; [reflexivity|]. split.
      * rewrite Ha. reflexivity.
      * rewrite Hc, constructed_loaded. lia.
  - exact scene_textures_length.
  - rewrite LoadSceneTextures_create_all.
    destruct (@create_all_counts scene_textures SceneManager) as [s1 [Hk [Hl [Hc Ha]]]].
    + rewrite constructed_loaded. lia.
    + rewrite constructed_loaded, constructed_slots, scene_textures_length.
      unfold TEXTURE_SLOTS. lia.
    + rewrite Hk. rewrite constructed_slots in Hl. rewrite constructed_loaded in Hc.
      rewrite scene_textures_length in Ha.
      assert (Hbound : (successes decode scene_textures <= 16)%nat).
      { unfold successes. rewrite <- scene_textures_length. apply filter_length_le. }
      destruct (@BindGLTextures_keeps_registry s1) as [s' [Hrun [Hids [Hn Hat]]]].
      { rewrite Hl, Hc. unfold TEXTURE_SLOTS. lia. }
      exists s'. split; [exact Hrun|]. rewrite Hat, Hids, Hn, Hl, Hc, Ha.
      split; [reflexivity|]. split; [reflexivity|]. split; [lia|].
      intros Hall.
      assert (Hsucc : successes decode scene_textures = 16%nat).
      { unfold successes. rewrite forallb_filter_id.
        - exact scene_textures_length.
        - apply forallb_forall. exact Hall. }
      split; [rewrite Hsucc; lia|].
      intros filename tag Hloads. apply CreateGLTexture_overflows; [exact Hloads|].
      rewrite Hids, Hl, Hn, Hc, Hsucc. unfold TEXTURE_SLOTS. lia.
Qed.

End Textures.

(** A file that does not decode, loaded into the fresh scene manager. *)
Lemma create_texture_failure_leaves_registry_witness :
  let decode := fun _ : string => @None SceneManager.Image in
  let fresh_texture := fun _ : list SceneManager.Call => 1%Z in
  let s := SceneManager.SceneManager in
  exists s',
    SceneManager.CreateGLTexture decode fresh_texture "textures/floor.png" "floor" s
    = Cxx.Normal (false, s')
    /\ SceneManager.m_textureIDs s' = SceneManager.m_textureIDs s
    /\ SceneManager.m_loadedTextures s' = SceneManager.m_loadedTextures s
    /\ SceneManager.m_objectMaterials s' = SceneManager.m_objectMaterials s
    /\ SceneManager.load_attempts s' = (SceneManager.load_attempts s + 1)%nat
    /\ match decode "textures/floor.png"%string with
       | None =>
           SceneManager.cout s'
           = SceneManager.cout s ++ SceneManager.could_not_load "textures/floor.png"
           /\ SceneManager.calls s'
              = SceneManager.calls s
                ++ [SceneManager.stbi_set_flip_vertically_on_load true;
                    SceneManager.stbi_load "textures/floor.png"]
       | Some image =>
           SceneManager.cout s'
           = SceneManager.cout s
             ++ SceneManager.successfully_loaded "textures/floor.png" image
             ++ SceneManager.not_implemented image
           /\ SceneManager.calls s'
              = SceneManager.calls s
                ++ SceneManager.texture_setup "textures/floor.png"
                     (SceneManager.new_name fresh_texture "textures/floor.png" s)
       end.
Proof.
  cbv zeta.
  apply (create_texture_failure_leaves_registry
           (fun _ : string => @None SceneManager.Image)
           (fun _ : list SceneManager.Call => 1%Z)
           "textures/floor.png" "floor" SceneManager.SceneManager).
  left. reflexivity.
Defined.

(** A first successful load into the fresh scene manager. *)
Lemma registry_filled_to_capacity_witness :
  let decode := fun _ : string => Some (SceneManager.mkImage 64 64 4) in
  let fresh_texture := fun cs : list SceneManager.Call => Z.of_nat (List.length cs) in
  let s := SceneManager.SceneManager in
  exists s',
    SceneManager.CreateGLTexture decode fresh_texture "textures/floor.png" "floor" s
    = Cxx.Normal (true, s')
    /\ List.length (SceneManager.m_textureIDs s') = SceneManager.TEXTURE_SLOTS
    /\ Cxx.array_get (SceneManager.m_textureIDs s') (SceneManager.m_loadedTextures s)
       = Cxx.Normal (SceneManager.TEXTURE_INFO.mk "floor"
                       (SceneManager.new_name fresh_texture "textures/floor.png" s))
    /\ (forall i, i <> SceneManager.m_loadedTextures s -> (0 <= i)%Z ->
                  Cxx.array_get (SceneManager.m_textureIDs s') i
                  = Cxx.array_get (SceneManager.m_textureIDs s) i)
    /\ SceneManager.m_loadedTextures s' = (SceneManager.m_loadedTextures s + 1)%Z.
Proof.
  cbv zeta.
  apply (proj1 (registry_filled_to_capacity_without_bounds_check
                  (fun _ : string => Some (SceneManager.mkImage 64 64 4))
                  (fun cs : list SceneManager.Call => Z.of_nat (List.length cs))));
    [reflexivity | reflexivity | cbn; lia].
Defined.

(* ===================================================================== *)
(** * Floats that are not NaN *)
(* ===================================================================== *)

Section Floats.

Import Ieee.
Local Open Scope Z_scope.

Lemma SFcompare_antisym (a b : spec_float) (c : comparison) :
  SFcompare a b = Some c -> SFcompare b a = Some (CompOpp c).
Proof.
  destruct a as [sa|sa| |sa ma ea], b as [sb|sb| |sb mb eb]; cbn;
    try discriminate; try (intros [= <-]; try destruct sa; try destruct sb; reflexivity).
  intros [= <-]. f_equal. rewrite (Z.compare_antisym ea eb).
  destruct sa, sb; cbn; try reflexivity;
    destruct (ea ?= eb); cbn; try reflexivity;
    rewrite (Pos.compare_cont_antisym ma mb Eq); reflexivity.
Qed.

Lemma SFcompare_defined (a b : spec_float) :
  is_nan a = false -> is_nan b = false -> exists c, SFcompare a b = Some c.
Proof.
  destruct a, b; cbn; try discriminate; intros _ _; eexists; reflexivity.
Qed.

(** Among floats that are not NaN, [!(a < b)] is [b <= a]. *)
Lemma not_ltb_leb (a b : float) :
  is_nan a = false -> is_nan b = false -> ltb a b = false -> leb b a = true.
Proof.
  intros Ha Hb. destruct (SFcompare_defined a b Ha Hb) as [c Hc].
  unfold ltb, leb, SFltb, SFleb. rewrite Hc, (SFcompare_antisym _ _ Hc).
  destruct c; cbn; congruence.
Qed.

Lemma ltb_not_nan (a b : float) : ltb a b = true -> is_nan a = false /\ is_nan b = false.
Proof.
  unfold ltb, SFltb. destruct a, b; cbn; try discriminate; auto.
Qed.

(** ** Rounding never yields a NaN *)

Lemma shr_1_nonneg (mrs : shr_record) : 0 <= shr_m mrs -> 0 <= shr_m (shr_1 mrs).
Proof.
  destruct mrs as [m r s]. cbn [shr_m]. intros Hm.
  destruct m as [|p|p]; [| destruct p | lia]; cbn; lia.
Qed.

Lemma iter_shr_1_nonneg (p : positive) :
  forall mrs, 0 <= shr_m mrs -> 0 <= shr_m (iter_pos shr_1 p mrs).
Proof.
  induction p as [p IH|p IH|]; intros mrs Hm; cbn [iter_pos].
  - apply IH, IH, shr_1_nonneg, Hm.
  - apply IH, IH, Hm.
  - apply shr_1_nonneg, Hm.
Qed.

Lemma shr_fexp_nonneg (p e m ex : Z) (l : location) :
  0 <= m -> 0 <= shr_m (fst (shr_fexp p e m ex l)).
Proof.
  intros Hm. unfold shr_fexp, shr.
  assert (H0 : 0 <= shr_m (shr_record_of_loc m l)).
  { destruct l as [|[ | | ]]; exact Hm. }
  destruct (fexp p e (Zdigits2 m + ex) - ex) as [|q|q]; cbn [fst]; try exact H0.
  apply iter_shr_1_nonneg, H0.
Qed.

Lemma round_nearest_even_nonneg (m : Z) (l : location) :
  0 <= m -> 0 <= round_nearest_even m l.
Proof.
  intros Hm. unfold round_nearest_even.
  destruct l as [|[ | | ]]; try destruct (Z.even m); lia.
Qed.

Lemma binary_round_aux_not_nan (p e : Z) (sx : bool) (m ex : Z) (l : location) :
  0 <= m -> is_nan (binary_round_aux p e sx m ex l) = false.
Proof.
  intros Hm. unfold binary_round_aux.
  pose proof (@shr_fexp_nonneg p e m ex l Hm) as H1.
  destruct (shr_fexp p e m ex l) as [mrs' e']. cbn [fst] in H1.
  pose proof (@shr_fexp_nonneg p e
                (round_nearest_even (shr_m mrs') (loc_of_shr_record mrs')) e' loc_Exact
                (round_nearest_even_nonneg _ H1)) as H2.
  destruct (shr_fexp p e (round_nearest_even (shr_m mrs') (loc_of_shr_record mrs')) e'
              loc_Exact) as [mrs'' e'']. cbn [fst] in H2.
  destruct (shr_m mrs'') as [|q|q]; [reflexivity | | lia].
  destruct (e'' <=? e - p); reflexivity.
Qed.

Lemma binary_normalize_not_nan (p e m ex : Z) (szero : bool) :
  is_nan (binary_normalize p e m ex szero) = false.
Proof.
  unfold binary_normalize, binary_round.
  destruct m as [|q|q]; [reflexivity | |];
    match goal with
    | |- context [shl_align ?a ?b ?c] => destruct (shl_align a b c) as [mz ez]
    end;
    apply binary_round_aux_not_nan; lia.
Qed.

Lemma mul_not_nan (a b : float) :
  is_finite a = true -> is_finite b = true -> is_nan (mul a b) = false.
Proof.
  destruct a, b; cbn; try discriminate; intros _ _; try reflexivity.
  apply binary_round_aux_not_nan. lia.
Qed.

Lemma add_not_nan (a b : float) :
  is_finite a = true -> is_nan b = false -> is_nan (add a b) = false.
Proof.
  destruct a as [sa| | |sa ma ea], b as [sb|sb| |sb mb eb]; cbn;
    try discriminate; intros _ _; try reflexivity.
  - destruct sa, sb; reflexivity.
  - apply binary_normalize_not_nan.
Qed.

End Floats.

(* ===================================================================== *)
(** * The camera *)
(* ===================================================================== *)

Section CameraFacts.

Import Ieee Camera.

Variables sinf cosf : float -> float.

Lemma updateCameraVectors_Pitch (c : t) : Pitch (updateCameraVectors sinf cosf c) = Pitch c.
Proof.
  reflexivity.
Qed.

Lemma ProcessMouseMovement_MouseSensitivity (xoffset yoffset : float) (b : bool) (c : t) :
  MouseSensitivity (ProcessMouseMovement sinf cosf xoffset yoffset b c) = MouseSensitivity c.
Proof.
  unfold ProcessMouseMovement. cbv zeta. destruct b;
    repeat match goal with |- context [if ?t then _ else _] => destruct t end; reflexivity.
Qed.

(** The two tests on the pitch, on a pitch that is not NaN. *)
Lemma constrain_not_nan (p : float) :
  is_nan p = false ->
  let p1 := if ltb (of_int 89) p then of_int 89 else p in
  let p2 := if ltb p1 (of_int (-89)) then of_int (-89) else p1 in
  leb (of_int (-89)) p2 = true /\ leb p2 (of_int 89) = true.
Proof.
  intros Hp. cbv zeta.
  destruct (ltb (of_int 89) p) eqn:Hhigh.
  - split; reflexivity.
  - pose proof (@not_ltb_leb (of_int 89) p eq_refl Hp Hhigh) as Hle.
    destruct (ltb p (of_int (-89))) eqn:Hlow.
    + split; reflexivity.
    + split; [|exact Hle]. apply not_ltb_leb; [exact Hp | reflexivity | exact Hlow].
Qed.

Lemma ProcessMouseMovement_Pitch (xoffset yoffset : float) (c : t) :
  Pitch (ProcessMouseMovement sinf cosf xoffset yoffset true c)
  = let p := updated_pitch yoffset c in
    let p1 := if ltb (of_int 89) p then of_int 89 else p in
    if ltb p1 (of_int (-89)) then of_int (-89) else p1.
Proof.
  unfold ProcessMouseMovement, updated_pitch. rewrite updateCameraVectors_Pitch.
  cbv zeta. cbn [Pitch set_Pitch set_Yaw MouseSensitivity].
  destruct (ltb (of_int 89) (add (Pitch c) (mul yoffset (MouseSensitivity c))));
    cbn [Pitch set_Pitch set_Yaw];
    match goal with |- context [if ?t then _ else _] => destruct t end; reflexivity.
Qed.

Lemma pitch_constrained_finite (c : t) : pitch_constrained c -> is_finite (Pitch c) = true.
Proof.
  intros [Hlow Hhigh]. destruct (Pitch c) as [s|[|]| |s m e]; try reflexivity;
    cbn in Hlow, Hhigh; discriminate.
Qed.

Lemma constrained_after_finite_movement (xoffset yoffset : float) (c : t) :
  is_finite (Pitch c) = true -> is_finite (MouseSensitivity c) = true ->
  is_finite yoffset = true ->
  pitch_constrained (ProcessMouseMovement sinf cosf xoffset yoffset true c).
Proof.
  intros Hp Hs Hy. unfold pitch_constrained. rewrite ProcessMouseMovement_Pitch.
  apply constrain_not_nan. unfold updated_pitch.
  apply add_not_nan; [exact Hp|]. apply mul_not_nan; assumption.
Qed.

(** C9, as the code has it.  After [ProcessMouseMovement] with
    [constrainPitch] true the pitch lies between -89 and 89 whenever the
    updated pitch [Pitch + yoffset * MouseSensitivity] is not NaN; that is
    so whenever the pitch, the sensitivity and the offset are finite.  A
    constrained pitch stays constrained through every sequence of
    movements with finite vertical offsets. *)
Theorem pitch_constrained_unless_nan :
  (forall c xoffset yoffset,
     is_nan (updated_pitch yoffset c) = false ->
     pitch_constrained (ProcessMouseMovement sinf cosf xoffset yoffset true c)) /\
  (forall c xoffset yoffset,
     is_finite (Pitch c) = true -> is_finite (MouseSensitivity c) = true ->
     is_finite yoffset = true ->
     pitch_constrained (ProcessMouseMovement sinf cosf xoffset yoffset true c)) /\
  (forall movements c,
     is_finite (MouseSensitivity c) = true ->
     Forall (fun m => is_finite (snd m) = true) movements ->
     pitch_constrained c ->
     pitch_constrained (process_movements sinf cosf movements c)).
Proof.
  split; [|split].
  - intros c xoffset yoffset Hnan. unfold pitch_constrained.
    rewrite ProcessMouseMovement_Pitch. apply constrain_not_nan, Hnan.
  - intros c xoffset yoffset. apply constrained_after_finite_movement.
  - intros movements. unfold process_movements.
    induction movements as [|[xoffset yoffset] movements IH]; intros c Hs Hall Hc.
    + exact Hc.
    + cbn [fold_left fst snd]. inversion Hall as [|m l Hy Hrest]; subst.
      apply IH.
      * now rewrite ProcessMouseMovement_MouseSensitivity.
      * exact Hrest.
      * apply constrained_after_finite_movement;
          [now apply pitch_constrained_finite | exact Hs | exact Hy].
Qed.

End CameraFacts.

(** A vertical offset that is NaN leaves the pitch NaN, outside the
    interval. *)
Lemma pitch_not_constrained_on_nan :
  let sinf := fun a : Ieee.float => a in
  let cosf := fun a : Ieee.float => a in
  let c := Camera.Camera_default sinf cosf in
  let c' := Camera.ProcessMouseMovement sinf cosf (Ieee.of_int 0) S754_nan true c in
  Camera.Pitch c = Ieee.of_int 0
  /\ Ieee.is_nan (Camera.Pitch c') = true
  /\ Ieee.leb (Ieee.of_int (-89)) (Camera.Pitch c') = false
  /\ Ieee.leb (Camera.Pitch c') (Ieee.of_int 89) = false
  /\ ~ Camera.pitch_constrained c'.
Proof.
  cbv zeta. repeat split; try (vm_compute; reflexivity).
  intros [H _]. vm_compute in H. discriminate H.
Qed.

(** A large finite vertical offset on the default camera. *)
Lemma pitch_constrained_unless_nan_witness :
  let sinf := fun a : Ieee.float => a in
  let cosf := fun a : Ieee.float => a in
  Camera.pitch_constrained
    (Camera.ProcessMouseMovement sinf cosf (Ieee.of_int 3) (Ieee.of_int 1000) true
       (Camera.Camera_default sinf cosf)).
Proof.
  cbv zeta.
  apply (proj1 (proj2 (pitch_constrained_unless_nan
                         (fun a : Ieee.float => a) (fun a : Ieee.float => a))));
    vm_compute; reflexivity.
Defined.

(* ===================================================================== *)
(** * The projection mode *)
(* ===================================================================== *)

Section Projection.

Import Ieee ViewManager.

Variables sinf cosf : float -> float.

(** A field that the actions of the keys preserve is preserved by the
    polling. *)
Lemma if_pressed_keeps (A : Type) (field : State -> A) (pressed : Key -> bool) (key : Key)
  (action : State -> State) (s : State) :
  (forall s, field (action s) = field s) ->
  field (if_pressed pressed key action s) = field s.
Proof.
  intros Hkeep. unfold if_pressed. destruct (pressed key); [apply Hkeep | reflexivity].
Qed.

Lemma if_pressed_sets (pressed : Key -> bool) (key : Key) (action : State -> State)
  (b : bool) (s : State) :
  (forall s, bOrthographicProjection (action s) = b) ->
  bOrthographicProjection (if_pressed pressed key action s)
  = if pressed key then b else bOrthographicProjection s.
Proof.
  intros Hset. unfold if_pressed. destruct (pressed key); [apply Hset | reflexivity].
Qed.

Lemma ProcessKeyboardEvents_mode (pressed : Key -> bool) (s : State) :
  bOrthographicProjection (ProcessKeyboardEvents pressed s)
  = mode_after_keys pressed (bOrthographicProjection s).
Proof.
  unfold ProcessKeyboardEvents, mode_after_keys. cbv zeta.
  rewrite (@if_pressed_sets pressed GLFW_KEY_P _ false) by reflexivity.
  rewrite (@if_pressed_sets pressed GLFW_KEY_U _ true) by reflexivity.
  rewrite (@if_pressed_sets pressed GLFW_KEY_I _ true) by reflexivity.
  rewrite (@if_pressed_sets pressed GLFW_KEY_O _ true) by reflexivity.
  do 7 rewrite (@if_pressed_keeps _ bOrthographicProjection) by reflexivity.
  destruct (pressed GLFW_KEY_P), (pressed GLFW_KEY_O), (pressed GLFW_KEY_I),
    (pressed GLFW_KEY_U); reflexivity.
Qed.

Lemma ProcessKeyboardEvents_m_pShaderManager (pressed : Key -> bool) (s : State) :
  m_pShaderManager (ProcessKeyboardEvents pressed s) = m_pShaderManager s.
Proof.
  unfold ProcessKeyboardEvents. cbv zeta.
  do 11 rewrite (@if_pressed_keeps _ m_pShaderManager) by reflexivity. reflexivity.
Qed.

Lemma ProcessKeyboardEvents_uniforms (pressed : Key -> bool) (s : State) :
  uniforms (ProcessKeyboardEvents pressed s) = uniforms s.
Proof.
  unfold ProcessKeyboardEvents. cbv zeta.
  do 11 rewrite (@if_pressed_keeps _ uniforms) by reflexivity. reflexivity.
Qed.

Lemma projection_of_mode (s : State) :
  is_ortho (projection_of s) = bOrthographicProjection s.
Proof.
  unfold projection_of. destruct (bOrthographicProjection s); reflexivity.
Qed.

Lemma PrepareSceneView_mode (glfwGetTime : double) (pressed : Key -> bool) (s : State) :
  bOrthographicProjection (PrepareSceneView glfwGetTime pressed s)
  = mode_after_keys pressed (bOrthographicProjection s).
Proof.
  unfold PrepareSceneView. cbv zeta.
  destruct (m_pShaderManager _); cbn [send bOrthographicProjection];
    now rewrite ProcessKeyboardEvents_mode.
Qed.

Lemma PrepareSceneView_uniforms (glfwGetTime : double) (pressed : Key -> bool) (s : State) :
  m_pShaderManager s = true ->
  uniforms (PrepareSceneView glfwGetTime pressed s)
  = uniforms s
    ++ [setMat4Value_view g_ViewName
          (Camera.GetViewMatrix (g_pCamera (polled glfwGetTime pressed s)));
        setMat4Value_projection g_ProjectionName
          (projection_of (polled glfwGetTime pressed s));
        setVec3Value "viewPosition"
          (Camera.Position (g_pCamera (polled glfwGetTime pressed s)))].
Proof.
  intros Hshader. unfold PrepareSceneView. cbv zeta. fold (polled glfwGetTime pressed s).
  assert (Hm : m_pShaderManager (polled glfwGetTime pressed s) = true).
  { unfold polled. now rewrite ProcessKeyboardEvents_m_pShaderManager. }
  rewrite Hm. cbn [send uniforms g_pCamera].
  unfold polled at 1. rewrite ProcessKeyboardEvents_uniforms. cbn [set_frame uniforms].
  repeat rewrite <- app_assoc. reflexivity.
Qed.

Lemma handle_mode (e : Event) (s : State) :
  bOrthographicProjection (handle sinf cosf e s)
  = match e with
    | Frame _ pressed => mode_after_keys pressed (bOrthographicProjection s)
    | _ => bOrthographicProjection s
    end.
Proof.
  destruct e as [button action mods|width height|xOffset yOffset|xMousePos yMousePos
                 |time pressed]; cbn [handle].
  - unfold Mouse_Button_Callback.
    repeat match goal with |- context [if ?t then _ else _] => destruct t end; reflexivity.
  - reflexivity.
  - reflexivity.
  - unfold Mouse_Position_Callback. destruct (gFirstMouse s); reflexivity.
  - apply PrepareSceneView_mode.
Qed.

(** C6. [bOrthographicProjection] is false after the constructor.  Polling
    the keyboard sets it from the keys: true when O, I or U is pressed,
    false when P is pressed, the test of P coming last; with none of the
    four pressed it keeps its value.  The mouse and resize callbacks and
    the creation of the window leave it alone, so over any run of events it
    changes in frames only.  In every frame [PrepareSceneView] builds
    [glm::ortho] exactly when the flag, as the polling of that frame left
    it, is true, and [glm::perspective] exactly when it is false; that
    projection is the one sent to the shader. *)
Theorem projection_mode_machine :
  (forall pShaderManager,
     bOrthographicProjection (ViewManager sinf cosf pShaderManager) = false) /\
  (forall pressed s,
     bOrthographicProjection (ProcessKeyboardEvents pressed s)
     = if pressed GLFW_KEY_P then false
       else if pressed GLFW_KEY_O || pressed GLFW_KEY_I || pressed GLFW_KEY_U then true
       else bOrthographicProjection s) /\
  (forall e s,
     bOrthographicProjection (handle sinf cosf e s)
     = match e with
       | Frame _ pressed => mode_after_keys pressed (bOrthographicProjection s)
       | _ => bOrthographicProjection s
       end) /\
  (forall events s,
     bOrthographicProjection (run sinf cosf events s)
     = mode_after events (bOrthographicProjection s)) /\
  (forall created s,
     bOrthographicProjection (CreateDisplayWindow created s) = bOrthographicProjection s) /\
  (forall glfwGetTime pressed s,
     let s' := PrepareSceneView glfwGetTime pressed s in
     let projection := projection_of (polled glfwGetTime pressed s) in
     bOrthographicProjection s' = bOrthographicProjection (polled glfwGetTime pressed s)
     /\ (bOrthographicProjection s' = true <->
         exists l r b t n f, projection = glm_ortho l r b t n f)
     /\ (bOrthographicProjection s' = false <->
         exists fovy aspect n f, projection = glm_perspective fovy aspect n f)
     /\ (m_pShaderManager s = true ->
         In (setMat4Value_projection g_ProjectionName projection) (uniforms s'))).
Proof.
  split; [reflexivity|]. split; [apply ProcessKeyboardEvents_mode|].
  split; [apply handle_mode|]. split; [|split].
  - intros events. unfold run, mode_after.
    induction events as [|e events IH]; intros s; cbn [fold_left].
    + reflexivity.
    + rewrite IH, handle_mode. reflexivity.
  - intros [|] s; reflexivity.
  - intros glfwGetTime pressed s. cbv zeta.
    assert (Hmode : bOrthographicProjection (PrepareSceneView glfwGetTime pressed s)
                    = bOrthographicProjection (polled glfwGetTime pressed s)).
    { rewrite PrepareSceneView_mode. unfold polled.
      now rewrite ProcessKeyboardEvents_mode. }
    split; [exact Hmode|]. rewrite Hmode.
    rewrite <- (projection_of_mode (polled glfwGetTime pressed s)).
    split; [|split].
    + destruct (projection_of (polled glfwGetTime pressed s)); cbn [is_ortho]; split.
      * discriminate.
      * intros (l & r & b & t & n & f & H). discriminate H.
      * intros _. repeat eexists.
      * reflexivity.
    + destruct (projection_of (polled glfwGetTime pressed s)); cbn [is_ortho]; split.
      * intros _. repeat eexists.
      * reflexivity.
      * discriminate.
      * intros (fovy & aspect & n & f & H). discriminate H.
    + intros Hshader. rewrite PrepareSceneView_uniforms by exact Hshader.
      apply in_or_app. right. right. left. reflexivity.
Qed.

End Projection.

(** A first frame with the O key down and a shader manager at hand. *)
Lemma projection_mode_machine_witness :
  let sinf := fun a : Ieee.float => a in
  let cosf := fun a : Ieee.float => a in
  let pressed := fun k : ViewManager.Key =>
                   match k with ViewManager.GLFW_KEY_O => true | _ => false end in
  let s := ViewManager.ViewManager sinf cosf true in
  let s' := ViewManager.PrepareSceneView (Ieee.of_int 1) pressed s in
  let projection := ViewManager.projection_of (ViewManager.polled (Ieee.of_int 1) pressed s) in
  ViewManager.bOrthographicProjection s'
  = ViewManager.bOrthographicProjection (ViewManager.polled (Ieee.of_int 1) pressed s)
  /\ ViewManager.bOrthographicProjection s' = true
  /\ In (ViewManager.setMat4Value_projection ViewManager.g_ProjectionName projection)
        (ViewManager.uniforms s').
Proof.
  cbv zeta.
  pose proof (proj2 (proj2 (proj2 (proj2
    (proj2 (projection_mode_machine (fun a : Ieee.float => a) (fun a : Ieee.float => a))))))) as H.
  specialize (H (Ieee.of_int 1)
                (fun k : ViewManager.Key =>
                   match k with ViewManager.GLFW_KEY_O => true | _ => false end)
                (ViewManager.ViewManager (fun a => a) (fun a => a) true)).
  cbv zeta in H. destruct H as [Hmode [_ [_ Hsent]]].
  split; [exact Hmode|]. split; [reflexivity|]. apply Hsent. reflexivity.
Defined.

(* ===================================================================== *)
(** * The cylinder and the cone *)
(* ===================================================================== *)

Section Solids.

Import Cxx ShapeMeshes.
Local Open Scope R_scope.

Lemma unpack_packs (vs : list Vertex) (rest : list GLfloat) :
  unpack (flat_map pack vs ++ rest) = vs ++ unpack rest.
Proof.
  induction vs as [|v vs IH]; cbn [flat_map app].
  - reflexivity.
  - rewrite <- app_assoc, unpack_pack. now rewrite IH.
Qed.

Lemma size_app (A : Type) (l l' : list A) : size (l ++ l') = (size l + size l')%Z.
Proof.
  unfold size. rewrite length_app. lia.
Qed.

Lemma size_flat_map (B : Type) (f : Z -> list B) (c : nat) (start : Z) (n : nat) :
  (forall a, List.length (f a) = c) ->
  size (flat_map f (Zseq start n)) = (Z.of_nat c * Z.of_nat n)%Z.
Proof.
  intros Hc. unfold size. rewrite (@flat_map_length_const _ _ _ c).
  - rewrite Zseq_length. lia.
  - intros a _. apply Hc.
Qed.

Lemma Zseq_app (start : Z) (n m : nat) :
  Zseq start (n + m) = Zseq start n ++ Zseq (start + Z.of_nat n) m.
Proof.
  revert start. induction n as [|n IH]; intros start.
  - cbn [Zseq app Nat.add]. f_equal. lia.
  - cbn [Zseq app Nat.add]. rewrite IH. do 3 f_equal. lia.
Qed.

Lemma GLsizei_of_small (n : Z) : (0 <= n <= INT_MAX)%Z -> GLsizei_of n = n.
Proof.
  unfold GLsizei_of, int_of_GLuint, GLuint_of, INT_MAX. intros Hn.
  rewrite Z.mod_small by lia.
  destruct (Z.leb_spec n 2147483647); lia.
Qed.

Lemma clamp_slices (numSlices : Z) :
  (if (numSlices <? 3)%Z then 3%Z else numSlices) = Z.max 3 numSlices.
Proof.
  destruct (Z.ltb_spec numSlices 3); lia.
Qed.

(** The buffer of the cylinder: the bottom fan, the top fan, the side strip. *)
Lemma cylinder_vertices_parts (radius height : GLfloat) (numSlices : Z) :
  cylinder_vertices radius height numSlices
  = flat_map pack (cap_centre 0.0 (-1.0)
                   :: map (cap_vertex radius 0.0 (-1.0) numSlices)
                          (Zseq 0 (Z.to_nat (numSlices + 1))))
    ++ flat_map pack (cap_centre height 1.0
                      :: map (cap_vertex radius height 1.0 numSlices)
                             (Zseq 0 (Z.to_nat (numSlices + 1))))
    ++ flat_map (fun i => flat_map pack (cylinder_side_pair radius height numSlices i))
                (Zseq 0 (Z.to_nat (numSlices + 1))).
Proof.
  unfold cylinder_vertices, for_le. cbv zeta.
  rewrite (for_from_ext _
             (fun i vertices =>
                vertices ++ flat_map pack (cylinder_side_pair radius height numSlices i)))
    by (intros i s; rewrite <- app_assoc; reflexivity).
  rewrite !for_from_app. cbn [app flat_map].
  rewrite !flat_map_concat_map, !map_map, <- !flat_map_concat_map.
  rewrite <- !app_assoc. reflexivity.
Qed.

Lemma cone_vertices_parts (radius height : GLfloat) (numSlices : Z) :
  cone_vertices radius height numSlices
  = flat_map pack (cap_centre 0.0 (-1.0)
                   :: map (cap_vertex radius 0.0 (-1.0) numSlices)
                          (Zseq 0 (Z.to_nat (numSlices + 1))))
    ++ flat_map (fun i => flat_map pack (cone_side_pair radius height numSlices i))
                (Zseq 0 (Z.to_nat (numSlices + 1))).
Proof.
  unfold cone_vertices, for_le. cbv zeta.
  rewrite (for_from_ext _
             (fun i vertices =>
                vertices ++ flat_map pack (cone_side_pair radius height numSlices i)))
    by (intros i s; rewrite <- app_assoc; reflexivity).
  rewrite !for_from_app. cbn [app flat_map].
  rewrite !flat_map_concat_map, !map_map, <- !flat_map_concat_map.
  rewrite <- !app_assoc. reflexivity.
Qed.

Lemma cap_size (A : Type) (c : A) (f : Z -> A) (n : Z) :
  (0 <= n)%Z -> size (c :: map f (Zseq 0 (Z.to_nat (n + 1)))) = (n + 2)%Z.
Proof.
  intros Hn. unfold size. cbn [List.length]. rewrite length_map, Zseq_length. lia.
Qed.

Lemma pairs_size (f : Z -> list Vertex) (n : Z) :
  (0 <= n)%Z -> (forall i, List.length (f i) = 2%nat) ->
  size (flat_map f (Zseq 0 (Z.to_nat (n + 1)))) = ((n + 1) * 2)%Z.
Proof.
  intros Hn Hf. rewrite (@size_flat_map _ _ 2) by exact Hf. lia.
Qed.

Lemma packed_size (vs : list Vertex) : size (flat_map pack vs) = (8 * size vs)%Z.
Proof.
  unfold size. rewrite (@flat_map_length_const _ _ _ 8%nat) by reflexivity. lia.
Qed.

Lemma unpack_packed (vs : list Vertex) : unpack (flat_map pack vs) = vs.
Proof.
  rewrite <- (app_nil_r (flat_map pack vs)), unpack_packs. apply app_nil_r.
Qed.

Lemma flat_map_pack_app (vs ws : list Vertex) :
  flat_map pack (vs ++ ws) = flat_map pack vs ++ flat_map pack ws.
Proof.
  apply flat_map_app.
Qed.

Lemma flat_map_pack_rows (A : Type) (g : A -> list Vertex) (l : list A) :
  flat_map (fun a => flat_map pack (g a)) l = flat_map pack (flat_map g l).
Proof.
  induction l as [|a l IH]; cbn [flat_map].
  - reflexivity.
  - rewrite flat_map_app. now rewrite IH.
Qed.

Lemma Zseq_to_nat_app (start a b : Z) :
  (0 <= a)%Z -> (0 <= b)%Z ->
  Zseq start (Z.to_nat (a + b)) = Zseq start (Z.to_nat a) ++ Zseq (start + a) (Z.to_nat b).
Proof.
  intros Ha Hb. rewrite Z2Nat.inj_add, Zseq_app by lia.
  rewrite Z2Nat.id by lia. reflexivity.
Qed.

(** X1. [LoadCylinderMesh] raises [numSlices] to at least 3 and stores it.
    For a number of slices n whose 4n+6 vertices can be counted in an
    [int], the buffer holds, in this order, the n+2 vertices of the bottom
    fan (the centre and n+1 rim vertices, all with the normal (0,-1,0)),
    the n+2 vertices of the top fan (normal (0,1,0)) and the 2(n+1)
    vertices of the side strip, and [nVertices] is 4n+6.  The three draw
    calls of [DrawCylinderMesh] on the stored number of slices read every
    vertex of the buffer exactly once, in order, and whatever the flags, no
    call leaves the buffer. *)
Theorem cylinder_draws_tile_the_buffer (radius height : GLfloat) (numSlices : Z) :
  (4 * Z.max 3 numSlices + 6 <= INT_MAX)%Z ->
  let mesh := fst (LoadCylinderMesh radius height numSlices) in
  let n := snd (LoadCylinderMesh radius height numSlices) in
  let bottom := cap_centre 0.0 (-1.0)
                :: map (cap_vertex radius 0.0 (-1.0) n) (Zseq 0 (Z.to_nat (n + 1))) in
  let top := cap_centre height 1.0
             :: map (cap_vertex radius height 1.0 n) (Zseq 0 (Z.to_nat (n + 1))) in
  let sides := flat_map (cylinder_side_pair radius height n) (Zseq 0 (Z.to_nat (n + 1))) in
  n = Z.max 3 numSlices /\
  unpack (vertexBuffer mesh) = bottom ++ top ++ sides /\
  size bottom = (n + 2)%Z /\ size top = (n + 2)%Z /\ size sides = ((n + 1) * 2)%Z /\
  size (vertexBuffer mesh) = (8 * (4 * n + 6))%Z /\
  nVertices mesh = (4 * n + 6)%Z /\
  all_vertices_read (DrawCylinderMesh n true true true)
  = Zseq 0 (Z.to_nat (nVertices mesh)) /\
  (forall bDrawTop bDrawBottom bDrawSides,
     Forall (within_buffer (nVertices mesh))
            (DrawCylinderMesh n bDrawTop bDrawBottom bDrawSides)).
Proof.
  intros Hfit mesh n bottom top sides.
  assert (Hn : n = Z.max 3 numSlices) by (subst n; cbn [LoadCylinderMesh snd]; apply clamp_slices).
  assert (H3 : (3 <= n)%Z) by lia.
  assert (Hbuf : vertexBuffer mesh = flat_map pack (bottom ++ top ++ sides)).
  { subst mesh bottom top sides n. cbn [LoadCylinderMesh fst snd vertexBuffer].
    rewrite cylinder_vertices_parts, !flat_map_pack_app, flat_map_pack_rows. reflexivity. }
  assert (Hb : size bottom = (n + 2)%Z) by (apply cap_size; lia).
  assert (Ht : size top = (n + 2)%Z) by (apply cap_size; lia).
  assert (Hs : size sides = ((n + 1) * 2)%Z) by (apply pairs_size; [lia | reflexivity]).
  assert (Hsize : size (vertexBuffer mesh) = (8 * (4 * n + 6))%Z).
  { rewrite Hbuf, packed_size, !size_app, Hb, Ht, Hs. lia. }
  assert (Hcount : nVertices mesh = (4 * n + 6)%Z).
  { replace (nVertices mesh)
      with (GLsizei_of (size (vertexBuffer mesh)
                        / (FloatsPerVertex + FloatsPerNormal + FloatsPerUV)))
      by reflexivity.
    rewrite Hsize. change (FloatsPerVertex + FloatsPerNormal + FloatsPerUV)%Z with 8%Z.
    rewrite Z.mul_comm, Z.div_mul by lia. apply GLsizei_of_small. lia. }
  repeat match goal with |- _ /\ _ => split end; try assumption.
  - rewrite Hbuf. apply unpack_packed.
  - rewrite Hcount. unfold all_vertices_read, DrawCylinderMesh. cbv zeta.
    cbn [when app flat_map vertices_read]. rewrite app_nil_r.
    replace (4 * n + 6)%Z with ((n + 2) + ((n + 2) + (n + 1) * 2))%Z by lia.
    rewrite (Zseq_to_nat_app 0 (a := n + 2)) by lia.
    rewrite (Zseq_to_nat_app (0 + (n + 2)) (a := n + 2)) by lia.
    rewrite !Z.add_0_l. reflexivity.
  - intros bDrawTop bDrawBottom bDrawSides. rewrite Hcount. unfold DrawCylinderMesh.
    repeat (apply Forall_app; split); apply when_within; cbn [within_buffer]; lia.
Qed.

(** A cylinder of 20 slices, radius 1 and height 1. *)
Lemma cylinder_draws_tile_the_buffer_witness :
  let mesh := fst (LoadCylinderMesh 1 1 20) in
  let n := snd (LoadCylinderMesh 1 1 20) in
  let bottom := cap_centre 0.0 (-1.0)
                :: map (cap_vertex 1 0.0 (-1.0) n) (Zseq 0 (Z.to_nat (n + 1))) in
  let top := cap_centre 1 1.0
             :: map (cap_vertex 1 1 1.0 n) (Zseq 0 (Z.to_nat (n + 1))) in
  let sides := flat_map (cylinder_side_pair 1 1 n) (Zseq 0 (Z.to_nat (n + 1))) in
  n = Z.max 3 20 /\
  unpack (vertexBuffer mesh) = bottom ++ top ++ sides /\
  size bottom = (n + 2)%Z /\ size top = (n + 2)%Z /\ size sides = ((n + 1) * 2)%Z /\
  size (vertexBuffer mesh) = (8 * (4 * n + 6))%Z /\
  nVertices mesh = (4 * n + 6)%Z /\
  all_vertices_read (DrawCylinderMesh n true true true)
  = Zseq 0 (Z.to_nat (nVertices mesh)) /\
  (forall bDrawTop bDrawBottom bDrawSides,
     Forall (within_buffer (nVertices mesh))
            (DrawCylinderMesh n bDrawTop bDrawBottom bDrawSides)).
Proof.
  apply (@cylinder_draws_tile_the_buffer 1 1 20). unfold INT_MAX. simpl. lia.
Defined.

(** X2. [LoadConeMesh] raises [numSlices] to at least 3 and stores it.
    For a number of slices n whose 3n+4 vertices can be counted in an
    [int], the buffer holds the n+2 vertices of the bottom fan and then
    n+1 pairs of a rim vertex and the apex, one pair for each of the steps
    0..n of the loop; [nVertices] is 3n+4.  [DrawConeMesh] stays inside
    the buffer, but its strip is given 2n vertices, not 2(n+1): with the
    bottom drawn it reads the vertices 0..3n+1, and with either flag it
    never reads the last pair, the vertices 3n+2 and 3n+3 emitted at step
    n, which would close the side.  [DrawConeMeshLines] reads the same
    vertices. *)
Theorem cone_draw_leaves_the_closing_pair (radius height : GLfloat) (numSlices : Z) :
  (3 * Z.max 3 numSlices + 4 <= INT_MAX)%Z ->
  let mesh := fst (LoadConeMesh radius height numSlices) in
  let n := snd (LoadConeMesh radius height numSlices) in
  let bottom := cap_centre 0.0 (-1.0)
                :: map (cap_vertex radius 0.0 (-1.0) n) (Zseq 0 (Z.to_nat (n + 1))) in
  let open_side := flat_map (cone_side_pair radius height n) (Zseq 0 (Z.to_nat n)) in
  let closing := cone_side_pair radius height n n in
  n = Z.max 3 numSlices /\
  unpack (vertexBuffer mesh) = bottom ++ open_side ++ closing /\
  size bottom = (n + 2)%Z /\ size open_side = (n * 2)%Z /\ size closing = 2%Z /\
  nVertices mesh = (3 * n + 4)%Z /\
  (forall bDrawBottom,
     Forall (within_buffer (nVertices mesh)) (DrawConeMesh n bDrawBottom)) /\
  all_vertices_read (DrawConeMesh n true) = Zseq 0 (Z.to_nat (3 * n + 2)) /\
  all_vertices_read (DrawConeMesh n false) = Zseq (n + 2) (Z.to_nat (n * 2)) /\
  (forall bDrawBottom k,
     In k (all_vertices_read (DrawConeMesh n bDrawBottom)) -> (k < 3 * n + 2)%Z) /\
  (forall bDrawBottom,
     all_vertices_read (DrawConeMeshLines n bDrawBottom)
     = all_vertices_read (DrawConeMesh n bDrawBottom)).
Proof.
  intros Hfit mesh n bottom open_side closing.
  assert (Hn : n = Z.max 3 numSlices) by (subst n; cbn [LoadConeMesh snd]; apply clamp_slices).
  assert (H3 : (3 <= n)%Z) by lia.
  assert (Hbuf : vertexBuffer mesh = flat_map pack (bottom ++ open_side ++ closing)).
  { subst mesh bottom open_side closing. cbn [LoadConeMesh fst snd vertexBuffer].
    unfold n at 1 2 3 4 5 6. cbn [LoadConeMesh snd].
    rewrite clamp_slices. fold n in Hn. rewrite <- Hn.
    rewrite cone_vertices_parts, !flat_map_pack_app, flat_map_pack_rows.
    do 2 f_equal.
    rewrite <- flat_map_pack_app. f_equal.
    rewrite (Zseq_to_nat_app 0 (a := n) (b := 1)) by lia.
    rewrite flat_map_app. change (Z.to_nat 1) with 1%nat. cbn [Zseq flat_map].
    rewrite app_nil_r, Z.add_0_l. reflexivity. }
  assert (Hb : size bottom = (n + 2)%Z) by (apply cap_size; lia).
  assert (Ho : size open_side = (n * 2)%Z).
  { subst open_side. rewrite (@size_flat_map _ _ 2) by reflexivity. lia. }
  assert (Hc : size closing = 2%Z) by reflexivity.
  assert (Hsize : size (vertexBuffer mesh) = (8 * (3 * n + 4))%Z).
  { rewrite Hbuf, packed_size, !size_app, Hb, Ho, Hc. lia. }
  assert (Hcount : nVertices mesh = (3 * n + 4)%Z).
  { replace (nVertices mesh)
      with (GLsizei_of (size (vertexBuffer mesh)
                        / (FloatsPerVertex + FloatsPerNormal + FloatsPerUV)))
      by reflexivity.
    rewrite Hsize. change (FloatsPerVertex + FloatsPerNormal + FloatsPerUV)%Z with 8%Z.
    rewrite Z.mul_comm, Z.div_mul by lia. apply GLsizei_of_small. lia. }
  assert (Hall : all_vertices_read (DrawConeMesh n true) = Zseq 0 (Z.to_nat (3 * n + 2))).
  { unfold all_vertices_read, DrawConeMesh. cbv zeta.
    cbn [when app flat_map vertices_read]. rewrite app_nil_r.
    replace (3 * n + 2)%Z with ((n + 2) + n * 2)%Z by lia.
    rewrite (Zseq_to_nat_app 0 (a := n + 2)) by lia. rewrite Z.add_0_l. reflexivity. }
  repeat match goal with |- _ /\ _ => split end; try assumption.
  - rewrite Hbuf. apply unpack_packed.
  - intros bDrawBottom. rewrite Hcount. unfold DrawConeMesh. cbv zeta.
    apply Forall_app. split.
    + apply when_within. cbn [within_buffer]. lia.
    + repeat constructor; cbn [within_buffer]; lia.
  - unfold all_vertices_read, DrawConeMesh. cbv zeta.
    cbn [when app flat_map vertices_read]. apply app_nil_r.
  - intros bDrawBottom k Hk.
    assert (Hin : In k (all_vertices_read (DrawConeMesh n true))).
    { destruct bDrawBottom; [exact Hk|].
      unfold all_vertices_read, DrawConeMesh in *. cbv zeta in *.
      cbn [when app flat_map] in *. apply in_or_app. right. exact Hk. }
    rewrite Hall in Hin. apply Zseq_In in Hin. lia.
  - intros [|]; reflexivity.
Qed.

(** A cone of 20 slices, radius 1 and height 1. *)
Lemma cone_draw_leaves_the_closing_pair_witness :
  let mesh := fst (LoadConeMesh 1 1 20) in
  let n := snd (LoadConeMesh 1 1 20) in
  let bottom := cap_centre 0.0 (-1.0)
                :: map (cap_vertex 1 0.0 (-1.0) n) (Zseq 0 (Z.to_nat (n + 1))) in
  let open_side := flat_map (cone_side_pair 1 1 n) (Zseq 0 (Z.to_nat n)) in
  let closing := cone_side_pair 1 1 n n in
  n = Z.max 3 20 /\
  unpack (vertexBuffer mesh) = bottom ++ open_side ++ closing /\
  size bottom = (n + 2)%Z /\ size open_side = (n * 2)%Z /\ size closing = 2%Z /\
  nVertices mesh = (3 * n + 4)%Z /\
  (forall bDrawBottom,
     Forall (within_buffer (nVertices mesh)) (DrawConeMesh n bDrawBottom)) /\
  all_vertices_read (DrawConeMesh n true) = Zseq 0 (Z.to_nat (3 * n + 2)) /\
  all_vertices_read (DrawConeMesh n false) = Zseq (n + 2) (Z.to_nat (n * 2)) /\
  (forall bDrawBottom k,
     In k (all_vertices_read (DrawConeMesh n bDrawBottom)) -> (k < 3 * n + 2)%Z) /\
  (forall bDrawBottom,
     all_vertices_read (DrawConeMeshLines n bDrawBottom)
     = all_vertices_read (DrawConeMesh n bDrawBottom)).
Proof.
  apply (@cone_draw_leaves_the_closing_pair 1 1 20). unfold INT_MAX. simpl. lia.
Defined.

End Solids.

(* ===================================================================== *)
(** * Normals and indices of the generated meshes *)
(* ===================================================================== *)

Section Normals.

Import Cxx ShapeMeshes.
Local Open Scope R_scope.


(** ** The sphere, for any number of segments *)

Lemma sphere_indices_quads (latitudeSegments longitudeSegments : Z) :
  sphere_indices latitudeSegments longitudeSegments
  = flat_map (fun lat =>
      flat_map (fun lon =>
        let first := (lat * (longitudeSegments + 1) + lon)%Z in
        let second := (first + longitudeSegments + 1)%Z in
        [GLuint_of first; GLuint_of second; GLuint_of (first + 1);
         GLuint_of second; GLuint_of (second + 1); GLuint_of (first + 1)])
        (Zseq 0 (Z.to_nat longitudeSegments)))
      (Zseq 0 (Z.to_nat latitudeSegments)).
Proof.
  unfold sphere_indices, for_lt.
  erewrite for_from_ext.
  - rewrite for_from_app. reflexivity.
  - intros lat indices. cbv zeta. rewrite for_from_app. reflexivity.
Qed.

Lemma sphere_indices_length (latitudeSegments longitudeSegments : Z) :
  (0 <= latitudeSegments)%Z -> (0 <= longitudeSegments)%Z ->
  size (sphere_indices latitudeSegments longitudeSegments)
  = (6 * latitudeSegments * longitudeSegments)%Z.
Proof.
  intros Hlat Hlon. rewrite sphere_indices_quads. unfold size.
  rewrite (@flat_map_length_const _ _ _ (6 * Z.to_nat longitudeSegments)%nat).
  - rewrite Zseq_length. lia.
  - intros i _. rewrite (@flat_map_length_const _ _ _ 6%nat).
    + now rewrite Zseq_length.
    + reflexivity.
Qed.

(** The indices of the rows below [rows] name vertices of the rows
    0..[rows] of the grid. *)
Lemma sphere_indices_bound (rows longitudeSegments : Z) :
  (0 <= rows)%Z -> (0 <= longitudeSegments)%Z ->
  ((rows + 1) * (longitudeSegments + 1) <= INT_MAX)%Z ->
  Forall (fun index => (0 <= index < (rows + 1) * (longitudeSegments + 1))%Z)
         (sphere_indices rows longitudeSegments).
Proof.
  intros Hm Ht Hfit. rewrite sphere_indices_quads.
  apply Forall_flat_map_intro. intros i Hi. apply Zseq_In in Hi.
  apply Forall_flat_map_intro. intros j Hj. apply Zseq_In in Hj.
  assert (Hsmall : forall k : Z,
            (0 <= k < (rows + 1) * (longitudeSegments + 1))%Z ->
            (0 <= GLuint_of k < (rows + 1) * (longitudeSegments + 1))%Z).
  { intros k Hk. unfold GLuint_of. rewrite Z.mod_small; [exact Hk|].
    unfold INT_MAX in Hfit. lia. }
  cbv zeta. repeat constructor; apply Hsmall; nia.
Qed.

Lemma sphere_nIndices (latitudeSegments longitudeSegments : Z) (radius : GLfloat) :
  (0 <= latitudeSegments)%Z -> (0 <= longitudeSegments)%Z ->
  (6 * latitudeSegments * longitudeSegments <= INT_MAX)%Z ->
  nIndices (LoadSphereMesh latitudeSegments longitudeSegments radius)
  = (6 * latitudeSegments * longitudeSegments)%Z.
Proof.
  intros Hlat Hlon Hfit. unfold LoadSphereMesh. cbn [nIndices].
  rewrite sphere_indices_length by lia.
  unfold GLuint_of, INT_MAX in *. apply Z.mod_small. nia.
Qed.

(** X4. [LoadSphereMesh], for any numbers of segments that are not
    negative and whose counts fit an [int]: the mesh stores
    (latitudeSegments+1)*(longitudeSegments+1) vertices of 8 floats and
    6*latitudeSegments*longitudeSegments indices, each of them below the
    number of vertices. *)
Theorem sphere_counts_and_indices
  (latitudeSegments longitudeSegments : Z) (radius : GLfloat) :
  (0 <= latitudeSegments)%Z -> (0 <= longitudeSegments)%Z ->
  ((latitudeSegments + 1) * (longitudeSegments + 1) <= INT_MAX)%Z ->
  (6 * latitudeSegments * longitudeSegments <= INT_MAX)%Z ->
  let mesh := LoadSphereMesh latitudeSegments longitudeSegments radius in
  nVertices mesh = ((latitudeSegments + 1) * (longitudeSegments + 1))%Z /\
  size (vertexBuffer mesh) = (8 * nVertices mesh)%Z /\
  nIndices mesh = (6 * latitudeSegments * longitudeSegments)%Z /\
  size (indexBuffer mesh) = nIndices mesh /\
  Forall (fun index => (0 <= index < nVertices mesh)%Z) (indexBuffer mesh).
Proof.
  intros Hlat Hlon Hfit Hfit' mesh.
  assert (Hn : nVertices mesh = ((latitudeSegments + 1) * (longitudeSegments + 1))%Z)
    by (apply sphere_nVertices; assumption).
  assert (Hi : nIndices mesh = (6 * latitudeSegments * longitudeSegments)%Z)
    by (apply sphere_nIndices; assumption).
  repeat match goal with |- _ /\ _ => split end; try assumption.
  - rewrite Hn. subst mesh. cbn [LoadSphereMesh vertexBuffer].
    rewrite sphere_vertices_grid, grid_flat_length by lia. reflexivity.
  - rewrite Hi. subst mesh. cbn [LoadSphereMesh indexBuffer].
    apply sphere_indices_length; assumption.
  - rewrite Hn. subst mesh. cbn [LoadSphereMesh indexBuffer].
    apply sphere_indices_bound; assumption.
Qed.

(** A sphere of 32 by 32 segments and radius 2. *)
Lemma sphere_counts_and_indices_witness :
  let mesh := LoadSphereMesh 32 32 2 in
  nVertices mesh = ((32 + 1) * (32 + 1))%Z /\
  size (vertexBuffer mesh) = (8 * nVertices mesh)%Z /\
  nIndices mesh = (6 * 32 * 32)%Z /\
  size (indexBuffer mesh) = nIndices mesh /\
  Forall (fun index => (0 <= index < nVertices mesh)%Z) (indexBuffer mesh).
Proof.
  apply (@sphere_counts_and_indices 32 32 2); unfold INT_MAX; simpl; lia.
Defined.

Lemma firstn_exact (A : Type) (l l' : list A) : firstn (List.length l) (l ++ l') = l.
Proof.
  induction l as [|a l IH]; cbn [List.length firstn app].
  - reflexivity.
  - now rewrite IH.
Qed.

(** The indices of a sphere of 2*[half] rows begin with those of a sphere
    of [half] rows. *)
Lemma sphere_indices_half (half longitudeSegments : Z) :
  (0 <= half)%Z -> (0 <= longitudeSegments)%Z ->
  firstn (Z.to_nat (6 * half * longitudeSegments))
         (sphere_indices (2 * half) longitudeSegments)
  = sphere_indices half longitudeSegments.
Proof.
  intros Hh Hlon.
  assert (Hlen : Z.to_nat (6 * half * longitudeSegments)
                 = List.length (sphere_indices half longitudeSegments)).
  { pose proof (sphere_indices_length Hh Hlon) as H. unfold size in H. lia. }
  rewrite Hlen. rewrite !sphere_indices_quads.
  replace (2 * half)%Z with (half + half)%Z by lia.
  rewrite (Zseq_to_nat_app 0 (a := half)) by lia.
  rewrite flat_map_app. apply firstn_exact.
Qed.

(** X5. [DrawSphereMesh] and [DrawHalfSphereMesh] on a loaded sphere.  A
    sphere without segments in one direction has no indices: both methods
    write the error line and draw nothing, as they do for a mesh that was
    never loaded (vertex array 0).  Otherwise [DrawSphereMesh] draws the
    whole element buffer.  [DrawHalfSphereMesh] draws the first half of it:
    for an even number 2*half of latitude segments these are the indices
    of the rows of quads 0..half-1, the index list of a sphere of [half]
    rows, and they name vertices of the rows 0..half only, the pole at the
    angle 0 down to the row at a quarter turn. *)
Theorem half_sphere_draws_the_upper_rows
  (half longitudeSegments vao : Z) (radius : GLfloat) :
  (0 <= half)%Z -> (0 <= longitudeSegments)%Z ->
  ((2 * half + 1) * (longitudeSegments + 1) <= INT_MAX)%Z ->
  (6 * (2 * half) * longitudeSegments <= INT_MAX)%Z ->
  let mesh := LoadSphereMesh (2 * half) longitudeSegments radius in
  let error := "Error: Sphere mesh VAO or indices not properly initialized."%string in
  (vao = 0%Z \/ half = 0%Z \/ longitudeSegments = 0%Z ->
   DrawSphereMesh vao mesh = ([error], []) /\
   DrawHalfSphereMesh vao mesh = ([error], [])) /\
  (vao <> 0%Z -> (0 < half)%Z -> (0 < longitudeSegments)%Z ->
   DrawSphereMesh vao mesh = ([], [glDrawElements GL_TRIANGLES (nIndices mesh)]) /\
   indices_read (indexBuffer mesh) (glDrawElements GL_TRIANGLES (nIndices mesh))
   = indexBuffer mesh /\
   DrawHalfSphereMesh vao mesh
   = ([], [glDrawElements GL_TRIANGLES (6 * half * longitudeSegments)]) /\
   indices_read (indexBuffer mesh)
                (glDrawElements GL_TRIANGLES (6 * half * longitudeSegments))
   = sphere_indices half longitudeSegments /\
   Forall (fun index => (0 <= index < (half + 1) * (longitudeSegments + 1))%Z)
          (indices_read (indexBuffer mesh)
                        (glDrawElements GL_TRIANGLES (6 * half * longitudeSegments))) /\
   forall lat : Z, (0 <= lat <= half)%Z -> IZR lat * Pi / IZR (2 * half) <= PiHalf).
Proof.
  intros Hh Hlon Hfit Hfit' mesh error.
  assert (Hi : nIndices mesh = (6 * (2 * half) * longitudeSegments)%Z)
    by (apply sphere_nIndices; [lia | assumption | assumption]).
  assert (Hhalf : indices_read (indexBuffer mesh)
                    (glDrawElements GL_TRIANGLES (6 * half * longitudeSegments))
                  = sphere_indices half longitudeSegments).
  { subst mesh. cbn [LoadSphereMesh indexBuffer indices_read].
    apply sphere_indices_half; assumption. }
  split.
  - intros Hempty. unfold DrawSphereMesh, DrawHalfSphereMesh. rewrite Hi.
    assert (Hguard : ((vao =? 0) || (6 * (2 * half) * longitudeSegments =? 0))%Z = true).
    { apply orb_true_iff. destruct Hempty as [-> | [-> | ->]].
      - left. reflexivity.
      - right. apply Z.eqb_eq. lia.
      - right. apply Z.eqb_eq. lia. }
    rewrite Hguard. split; reflexivity.
  - intros Hvao Hpos Hpos'.
    assert (Hguard : ((vao =? 0) || (6 * (2 * half) * longitudeSegments =? 0))%Z = false).
    { apply orb_false_iff. split; apply Z.eqb_neq; [assumption | nia]. }
    repeat match goal with |- _ /\ _ => split end.
    + unfold DrawSphereMesh. rewrite Hi, Hguard. reflexivity.
    + cbn [indices_read]. rewrite Hi. subst mesh. cbn [LoadSphereMesh indexBuffer].
      pose proof (@sphere_indices_length (2 * half) longitudeSegments) as Hlen.
      unfold size in Hlen. apply firstn_all2. lia.
    + unfold DrawHalfSphereMesh. rewrite Hi, Hguard.
      replace (Z.quot (6 * (2 * half) * longitudeSegments) 2)
        with (6 * half * longitudeSegments)%Z; [reflexivity|].
      rewrite Z.quot_div_nonneg by nia.
      replace (6 * (2 * half) * longitudeSegments)%Z
        with (6 * half * longitudeSegments * 2)%Z by lia.
      symmetry. apply Z.div_mul. lia.
    + exact Hhalf.
    + rewrite Hhalf. apply sphere_indices_bound; [lia | assumption | nia].
    + intros lat Hlat. unfold PiHalf.
      assert (H2h : 0 < IZR (2 * half)) by (apply IZR_lt; lia).
      assert (Hle : IZR lat * 2 <= IZR (2 * half)).
      { rewrite <- (mult_IZR lat 2). apply IZR_le. lia. }
      assert (HPi : 0 < Pi) by (unfold Pi; lra).
      apply Rmult_le_reg_r with (r := IZR (2 * half) * 2); [lra|].
      replace (IZR lat * Pi / IZR (2 * half) * (IZR (2 * half) * 2))
        with (IZR lat * 2 * Pi) by (field; lra).
      replace (Pi / 2.0 * (IZR (2 * half) * 2)) with (IZR (2 * half) * Pi) by lra.
      apply Rmult_le_compat_r; lra.
Qed.

(** A sphere of 32 by 32 segments, loaded into the vertex array 1. *)
Lemma half_sphere_draws_the_upper_rows_witness :
  let mesh := LoadSphereMesh (2 * 16) 32 2 in
  let error := "Error: Sphere mesh VAO or indices not properly initialized."%string in
  (1%Z = 0%Z \/ 16%Z = 0%Z \/ 32%Z = 0%Z ->
   DrawSphereMesh 1 mesh = ([error], []) /\
   DrawHalfSphereMesh 1 mesh = ([error], [])) /\
  (1%Z <> 0%Z -> (0 < 16)%Z -> (0 < 32)%Z ->
   DrawSphereMesh 1 mesh = ([], [glDrawElements GL_TRIANGLES (nIndices mesh)]) /\
   indices_read (indexBuffer mesh) (glDrawElements GL_TRIANGLES (nIndices mesh))
   = indexBuffer mesh /\
   DrawHalfSphereMesh 1 mesh = ([], [glDrawElements GL_TRIANGLES (6 * 16 * 32)]) /\
   indices_read (indexBuffer mesh) (glDrawElements GL_TRIANGLES (6 * 16 * 32))
   = sphere_indices 16 32 /\
   Forall (fun index => (0 <= index < (16 + 1) * (32 + 1))%Z)
          (indices_read (indexBuffer mesh) (glDrawElements GL_TRIANGLES (6 * 16 * 32))) /\
   forall lat : Z, (0 <= lat <= 16)%Z -> IZR lat * Pi / IZR (2 * 16) <= PiHalf).
Proof.
  apply (@half_sphere_draws_the_upper_rows 16 32 1 2); unfold INT_MAX; simpl; lia.
Defined.

End Normals.

Section Pyramid.

Import Cxx ShapeMeshes.
Local Open Scope R_scope.

(** ** The four-sided pyramid *)

Lemma pyramid4_layout (baseSize height : GLfloat) :
  vertexBuffer (LoadPyramid4Mesh baseSize height)
  = flat_map pack (Pyramid4.bottom_vertices (baseSize / 2.0)
                   ++ flat_map Pyramid4.face_vertices
                               (Pyramid4.faces (baseSize / 2.0) height)).
Proof.
  reflexivity.
Qed.

(** X7. [LoadPyramid4Mesh], whatever the base size and the height.  The
    buffer holds 16 vertices: the four of the bottom face, which carry the
    normal (0, -1, 0), then for each of the four side faces the apex, the
    bottom-left and the bottom-right corner, which carry one normal, the
    one computed for the face.  [DrawPyramid4Mesh] issues one strip, which
    reads each of the 16 vertices once, in order. *)
Theorem pyramid4_sixteen_vertices_one_strip (baseSize height : GLfloat) :
  let mesh := LoadPyramid4Mesh baseSize height in
  let halfBase := baseSize / 2.0 in
  nVertices mesh = 16%Z /\
  size (vertexBuffer mesh) = (8 * 16)%Z /\
  List.length (Pyramid4.faces halfBase height) = 4%nat /\
  unpack (vertexBuffer mesh)
  = Pyramid4.bottom_vertices halfBase
    ++ flat_map Pyramid4.face_vertices (Pyramid4.faces halfBase height) /\
  map normal (Pyramid4.bottom_vertices halfBase)
  = repeat (mkvec3 0.0 (-1.0) 0.0) 4 /\
  (forall face : Pyramid4.Face,
     map position (Pyramid4.face_vertices face)
     = [Pyramid4.top face; Pyramid4.bottomLeft face; Pyramid4.bottomRight face] /\
     map normal (Pyramid4.face_vertices face) = repeat (Pyramid4.face_normal face) 3) /\
  DrawPyramid4Mesh mesh = ([], [glDrawArrays GL_TRIANGLE_STRIP 0 16]) /\
  all_vertices_read (snd (DrawPyramid4Mesh mesh)) = Zseq 0 (Z.to_nat (nVertices mesh)).
Proof.
  intros mesh halfBase.
  repeat match goal with |- _ /\ _ => split end.
  - reflexivity.
  - reflexivity.
  - reflexivity.
  - subst mesh halfBase. rewrite pyramid4_layout. apply unpack_packed.
  - reflexivity.
  - intros face. split; reflexivity.
  - reflexivity.
  - reflexivity.
Qed.

End Pyramid.

Section TorusDraws.

Import Cxx ShapeMeshes.
Local Open Scope R_scope.

Lemma torus_indices_half (half tubeSegments : Z) :
  (0 <= half)%Z -> (0 <= tubeSegments)%Z ->
  firstn (Z.to_nat (6 * half * tubeSegments)) (torus_indices (2 * half) tubeSegments)
  = torus_indices half tubeSegments.
Proof.
  intros Hh Ht.
  assert (Hlen : Z.to_nat (6 * half * tubeSegments)
                 = List.length (torus_indices half tubeSegments)).
  { pose proof (torus_indices_length Hh Ht) as H. unfold size in H. lia. }
  rewrite Hlen. rewrite !torus_indices_quads.
  replace (2 * half)%Z with (half + half)%Z by lia.
  rewrite (Zseq_to_nat_app 0 (a := half)) by lia.
  rewrite flat_map_app. apply firstn_exact.
Qed.

(** X9. [DrawTorusMesh] and [DrawHalfTorusMesh] on a loaded torus with an
    even number 2*half of main segments (at least 4, and at least 3 tube
    segments, so that the clamps change nothing) whose counts fit an
    [int].  [DrawTorusMesh] draws the whole element buffer.
    [DrawHalfTorusMesh] draws its first half: the quads of the rings
    0..half-1, the index list of a torus of [half] main segments, naming
    vertices of the rings 0..half only, from the angle 0 to half a turn of
    the main circle. *)
Theorem half_torus_draws_half_the_rings
  (mainRadius tubeRadius : GLfloat) (half tubeSegments : Z) :
  (2 <= half)%Z -> (3 <= tubeSegments)%Z ->
  ((2 * half + 1) * (tubeSegments + 1) <= INT_MAX)%Z ->
  (6 * (2 * half) * tubeSegments <= INT_MAX)%Z ->
  let mesh := LoadTorusMesh mainRadius tubeRadius (2 * half) tubeSegments in
  nIndices mesh = (6 * (2 * half) * tubeSegments)%Z /\
  DrawTorusMesh mesh = [glDrawElements GL_TRIANGLES (6 * (2 * half) * tubeSegments)] /\
  flat_map (indices_read (indexBuffer mesh)) (DrawTorusMesh mesh) = indexBuffer mesh /\
  DrawHalfTorusMesh mesh = [glDrawElements GL_TRIANGLES (6 * half * tubeSegments)] /\
  flat_map (indices_read (indexBuffer mesh)) (DrawHalfTorusMesh mesh)
  = torus_indices half tubeSegments /\
  Forall (fun index => (0 <= index < (half + 1) * (tubeSegments + 1))%Z)
         (flat_map (indices_read (indexBuffer mesh)) (DrawHalfTorusMesh mesh)) /\
  IZR half * (2.0 * Pi / IZR (2 * half)) = Pi.
Proof.
  intros Hh Ht Hfit Hfit' mesh.
  assert (Hbuf : indexBuffer mesh = torus_indices (2 * half) tubeSegments).
  { subst mesh. unfold LoadTorusMesh, torus_mesh. cbn [indexBuffer].
    rewrite !Z.max_r by lia. reflexivity. }
  assert (Hlen : size (torus_indices (2 * half) tubeSegments)
                 = (6 * (2 * half) * tubeSegments)%Z)
    by (apply torus_indices_length; lia).
  assert (Hi : nIndices mesh = (6 * (2 * half) * tubeSegments)%Z).
  { replace (nIndices mesh) with (GLuint_of (size (indexBuffer mesh))) by reflexivity.
    rewrite Hbuf, Hlen. unfold GLuint_of, INT_MAX in *. apply Z.mod_small. nia. }
  assert (Hquot : Z.quot (6 * (2 * half) * tubeSegments) 2 = (6 * half * tubeSegments)%Z).
  { rewrite Z.quot_div_nonneg by nia.
    replace (6 * (2 * half) * tubeSegments)%Z with (6 * half * tubeSegments * 2)%Z by lia.
    apply Z.div_mul. lia. }
  assert (Hhalf : flat_map (indices_read (indexBuffer mesh)) (DrawHalfTorusMesh mesh)
                  = torus_indices half tubeSegments).
  { unfold DrawHalfTorusMesh. rewrite Hi, Hquot. cbn [flat_map indices_read].
    rewrite app_nil_r, Hbuf. apply torus_indices_half; lia. }
  repeat match goal with |- _ /\ _ => split end.
  - exact Hi.
  - unfold DrawTorusMesh. now rewrite Hi.
  - unfold DrawTorusMesh. rewrite Hi. cbn [flat_map indices_read].
    rewrite app_nil_r, Hbuf. apply firstn_all2. unfold size in Hlen. lia.
  - unfold DrawHalfTorusMesh. now rewrite Hi, Hquot.
  - exact Hhalf.
  - rewrite Hhalf. apply torus_indices_bound; [lia | lia | nia].
  - rewrite mult_IZR.
    assert (Hne : IZR half <> 0) by (apply not_0_IZR; lia).
    replace 2.0 with 2 by lra. unfold GLfloat in *. field. exact Hne.
Qed.

(** The torus of the scene, [LoadTorusMesh(1, 0.06f, 24, 8)]. *)
Lemma half_torus_draws_half_the_rings_witness :
  let mesh := LoadTorusMesh 1 0.06 (2 * 12) 8 in
  nIndices mesh = (6 * (2 * 12) * 8)%Z /\
  DrawTorusMesh mesh = [glDrawElements GL_TRIANGLES (6 * (2 * 12) * 8)] /\
  flat_map (indices_read (indexBuffer mesh)) (DrawTorusMesh mesh) = indexBuffer mesh /\
  DrawHalfTorusMesh mesh = [glDrawElements GL_TRIANGLES (6 * 12 * 8)] /\
  flat_map (indices_read (indexBuffer mesh)) (DrawHalfTorusMesh mesh)
  = torus_indices 12 8 /\
  Forall (fun index => (0 <= index < (12 + 1) * (8 + 1))%Z)
         (flat_map (indices_read (indexBuffer mesh)) (DrawHalfTorusMesh mesh)) /\
  IZR 12 * (2.0 * Pi / IZR (2 * 12)) = Pi.
Proof.
  apply (@half_torus_draws_half_the_rings 1 0.06 12 8); unfold INT_MAX; simpl; lia.
Defined.

End TorusDraws.

Section TextureCoordinates.

Import Cxx ShapeMeshes.
Local Open Scope R_scope.

Lemma step_ratio (i n : Z) : (0 < n)%Z -> (0 <= i <= n)%Z -> 0 <= IZR i / IZR n <= 1.
Proof.
  intros Hn Hi. assert (Hpos : 0 < IZR n) by (apply IZR_lt; lia).
  assert (H0 : 0 <= IZR i) by (apply IZR_le; lia).
  assert (H1 : IZR i <= IZR n) by (apply IZR_le; lia).
  split.
  - apply Rmult_le_pos; [exact H0|]. left. apply Rinv_0_lt_compat. exact Hpos.
  - apply Rmult_le_reg_r with (r := IZR n); [exact Hpos|].
    unfold Rdiv. rewrite Rmult_assoc, Rinv_l by lra. lra.
Qed.

Lemma cap_in_unit_square (radius y ny : GLfloat) (numSlices i : Z) :
  in_unit_square (cap_vertex radius y ny numSlices i).
Proof.
  unfold in_unit_square, cap_vertex. cbv zeta. cbn [uv fst snd].
  set (angle := IZR i * (2.0 * Pi / IZR numSlices)).
  pose proof (COS_bound angle) as [Hc0 Hc1]. pose proof (SIN_bound angle) as [Hs0 Hs1].
  split; lra.
Qed.

Lemma Forall_steps (A : Type) (P : A -> Prop) (f : Z -> A) (n : Z) :
  (forall i, (0 <= i < n)%Z -> P (f i)) -> Forall P (map f (Zseq 0 (Z.to_nat n))).
Proof.
  intros H. apply Forall_forall. intros v Hv. apply in_map_iff in Hv.
  destruct Hv as [i [<- Hi]]. apply Zseq_In in Hi. apply H. lia.
Qed.

Lemma Forall_pairs (P : Vertex -> Prop) (f : Z -> list Vertex) (n : Z) :
  (forall i, (0 <= i < n)%Z -> Forall P (f i)) ->
  Forall P (flat_map f (Zseq 0 (Z.to_nat n))).
Proof.
  intros H. apply Forall_flat_map_intro. intros i Hi. apply Zseq_In in Hi. apply H. lia.
Qed.

(** X19. The texture coordinates of the generated meshes lie in the unit
    square: for every vertex of the sphere (with at least one segment in
    each direction), of the torus, of the cylinder and of the cone, both
    coordinates are between 0 and 1, ends included. *)
Theorem texture_coordinates_in_unit_square :
  (forall latitudeSegments longitudeSegments radius,
     (0 < latitudeSegments)%Z -> (0 < longitudeSegments)%Z ->
     Forall in_unit_square
            (unpack (vertexBuffer (LoadSphereMesh latitudeSegments longitudeSegments radius)))) /\
  (forall mainRadius tubeRadius mainSegments tubeSegments,
     Forall in_unit_square
            (unpack (vertexBuffer
                       (LoadTorusMesh mainRadius tubeRadius mainSegments tubeSegments)))) /\
  (forall radius height numSlices,
     Forall in_unit_square
            (unpack (vertexBuffer (fst (LoadCylinderMesh radius height numSlices))))) /\
  (forall radius height numSlices,
     Forall in_unit_square
            (unpack (vertexBuffer (fst (LoadConeMesh radius height numSlices))))).
Proof.
  assert (Hcentre : forall y ny, in_unit_square (cap_centre y ny)).
  { intros y ny. unfold in_unit_square, cap_centre. cbn [uv fst snd]. lra. }
  split; [|split; [|split]].
  - intros latitudeSegments longitudeSegments radius Hlat Hlon.
    cbn [LoadSphereMesh vertexBuffer]. rewrite sphere_vertices_grid, unpack_grid.
    apply grid_Forall. intros lat lon Hi Hj.
    unfold in_unit_square, sphere_vertex. cbv zeta. cbn [uv fst snd].
    pose proof (@step_ratio lon longitudeSegments Hlon ltac:(lia)) as Hu.
    pose proof (@step_ratio lat latitudeSegments Hlat ltac:(lia)) as Hv.
    split; lra.
  - intros mainRadius tubeRadius mainSegments tubeSegments.
    unfold LoadTorusMesh, torus_mesh. cbn [vertexBuffer].
    rewrite torus_vertices_grid, unpack_grid.
    apply grid_Forall. intros i j Hi Hj.
    unfold in_unit_square, torus_vertex. cbv zeta. cbn [uv fst snd].
    split; apply step_ratio; lia.
  - intros radius height numSlices. cbn [LoadCylinderMesh fst vertexBuffer].
    rewrite clamp_slices. set (n := Z.max 3 numSlices).
    assert (Hn : (3 <= n)%Z) by (subst n; lia).
    rewrite cylinder_vertices_parts, flat_map_pack_rows, <- !flat_map_pack_app, unpack_packed.
    repeat (apply Forall_app; split).
    + constructor; [apply Hcentre|]. apply Forall_steps. intros i _. apply cap_in_unit_square.
    + constructor; [apply Hcentre|]. apply Forall_steps. intros i _. apply cap_in_unit_square.
    + apply Forall_pairs. intros i Hi. unfold cylinder_side_pair. cbv zeta.
      pose proof (@step_ratio i n ltac:(lia) ltac:(lia)) as Hu.
      apply Forall_cons; [|apply Forall_cons; [|apply Forall_nil]];
        unfold in_unit_square; cbn [uv fst snd]; split; lra.
  - intros radius height numSlices. cbn [LoadConeMesh fst vertexBuffer].
    rewrite clamp_slices. set (n := Z.max 3 numSlices).
    assert (Hn : (3 <= n)%Z) by (subst n; lia).
    rewrite cone_vertices_parts, flat_map_pack_rows, <- !flat_map_pack_app, unpack_packed.
    repeat (apply Forall_app; split).
    + constructor; [apply Hcentre|]. apply Forall_steps. intros i _. apply cap_in_unit_square.
    + apply Forall_pairs. intros i Hi. unfold cone_side_pair. cbv zeta.
      pose proof (@step_ratio i n ltac:(lia) ltac:(lia)) as Hu.
      apply Forall_cons; [|apply Forall_cons; [|apply Forall_nil]];
        unfold in_unit_square; cbn [uv fst snd]; split; lra.
Qed.

End TextureCoordinates.

(* ===================================================================== *)
(** * The texture registry as a list *)
(* ===================================================================== *)

Section Registry.

Import Cxx SceneManager.
Local Open Scope string_scope.
Local Open Scope Z_scope.
Local Open Scope list_scope.

Variable decode : string -> option Image.
Variable fresh_texture : list Call -> Z.

Lemma array_get_firstn (A : Type) (a : list A) (n : nat) (i : Z) (v : A) :
  (Z.to_nat i < n)%nat -> array_get a i = Normal v -> array_get (firstn n a) i = Normal v.
Proof.
  intros Hi Hget. apply array_get_nth in Hget. destruct Hget as [H0 Hnth].
  assert (Hlen : (Z.to_nat i < List.length a)%nat).
  { apply nth_error_Some. rewrite Hnth. discriminate. }
  unfold array_get. rewrite length_firstn.
  destruct (Z.leb_spec 0 i); [|lia].
  destruct (Z.ltb_spec i (Z.of_nat (Nat.min n (List.length a)))); [|lia].
  cbn [andb]. rewrite nth_error_firstn.
  destruct (Nat.ltb_spec (Z.to_nat i) n); [|lia]. now rewrite Hnth.
Qed.

Lemma loaded_length (s : State) :
  registry_ok s -> List.length (loaded s) = Z.to_nat (m_loadedTextures s).
Proof.
  intros [Hlen Hn]. unfold loaded. rewrite length_firstn, Hlen. lia.
Qed.

(** Both loops, from any index on, read as functions of the loaded entries. *)
Lemma find_loops_loaded (s : State) (tag : string) :
  registry_ok s ->
  forall (n : nat) (index : Z),
    n = Z.to_nat (m_loadedTextures s - index) -> 0 <= index ->
    FindTextureSlot_loop s tag (-1) index false
    = Normal (slot_from (map TEXTURE_INFO.tag (skipn (Z.to_nat index) (loaded s))) tag index)
    /\ FindTextureID_loop s tag (-1) index false
       = Normal (id_of (skipn (Z.to_nat index) (loaded s)) tag).
Proof.
  intros Hok. pose proof (loaded_length Hok) as Hll. destruct Hok as [Hlen Hloaded].
  induction n as [|n IH]; intros index Hn Hindex;
    rewrite FindTextureSlot_loop_round, FindTextureID_loop_round.
  - destruct (Z.ltb_spec index (m_loadedTextures s)) as [Hlt|Hge]; [lia|].
    cbn [andb]. rewrite skipn_all2 by lia. split; reflexivity.
  - destruct (Z.ltb_spec index (m_loadedTextures s)) as [Hlt|Hge]; [|lia].
    cbn [andb Bool.eqb].
    destruct (@array_get_inside _ (m_textureIDs s) index) as [e He].
    { rewrite Hlen. lia. }
    rewrite He.
    assert (He' : array_get (loaded s) index = Normal e)
      by (apply array_get_firstn; [lia | exact He]).
    rewrite (array_get_skipn _ _ He'). cbn [map slot_from]. unfold id_of. cbn [find].
    destruct (compare_is_0 (TEXTURE_INFO.tag e) tag).
    + rewrite FindTextureSlot_loop_round, FindTextureID_loop_round, !loop_cond_found.
      split; reflexivity.
    + apply IH; lia.
Qed.

Lemma FindTextureSlot_loaded (tag : string) (s : State) :
  registry_ok s -> FindTextureSlot tag s = Normal (slot_from (loaded_tags s) tag 0).
Proof.
  intros Hok. unfold FindTextureSlot, loaded_tags.
  now destruct (@find_loops_loaded s tag Hok (Z.to_nat (m_loadedTextures s - 0)) 0) as [H _].
Qed.

Lemma FindTextureID_loaded (tag : string) (s : State) :
  registry_ok s -> FindTextureID tag s = Normal (id_of (loaded s) tag).
Proof.
  intros Hok. unfold FindTextureID.
  now destruct (@find_loops_loaded s tag Hok (Z.to_nat (m_loadedTextures s - 0)) 0) as [_ H].
Qed.

(** ** Searching a list of tags *)

Lemma slot_from_absent (tags : list string) (tag : string) :
  ~ In tag tags -> forall index, slot_from tags tag index = -1.
Proof.
  induction tags as [|t tags IH]; intros Hnot index; cbn [slot_from].
  - reflexivity.
  - unfold compare_is_0. destruct (String.eqb_spec t tag) as [->|Hne].
    + contradiction Hnot. now left.
    + apply IH. intros Hin. apply Hnot. now right.
Qed.

Lemma slot_from_present (tags : list string) (tag : string) :
  In tag tags ->
  forall index, index <= slot_from tags tag index < index + Z.of_nat (List.length tags).
Proof.
  induction tags as [|t tags IH]; intros Hin index; cbn [slot_from List.length].
  - contradiction.
  - unfold compare_is_0. destruct (String.eqb_spec t tag) as [->|Hne].
    + lia.
    + destruct Hin as [Heq|Hin]; [contradiction|].
      specialize (IH Hin (index + 1)). lia.
Qed.

Lemma slot_from_app (tags tags' : list string) (tag : string) :
  forall index,
    slot_from (tags ++ tags') tag index
    = if in_dec string_dec tag tags then slot_from tags tag index
      else slot_from tags' tag (index + Z.of_nat (List.length tags)).
Proof.
  induction tags as [|t tags IH]; intros index.
  - cbn [app List.length]. destruct (in_dec string_dec tag []) as [[]|_].
    f_equal. cbn. lia.
  - cbn [app slot_from List.length]. unfold compare_is_0.
    destruct (String.eqb_spec t tag) as [->|Hne].
    + destruct (in_dec string_dec tag (tag :: tags)) as [_|Hnot]; [reflexivity|].
      contradiction Hnot. now left.
    + rewrite IH.
      destruct (in_dec string_dec tag tags) as [Hin|Hnot];
        destruct (in_dec string_dec tag (t :: tags)) as [Hin'|Hnot'].
      * reflexivity.
      * contradiction Hnot'. now right.
      * destruct Hin' as [Heq|Hin']; contradiction.
      * f_equal. lia.
Qed.

(** The slot found for a tag holds that tag. *)
Lemma slot_from_nth (tags : list string) (tag : string) :
  In tag tags ->
  forall index,
    nth_error tags (Z.to_nat (slot_from tags tag index - index)) = Some tag.
Proof.
  induction tags as [|t tags IH]; intros Hin index; cbn [slot_from].
  - contradiction.
  - unfold compare_is_0. destruct (String.eqb_spec t tag) as [->|Hne].
    + rewrite Z.sub_diag. reflexivity.
    + destruct Hin as [Heq|Hin]; [contradiction|].
      pose proof (slot_from_present _ _ Hin (index + 1)) as Hrange.
      replace (Z.to_nat (slot_from tags tag (index + 1) - index))
        with (S (Z.to_nat (slot_from tags tag (index + 1) - (index + 1)))) by lia.
      cbn [nth_error]. apply IH. exact Hin.
Qed.

Lemma id_of_app (entries entries' : list TEXTURE_INFO.t) (tag : string) :
  id_of (entries ++ entries') tag
  = if in_dec string_dec tag (map TEXTURE_INFO.tag entries) then id_of entries tag
    else id_of entries' tag.
Proof.
  unfold id_of. induction entries as [|e entries IH].
  - cbn [app map]. now destruct (in_dec string_dec tag []) as [[]|_].
  - cbn [app map find].
    destruct (compare_is_0 (TEXTURE_INFO.tag e) tag) eqn:Hcmp.
    + apply String.eqb_eq in Hcmp.
      destruct (in_dec string_dec tag (TEXTURE_INFO.tag e :: map TEXTURE_INFO.tag entries))
        as [_|Hnot]; [reflexivity|].
      contradiction Hnot. now left.
    + apply String.eqb_neq in Hcmp. rewrite IH.
      destruct (in_dec string_dec tag (map TEXTURE_INFO.tag entries)) as [Hin|Hnot];
        destruct (in_dec string_dec tag
                    (TEXTURE_INFO.tag e :: map TEXTURE_INFO.tag entries)) as [Hin'|Hnot'].
      * reflexivity.
      * contradiction Hnot'. now right.
      * destruct Hin' as [Heq|Hin']; contradiction.
      * reflexivity.
Qed.

(** ** Registering *)

Lemma firstn_list_set (A : Type) (a : list A) (n : nat) (v : A) :
  (n < List.length a)%nat -> firstn (S n) (list_set a n v) = firstn n a ++ [v].
Proof.
  revert n. induction a as [|h a IH]; intros [|n] Hn; cbn [List.length] in Hn; try lia.
  - reflexivity.
  - cbn [list_set]. rewrite !firstn_cons. cbn [app]. f_equal. apply IH. lia.
Qed.

Lemma loaded_after_register (s s' : State) (v : TEXTURE_INFO.t) :
  0 <= m_loadedTextures s < Z.of_nat (List.length (m_textureIDs s)) ->
  m_textureIDs s' = list_set (m_textureIDs s) (Z.to_nat (m_loadedTextures s)) v ->
  m_loadedTextures s' = m_loadedTextures s + 1 ->
  loaded s' = loaded s ++ [v].
Proof.
  intros Hroom Hids Hn. unfold loaded. rewrite Hids, Hn.
  replace (Z.to_nat (m_loadedTextures s + 1)) with (S (Z.to_nat (m_loadedTextures s))) by lia.
  apply firstn_list_set. lia.
Qed.

(** X10. A texture that [CreateGLTexture] registers can be found again.
    In a registry with room left, a file that loads is stored in the entry
    [m_loadedTextures], which becomes the last of the entries in use.  If
    no texture carried the tag before, [FindTextureSlot] now returns that
    index and [FindTextureID] the new texture's name.  If one did, the
    lookups still return the older texture: the new one cannot be reached
    by its tag.  The lookups of every other tag are unchanged. *)
Theorem created_texture_is_found (filename tag : string) (s : State) :
  registry_ok s ->
  m_loadedTextures s < Z.of_nat TEXTURE_SLOTS ->
  loads decode filename = true ->
  exists s',
    CreateGLTexture decode fresh_texture filename tag s = Normal (true, s')
    /\ registry_ok s'
    /\ loaded s' = loaded s ++ [TEXTURE_INFO.mk tag (new_name fresh_texture filename s)]
    /\ (~ In tag (loaded_tags s) ->
        FindTextureSlot tag s' = Normal (m_loadedTextures s)
        /\ FindTextureID tag s'
           = Normal (int_of_GLuint (new_name fresh_texture filename s)))
    /\ (In tag (loaded_tags s) ->
        FindTextureSlot tag s' = FindTextureSlot tag s
        /\ FindTextureID tag s' = FindTextureID tag s)
    /\ (forall other, other <> tag ->
        FindTextureSlot other s' = FindTextureSlot other s
        /\ FindTextureID other s' = FindTextureID other s).
Proof.
  intros Hok Hroom Hloads. pose proof Hok as [Hlen Hn].
  destruct (@CreateGLTexture_registers decode fresh_texture filename tag s Hloads)
    as [s' [Hrun [Hids [Hcount _]]]]; [lia|].
  assert (Hok' : registry_ok s').
  { split; [rewrite Hids, list_set_length; exact Hlen | lia]. }
  assert (Hloaded : loaded s'
                    = loaded s ++ [TEXTURE_INFO.mk tag (new_name fresh_texture filename s)])
    by (apply loaded_after_register; [lia | exact Hids | exact Hcount]).
  assert (Htags : loaded_tags s' = loaded_tags s ++ [tag]).
  { unfold loaded_tags. rewrite Hloaded, map_app. reflexivity. }
  assert (Hslot : forall t, FindTextureSlot t s' = Normal (slot_from (loaded_tags s ++ [tag]) t 0)).
  { intros t. rewrite FindTextureSlot_loaded by exact Hok'. now rewrite Htags. }
  assert (Hid : forall t, FindTextureID t s'
                          = Normal (id_of (loaded s ++ [TEXTURE_INFO.mk tag
                                                          (new_name fresh_texture filename s)]) t)).
  { intros t. rewrite FindTextureID_loaded by exact Hok'. now rewrite Hloaded. }
  exists s'. split; [exact Hrun|]. split; [exact Hok'|]. split; [exact Hloaded|].
  split; [|split].
  - intros Hnew. rewrite Hslot, Hid, slot_from_app, id_of_app.
    fold (loaded_tags s).
    destruct (in_dec string_dec tag (loaded_tags s)) as [Hin|_]; [contradiction|].
    cbn [slot_from]. unfold id_of. cbn [find TEXTURE_INFO.tag TEXTURE_INFO.ID].
    unfold compare_is_0. rewrite String.eqb_refl.
    split; [|reflexivity]. f_equal.
    unfold loaded_tags. rewrite length_map, (loaded_length Hok). lia.
  - intros Hold. rewrite Hslot, Hid, slot_from_app, id_of_app.
    fold (loaded_tags s).
    destruct (in_dec string_dec tag (loaded_tags s)) as [_|Hnot]; [|contradiction].
    rewrite FindTextureSlot_loaded, FindTextureID_loaded by exact Hok. split; reflexivity.
  - intros other Hne. rewrite Hslot, Hid, slot_from_app, id_of_app.
    fold (loaded_tags s).
    rewrite FindTextureSlot_loaded, FindTextureID_loaded by exact Hok.
    destruct (in_dec string_dec other (loaded_tags s)) as [Hin|Hnot]; [split; reflexivity|].
    cbn [slot_from]. unfold id_of at 1. cbn [find TEXTURE_INFO.tag].
    unfold compare_is_0 at 1 2.
    replace (String.eqb tag other) with false
      by (symmetry; apply String.eqb_neq; congruence).
    rewrite (slot_from_absent _ _ Hnot). split; [reflexivity|].
    unfold id_of.
    destruct (find (fun e => compare_is_0 (TEXTURE_INFO.tag e) other) (loaded s))
      as [e|] eqn:Hfind; [|reflexivity].
    apply find_some in Hfind. destruct Hfind as [Hin Htag].
    apply String.eqb_eq in Htag. contradiction Hnot.
    unfold loaded_tags. apply in_map_iff. now exists e.
Qed.

(** ** Deleting and binding *)

Lemma firstn_skipn_step (A : Type) (a : list A) (n : nat) (i : Z) (v : A) :
  array_get a i = Normal v ->
  firstn (S n) (skipn (Z.to_nat i) a) = v :: firstn n (skipn (Z.to_nat (i + 1)) a).
Proof.
  intros Hget. rewrite (array_get_skipn _ _ Hget). apply firstn_cons.
Qed.

Lemma delete_loop (s : State) :
  forall (n : nat) (i : Z) (cs : list Call),
    0 <= i -> i + Z.of_nat n <= Z.of_nat (List.length (m_textureIDs s)) ->
    for_from_M n i
      (fun i => mbind (read_texture i)
                  (fun e => call (glDeleteTextures (TEXTURE_INFO.ID e))))
      (mkState (m_textureIDs s) (m_loadedTextures s) (m_objectMaterials s) (cout s)
               (calls s ++ cs))
    = Normal (tt, mkState (m_textureIDs s) (m_loadedTextures s) (m_objectMaterials s)
                          (cout s)
                          (calls s ++ cs
                           ++ delete_calls (firstn n (skipn (Z.to_nat i) (m_textureIDs s))))).
Proof.
  induction n as [|n IH]; intros i cs Hi Hroom.
  - cbn [for_from_M firstn delete_calls map]. now rewrite app_nil_r.
  - destruct (@array_get_inside _ (m_textureIDs s) i) as [e He]; [lia|].
    rewrite (@firstn_skipn_step _ _ n _ _ He).
    cbn [for_from_M]. unfold mbind at 1 2, call at 1, read_texture at 1.
    cbn [m_textureIDs m_loadedTextures m_objectMaterials cout calls].
    rewrite He. cbn [bind m_textureIDs m_loadedTextures m_objectMaterials cout calls].
    rewrite <- app_assoc. rewrite (IH (i + 1) (cs ++ [glDeleteTextures (TEXTURE_INFO.ID e)]))
      by lia.
    cbn [delete_calls map]. repeat rewrite <- app_assoc. reflexivity.
Qed.

Lemma bind_loop (s : State) :
  forall (n : nat) (i : Z) (cs : list Call),
    0 <= i -> i + Z.of_nat n <= Z.of_nat (List.length (m_textureIDs s)) ->
    for_from_M n i
      (fun i => mbind (call (glActiveTexture i))
                  (fun _ => mbind (read_texture i)
                              (fun e => call (glBindTexture (TEXTURE_INFO.ID e)))))
      (mkState (m_textureIDs s) (m_loadedTextures s) (m_objectMaterials s) (cout s)
               (calls s ++ cs))
    = Normal (tt, mkState (m_textureIDs s) (m_loadedTextures s) (m_objectMaterials s)
                          (cout s)
                          (calls s ++ cs
                           ++ bind_calls (firstn n (skipn (Z.to_nat i) (m_textureIDs s))) i)).
Proof.
  induction n as [|n IH]; intros i cs Hi Hroom.
  - cbn [for_from_M firstn bind_calls]. now rewrite app_nil_r.
  - destruct (@array_get_inside _ (m_textureIDs s) i) as [e He]; [lia|].
    rewrite (@firstn_skipn_step _ _ n _ _ He).
    cbn [for_from_M]. unfold mbind at 1 2 3, call at 1 2, read_texture at 1.
    cbn [m_textureIDs m_loadedTextures m_objectMaterials cout calls].
    rewrite He. cbn [bind m_textureIDs m_loadedTextures m_objectMaterials cout calls].
    repeat rewrite <- app_assoc. cbn [app].
    rewrite (IH (i + 1) (cs ++ [glActiveTexture i; glBindTexture (TEXTURE_INFO.ID e)]))
      by lia.
    cbn [bind_calls]. repeat rewrite <- app_assoc. reflexivity.
Qed.

Lemma BindGLTextures_calls (s : State) :
  0 <= m_loadedTextures s <= Z.of_nat (List.length (m_textureIDs s)) ->
  BindGLTextures s
  = Normal (tt, mkState (m_textureIDs s) (m_loadedTextures s) (m_objectMaterials s) (cout s)
                        (calls s ++ bind_calls (loaded s) 0)).
Proof.
  intros Hn. unfold BindGLTextures, mbind at 1, get_loadedTextures.
  pose proof (@bind_loop s (Z.to_nat (m_loadedTextures s)) 0 []) as Hrun.
  rewrite app_nil_r in Hrun. cbn [app Z.to_nat skipn] in Hrun.
  destruct s as [ids n mats out cs]. cbn [m_textureIDs m_loadedTextures m_objectMaterials
                                           cout calls] in *.
  apply Hrun; lia.
Qed.

Lemma DestroyGLTextures_calls (s : State) :
  0 <= m_loadedTextures s <= Z.of_nat (List.length (m_textureIDs s)) ->
  DestroyGLTextures s
  = Normal (tt, mkState (m_textureIDs s) 0 (m_objectMaterials s) (cout s)
                        (calls s ++ delete_calls (loaded s))).
Proof.
  intros Hn. unfold DestroyGLTextures, mbind at 1, get_loadedTextures.
  pose proof (@delete_loop s (Z.to_nat (m_loadedTextures s)) 0 []) as Hrun.
  rewrite app_nil_r in Hrun. cbn [app Z.to_nat skipn] in Hrun.
  destruct s as [ids n mats out cs]. cbn [m_textureIDs m_loadedTextures m_objectMaterials
                                           cout calls] in *.
  unfold mbind at 1. rewrite Hrun by lia. reflexivity.
Qed.

(** X11. [DestroyGLTextures] on a registry with its 16 entries and between
    0 and 16 loaded textures: it hands the ID of every entry in use to
    [glDeleteTextures], in order and once each, and sets the counter to 0.
    The array is left as it was, stale IDs and tags included, but no
    lookup reaches them: [FindTextureSlot] and [FindTextureID] return -1
    for every tag, [BindGLTextures] binds nothing, and a second
    [DestroyGLTextures] deletes nothing. *)
Theorem destroyed_textures_are_not_found (s : State) :
  registry_ok s ->
  exists s',
    DestroyGLTextures s = Normal (tt, s')
    /\ calls s' = calls s ++ delete_calls (loaded s)
    /\ List.length (delete_calls (loaded s)) = Z.to_nat (m_loadedTextures s)
    /\ m_loadedTextures s' = 0
    /\ m_textureIDs s' = m_textureIDs s
    /\ m_objectMaterials s' = m_objectMaterials s
    /\ cout s' = cout s
    /\ (forall tag, FindTextureSlot tag s' = Normal (-1)
                    /\ FindTextureID tag s' = Normal (-1))
    /\ BindGLTextures s' = Normal (tt, s')
    /\ DestroyGLTextures s' = Normal (tt, s').
Proof.
  intros Hok. pose proof Hok as [Hlen Hn].
  assert (Hn' : 0 <= m_loadedTextures s <= Z.of_nat (List.length (m_textureIDs s)))
    by (rewrite Hlen; exact Hn).
  rewrite (DestroyGLTextures_calls s Hn').
  eexists. split; [reflexivity|].
  cbn [m_textureIDs m_loadedTextures m_objectMaterials cout calls].
  assert (Hok' : registry_ok (mkState (m_textureIDs s) 0 (m_objectMaterials s) (cout s)
                                      (calls s ++ delete_calls (loaded s)))).
  { split; [exact Hlen | cbn; lia]. }
  repeat match goal with |- _ /\ _ => split end; try reflexivity.
  - unfold delete_calls. rewrite length_map. apply loaded_length. exact Hok.
  - (* the loops of an emptied registry run no round *)
    intros tag. rewrite FindTextureSlot_loaded, FindTextureID_loaded by exact Hok'.
    split; reflexivity.
Qed.

(** ** The textures of the scene *)

Lemma loaded_same (s s' : State) :
  m_textureIDs s' = m_textureIDs s -> m_loadedTextures s' = m_loadedTextures s ->
  loaded s' = loaded s.
Proof.
  intros Hids Hn. unfold loaded. now rewrite Hids, Hn.
Qed.

Lemma loaded_of_cons (filename tag : string) (l : list (string * string)) :
  loaded_of decode ((filename, tag) :: l)
  = if loads decode filename then tag :: loaded_of decode l else loaded_of decode l.
Proof.
  unfold loaded_of. cbn [filter fst]. now destruct (loads decode filename).
Qed.

Lemma loaded_of_length (l : list (string * string)) :
  (List.length (loaded_of decode l) <= List.length l)%nat.
Proof.
  unfold loaded_of. rewrite length_map. apply filter_length_le.
Qed.

Lemma loaded_of_incl (l : list (string * string)) (tag : string) :
  In tag (loaded_of decode l) -> In tag (map snd l).
Proof.
  unfold loaded_of. intros Hin. apply in_map_iff in Hin. destruct Hin as [p [Htag Hp]].
  apply filter_In in Hp. apply in_map_iff. exists p. now split.
Qed.

(** The registry after the loads of a list, as the tags of those that
    succeed. *)
Lemma create_all_tags (l : list (string * string)) :
  forall s : State,
    0 <= m_loadedTextures s ->
    m_loadedTextures s + Z.of_nat (List.length l) <= Z.of_nat (List.length (m_textureIDs s)) ->
    exists s',
      (forall k, create_all decode fresh_texture l k s = k s')
      /\ List.length (m_textureIDs s') = List.length (m_textureIDs s)
      /\ m_loadedTextures s'
         = m_loadedTextures s + Z.of_nat (List.length (loaded_of decode l))
      /\ loaded_tags s' = loaded_tags s ++ loaded_of decode l.
Proof.
  induction l as [|[filename tag] l IH]; intros s Hpos Hroom.
  - exists s. cbn. rewrite app_nil_r. repeat split; lia.
  - cbn [List.length] in Hroom. rewrite loaded_of_cons.
    destruct (loads decode filename) eqn:Hloads.
    + destruct (@CreateGLTexture_registers decode fresh_texture filename tag s Hloads)
        as [s1 [Hrun [Hids [Hn _]]]]; [lia|].
      assert (Hloaded : loaded s1
                        = loaded s ++ [TEXTURE_INFO.mk tag (new_name fresh_texture filename s)])
        by (apply loaded_after_register; [lia | exact Hids | exact Hn]).
      destruct (IH s1) as [s' [Hk [Hl [Hc Ht]]]].
      * lia.
      * rewrite Hids, list_set_length. lia.
      * exists s'. split; [|split; [|split]].
        -- intros k. cbn [create_all]. unfold mbind at 1. rewrite Hrun. apply Hk.
        -- rewrite Hl, Hids. apply list_set_length.
        -- cbn [List.length]. lia.
        -- rewrite Ht. unfold loaded_tags. rewrite Hloaded, map_app, <- app_assoc. reflexivity.
    + destruct (@CreateGLTexture_rejects decode fresh_texture filename tag s Hloads)
        as [s1 [Hrun [Hids [Hn _]]]].
      destruct (IH s1) as [s' [Hk [Hl [Hc Ht]]]].
      * lia.
      * rewrite Hids. lia.
      * exists s'. split; [|split; [|split]].
        -- intros k. cbn [create_all]. unfold mbind at 1. rewrite Hrun. apply Hk.
        -- now rewrite Hl, Hids.
        -- lia.
        -- rewrite Ht. unfold loaded_tags. now rewrite (loaded_same _ _ Hids Hn).
Qed.

(** With distinct tags, the tag of a file that does not load is not among
    the loaded ones. *)
Lemma unloaded_tag_absent (l : list (string * string)) (filename tag : string) :
  distinct (map snd l) = true ->
  In (filename, tag) l -> loads decode filename = false ->
  ~ In tag (loaded_of decode l).
Proof.
  induction l as [|[f0 t0] l IH]; intros Hd Hin Hfail; [contradiction|].
  cbn [map snd distinct] in Hd. apply andb_true_iff in Hd. destruct Hd as [Hhead Hd].
  assert (Hfresh : ~ In t0 (map snd l)).
  { intros Hin0. apply negb_true_iff in Hhead.
    assert (Hex : existsb (String.eqb t0) (map snd l) = true).
    { apply existsb_exists. exists t0. split; [exact Hin0 | apply String.eqb_refl]. }
    congruence. }
  rewrite loaded_of_cons. destruct Hin as [Heq|Hin].
  - injection Heq as -> ->. rewrite Hfail.
    intros Hin. apply Hfresh. now apply loaded_of_incl.
  - assert (Hne : t0 <> tag).
    { intros ->. apply Hfresh. apply in_map_iff. now exists (filename, tag). }
    destruct (loads decode f0).
    + intros [Heq|Hin']; [contradiction|]. now apply (IH Hd Hin Hfail).
    + now apply IH.
Qed.

Lemma scene_tags_distinct : distinct (map snd scene_textures) = true.
Proof.
  vm_compute. reflexivity.
Qed.

Lemma scene_slots_in_order :
  map (fun tag => slot_from (map snd scene_textures) tag 0) (map snd scene_textures)
  = Zseq 0 16.
Proof.
  vm_compute. reflexivity.
Qed.

(** X12. The textures of the scene, from the constructor through
    [LoadSceneTextures] to [SetShaderTexture], for any files on disk.
    [LoadSceneTextures] returns; the entries in use are, in order, the
    tags of the files that loaded; and its last calls are those of
    [BindGLTextures]: unit i is made active and given the ID of entry i.
    [SetShaderTexture] then switches texturing on and sends as the sampler
    the position of the tag among the loaded ones, the unit its texture
    was bound to; without a shader manager it sends nothing.  A tag whose
    file did not load gets the sampler -1, texturing still switched on.
    When all 16 files load, the 16 tags get the samplers 0 to 15. *)
Theorem scene_tags_select_their_units :
  exists s',
    LoadSceneTextures decode fresh_texture SceneManager = Normal (tt, s')
    /\ registry_ok s'
    /\ loaded_tags s' = loaded_of decode scene_textures
    /\ (exists before, calls s' = before ++ bind_calls (loaded s') 0)
    /\ (forall tag,
          SetShaderTexture true tag s'
          = Normal [setIntValue "bUseTexture" 1;
                    setSampler2DValue "objectTexture"
                                      (slot_from (loaded_of decode scene_textures) tag 0)]
          /\ SetShaderTexture false tag s' = Normal [])
    /\ (forall tag,
          In tag (loaded_of decode scene_textures) ->
          exists e,
            nth_error (loaded s')
                      (Z.to_nat (slot_from (loaded_of decode scene_textures) tag 0)) = Some e
            /\ TEXTURE_INFO.tag e = tag)
    /\ (forall filename tag,
          In (filename, tag) scene_textures -> loads decode filename = false ->
          SetShaderTexture true tag s'
          = Normal [setIntValue "bUseTexture" 1; setSampler2DValue "objectTexture" (-1)])
    /\ ((forall p, In p scene_textures -> loads decode (fst p) = true) ->
        map (fun tag => slot_from (loaded_of decode scene_textures) tag 0)
            (map snd scene_textures)
        = Zseq 0 16).
Proof.
  rewrite LoadSceneTextures_create_all.
  destruct (@create_all_tags scene_textures SceneManager) as [s1 [Hk [Hl [Hc Ht]]]].
  { rewrite constructed_loaded. lia. }
  { rewrite constructed_loaded, constructed_slots, scene_textures_length.
    unfold TEXTURE_SLOTS. lia. }
  rewrite Hk. rewrite constructed_slots in Hl. rewrite constructed_loaded in Hc.
  change (loaded_tags SceneManager) with (@nil string) in Ht. cbn [app] in Ht.
  pose proof (loaded_of_length scene_textures) as Hle. rewrite scene_textures_length in Hle.
  assert (Hn1 : 0 <= m_loadedTextures s1 <= Z.of_nat (List.length (m_textureIDs s1))).
  { rewrite Hl, Hc. unfold TEXTURE_SLOTS. lia. }
  rewrite (BindGLTextures_calls s1 Hn1).
  set (s' := mkState (m_textureIDs s1) (m_loadedTextures s1) (m_objectMaterials s1) (cout s1)
                     (calls s1 ++ bind_calls (loaded s1) 0)).
  assert (Hsame : loaded s' = loaded s1) by reflexivity.
  assert (Hok' : registry_ok s').
  { split; [exact Hl | cbn [s' m_loadedTextures]; rewrite Hc; unfold TEXTURE_SLOTS; lia]. }
  assert (Htags : loaded_tags s' = loaded_of decode scene_textures) by exact Ht.
  assert (Hsend : forall tag,
            SetShaderTexture true tag s'
            = Normal [setIntValue "bUseTexture" 1;
                      setSampler2DValue "objectTexture"
                                        (slot_from (loaded_of decode scene_textures) tag 0)]).
  { intros tag. unfold SetShaderTexture.
    rewrite FindTextureSlot_loaded by exact Hok'. rewrite Htags. reflexivity. }
  exists s'. split; [reflexivity|]. split; [exact Hok'|]. split; [exact Htags|].
  split; [exists (calls s1); reflexivity|].
  split; [intros tag; split; [apply Hsend | reflexivity]|].
  split; [|split].
  - intros tag Hin.
    pose proof (slot_from_nth _ _ Hin 0) as Hnth. rewrite Z.sub_0_r in Hnth.
    rewrite <- Htags in Hnth at 1. unfold loaded_tags in Hnth.
    rewrite nth_error_map in Hnth.
    destruct (nth_error (loaded s')
                (Z.to_nat (slot_from (loaded_of decode scene_textures) tag 0))) as [e|];
      [|discriminate].
    exists e. split; [reflexivity|]. now injection Hnth.
  - intros filename tag Hin Hfail. rewrite Hsend.
    rewrite (slot_from_absent _ _ (unloaded_tag_absent _ _ _ scene_tags_distinct Hin Hfail)).
    reflexivity.
  - intros Hall.
    assert (Hfilter : loaded_of decode scene_textures = map snd scene_textures).
    { unfold loaded_of. f_equal. apply forallb_filter_id. apply forallb_forall. exact Hall. }
    rewrite Hfilter. apply scene_slots_in_order.
Qed.

(** ** Materials *)

(** X13. [SetShaderMaterial].  With an empty table nothing is sent.  With
    a table that is not empty the three material values are always sent,
    because [FindMaterial] returns true whatever the tag: those of the
    first material carrying the tag, or, when none does, whatever the
    local [material] held when it was declared.  The method calls through
    [m_pShaderManager] without the test for NULL that its siblings make:
    with a table that is not empty and no shader manager it dereferences
    the NULL pointer. *)
Theorem shader_material_sent_without_a_match
  (materialTag : string) (material : OBJECT_MATERIAL.t) (s : State) :
  let sent (m : OBJECT_MATERIAL.t) :=
    [setVec3Value "material.diffuseColor" (OBJECT_MATERIAL.diffuseColor m);
     setVec3Value "material.specularColor" (OBJECT_MATERIAL.specularColor m);
     setFloatValue "material.shininess" (OBJECT_MATERIAL.shininess m)] in
  (m_objectMaterials s = [] ->
   forall pShaderManager,
     SetShaderMaterial pShaderManager materialTag material s = Returns []) /\
  (m_objectMaterials s <> [] ->
   SetShaderMaterial false materialTag material s = NullDereference /\
   (forall m, find (has_tag materialTag) (m_objectMaterials s) = Some m ->
              SetShaderMaterial true materialTag material s = Returns (sent m)) /\
   ((forall m, In m (m_objectMaterials s) -> OBJECT_MATERIAL.tag m <> materialTag) ->
    SetShaderMaterial true materialTag material s = Returns (sent material))).
Proof.
  intros sent. unfold SetShaderMaterial, FindMaterial.
  destruct (m_objectMaterials s) as [|m0 materials] eqn:Hmats.
  - split; [|intros Hne; contradiction Hne; reflexivity].
    intros _ pShaderManager. reflexivity.
  - split; [discriminate|]. intros _.
    replace (0 <? Z.of_nat (List.length (m0 :: materials))) with true
      by (symmetry; apply Z.ltb_lt; cbn [List.length]; lia).
    replace (Z.of_nat (List.length (m0 :: materials)) =? 0) with false
      by (symmetry; apply Z.eqb_neq; cbn [List.length]; lia).
    rewrite (@FindMaterial_loop_find (m0 :: materials) materialTag material
               (Z.to_nat (Z.of_nat (List.length (m0 :: materials)) - 0)) 0) by lia.
    cbn [bind Z.to_nat skipn].
    split; [reflexivity|]. split.
    + intros m ->. reflexivity.
    + intros Hnone.
      destruct (find (has_tag materialTag) (m0 :: materials)) as [m|] eqn:Hfind;
        [|reflexivity].
      apply find_some in Hfind. destruct Hfind as [Hin Htag].
      apply String.eqb_eq in Htag. now apply Hnone in Hin.
Qed.

End Registry.

Section RegistryWitnesses.

Import Cxx SceneManager.
Local Open Scope string_scope.
Local Open Scope Z_scope.
Local Open Scope list_scope.

(** A first texture, loaded into the fresh scene manager. *)
Lemma created_texture_is_found_witness :
  let decode := fun _ : string => Some (mkImage 64 64 4) in
  let fresh_texture := fun cs : list Call => Z.of_nat (List.length cs) in
  let s := SceneManager in
  exists s',
    CreateGLTexture decode fresh_texture "textures/floor.png" "floor" s = Normal (true, s')
    /\ registry_ok s'
    /\ loaded s'
       = loaded s
         ++ [TEXTURE_INFO.mk "floor" (new_name fresh_texture "textures/floor.png" s)]
    /\ (~ In "floor" (loaded_tags s) ->
        FindTextureSlot "floor" s' = Normal (m_loadedTextures s)
        /\ FindTextureID "floor" s'
           = Normal (int_of_GLuint (new_name fresh_texture "textures/floor.png" s)))
    /\ (In "floor" (loaded_tags s) ->
        FindTextureSlot "floor" s' = FindTextureSlot "floor" s
        /\ FindTextureID "floor" s' = FindTextureID "floor" s)
    /\ (forall other, other <> "floor" ->
        FindTextureSlot other s' = FindTextureSlot other s
        /\ FindTextureID other s' = FindTextureID other s).
Proof.
  cbv zeta.
  apply (created_texture_is_found
           (fun _ : string => Some (mkImage 64 64 4))
           (fun cs : list Call => Z.of_nat (List.length cs))
           "textures/floor.png" "floor" (s := SceneManager)).
  - split; [reflexivity | cbn; lia].
  - reflexivity.
  - reflexivity.
Defined.

(** A registry with two textures loaded. *)
Lemma destroyed_textures_are_not_found_witness :
  let s := mkState (TEXTURE_INFO.mk "floor" 1 :: TEXTURE_INFO.mk "wallpaper" 2
                    :: repeat (TEXTURE_INFO.mk "/0" (GLuint_of (-1))) 14)
                   2 [] [] [] in
  exists s',
    DestroyGLTextures s = Normal (tt, s')
    /\ calls s' = calls s ++ delete_calls (loaded s)
    /\ List.length (delete_calls (loaded s)) = Z.to_nat (m_loadedTextures s)
    /\ m_loadedTextures s' = 0
    /\ m_textureIDs s' = m_textureIDs s
    /\ m_objectMaterials s' = m_objectMaterials s
    /\ cout s' = cout s
    /\ (forall tag, FindTextureSlot tag s' = Normal (-1)
                    /\ FindTextureID tag s' = Normal (-1))
    /\ BindGLTextures s' = Normal (tt, s')
    /\ DestroyGLTextures s' = Normal (tt, s').
Proof.
  cbv zeta. apply destroyed_textures_are_not_found.
  split; [reflexivity | cbn; lia].
Defined.

End RegistryWitnesses.

(* ===================================================================== *)
(** * The camera through runs of events *)
(* ===================================================================== *)

Section Runs.

Import Ieee ViewManager.

Variables sinf cosf : float -> float.

(** An invariant of the state that the constructor establishes and every
    event preserves holds after every run. *)
Lemma run_invariant (I : State -> Prop) (allowed : Event -> Prop) :
  (forall e s, allowed e -> I s -> I (handle sinf cosf e s)) ->
  forall events s, Forall allowed events -> I s -> I (run sinf cosf events s).
Proof.
  intros Hstep events. unfold run.
  induction events as [|e events IH]; intros s Hall Hs; cbn [fold_left].
  - exact Hs.
  - inversion Hall as [|e' l He Hrest]; subst. apply IH; [exact Hrest|].
    apply Hstep; assumption.
Qed.

(** ** What the keys and the frame leave alone *)

(** A field of the camera that moving and the view keys preserve. *)
Lemma ProcessKeyboardEvents_keeps (A : Type) (field : Camera.t -> A) (pressed : Key -> bool)
  (s : State) :
  (forall c v, field (Camera.set_Position c v) = field c) ->
  (forall c v, field (Camera.set_Front c v) = field c) ->
  (forall c v, field (Camera.set_Up c v) = field c) ->
  (forall c v, field (Camera.set_Zoom c v) = field c) ->
  field (g_pCamera (ProcessKeyboardEvents pressed s)) = field (g_pCamera s).
Proof.
  intros Hp Hf Hu Hz.
  assert (Hmove : forall direction s,
            field (g_pCamera (move direction s)) = field (g_pCamera s)).
  { intros direction s0. unfold move. cbn [set_camera g_pCamera].
    destruct direction; cbn [Camera.ProcessKeyboard]; apply Hp. }
  assert (Hlook : forall position up front s,
            field (g_pCamera (look position up front s)) = field (g_pCamera s)).
  { intros position up front s0. unfold look. cbn [set_camera g_pCamera].
    now rewrite Hf, Hu, Hp. }
  unfold ProcessKeyboardEvents. cbv zeta.
  rewrite (@if_pressed_keeps _ (fun s => field (g_pCamera s)))
    by (intros s0; cbn [set_camera g_pCamera]; rewrite Hz, Hlook; reflexivity).
  do 3 rewrite (@if_pressed_keeps _ (fun s => field (g_pCamera s)))
    by (intros s0; cbv zeta; rewrite Hlook; reflexivity).
  do 6 rewrite (@if_pressed_keeps _ (fun s => field (g_pCamera s)))
    by (intros s0; apply Hmove).
  rewrite (@if_pressed_keeps _ (fun s => field (g_pCamera s))) by reflexivity.
  reflexivity.
Qed.

Lemma PrepareSceneView_camera (glfwGetTime : double) (pressed : Key -> bool) (s : State) :
  g_pCamera (PrepareSceneView glfwGetTime pressed s)
  = g_pCamera (polled glfwGetTime pressed s).
Proof.
  unfold PrepareSceneView. cbv zeta. fold (polled glfwGetTime pressed s).
  destruct (m_pShaderManager (polled glfwGetTime pressed s)); reflexivity.
Qed.

Lemma polled_keeps (A : Type) (field : Camera.t -> A) (glfwGetTime : double)
  (pressed : Key -> bool) (s : State) :
  (forall c v, field (Camera.set_Position c v) = field c) ->
  (forall c v, field (Camera.set_Front c v) = field c) ->
  (forall c v, field (Camera.set_Up c v) = field c) ->
  (forall c v, field (Camera.set_Zoom c v) = field c) ->
  field (g_pCamera (PrepareSceneView glfwGetTime pressed s)) = field (g_pCamera s).
Proof.
  intros Hp Hf Hu Hz. rewrite PrepareSceneView_camera. unfold polled.
  now rewrite ProcessKeyboardEvents_keeps.
Qed.

Lemma ProcessMouseMovement_rest (xoffset yoffset : float) (b : bool) (c : Camera.t) :
  let c' := Camera.ProcessMouseMovement sinf cosf xoffset yoffset b c in
  Camera.Zoom c' = Camera.Zoom c
  /\ Camera.MovementSpeed c' = Camera.MovementSpeed c
  /\ Camera.MouseSensitivity c' = Camera.MouseSensitivity c
  /\ Camera.WorldUp c' = Camera.WorldUp c
  /\ Camera.Position c' = Camera.Position c.
Proof.
  unfold Camera.ProcessMouseMovement. cbv zeta. destruct b;
    repeat match goal with |- context [if ?t then _ else _] => destruct t end;
    repeat split; reflexivity.
Qed.

Lemma ProcessKeyboardEvents_Zoom (pressed : Key -> bool) (s : State) :
  Camera.Zoom (g_pCamera (ProcessKeyboardEvents pressed s))
  = if pressed GLFW_KEY_P then of_int 80 else Camera.Zoom (g_pCamera s).
Proof.
  assert (Hmove : forall direction s,
            Camera.Zoom (g_pCamera (move direction s)) = Camera.Zoom (g_pCamera s)).
  { intros direction s0. unfold move. cbn [set_camera g_pCamera].
    now destruct direction. }
  unfold ProcessKeyboardEvents. cbv zeta. unfold if_pressed at 1.
  destruct (pressed GLFW_KEY_P); [reflexivity|].
  do 3 rewrite (@if_pressed_keeps _ (fun s => Camera.Zoom (g_pCamera s))) by reflexivity.
  do 6 rewrite (@if_pressed_keeps _ (fun s => Camera.Zoom (g_pCamera s)))
    by (intros s0; apply Hmove).
  rewrite (@if_pressed_keeps _ (fun s => Camera.Zoom (g_pCamera s))) by reflexivity.
  reflexivity.
Qed.

(** The camera and the cursor after a mouse movement: the offsets are
    taken from the last position, which on the first movement is the new
    one. *)
Lemma Mouse_Position_Callback_camera (xMousePos yMousePos : double) (s : State) :
  let lastX := if gFirstMouse s then to_float xMousePos else gLastX s in
  let lastY := if gFirstMouse s then to_float yMousePos else gLastY s in
  g_pCamera (Mouse_Position_Callback sinf cosf xMousePos yMousePos s)
  = Camera.ProcessMouseMovement sinf cosf
      (to_float (sub_double xMousePos (to_double lastX)))
      (to_float (sub_double (to_double lastY) yMousePos))
      true (g_pCamera s).
Proof.
  unfold Mouse_Position_Callback. destruct (gFirstMouse s); reflexivity.
Qed.

Lemma Mouse_Position_Callback_cursor (xMousePos yMousePos : double) (s : State) :
  let s' := Mouse_Position_Callback sinf cosf xMousePos yMousePos s in
  gLastX s' = to_float xMousePos /\ gLastY s' = to_float yMousePos
  /\ gFirstMouse s' = false.
Proof.
  unfold Mouse_Position_Callback. cbv zeta.
  destruct (gFirstMouse s) eqn:Hfirst; cbn [set_camera set_mouse gLastX gLastY gFirstMouse];
    rewrite ?Hfirst; repeat split; reflexivity.
Qed.

(** ** The zoom *)

Lemma handle_Zoom (e : Event) (s : State) :
  Camera.Zoom (g_pCamera (handle sinf cosf e s)) = Camera.Zoom (g_pCamera s)
  \/ Camera.Zoom (g_pCamera (handle sinf cosf e s)) = of_int 45
  \/ Camera.Zoom (g_pCamera (handle sinf cosf e s)) = of_int 80.
Proof.
  destruct e as [button action mods|width height|xOffset yOffset|xMousePos yMousePos
                 |time pressed]; cbn [handle].
  - unfold Mouse_Button_Callback.
    repeat match goal with |- context [if ?t then _ else _] => destruct t end;
      cbn [set_camera g_pCamera Camera.set_Zoom Camera.Zoom]; auto.
  - left. reflexivity.
  - left. unfold Mouse_Scroll_Wheel_Callback. cbv zeta.
    repeat match goal with |- context [if ?t then _ else _] => destruct t end; reflexivity.
  - left. rewrite Mouse_Position_Callback_camera.
    apply ProcessMouseMovement_rest.
  - rewrite PrepareSceneView_camera. unfold polled. rewrite ProcessKeyboardEvents_Zoom.
    destruct (pressed GLFW_KEY_P); [right; right; reflexivity | left; reflexivity].
Qed.

(** X14. The zoom takes two values only.  From the constructor on, after
    every run of callbacks and frames, [Zoom] is 45 or 80, whatever the
    events: the right mouse button toggles between the two and the P key
    sets 80.  A press of the right button is what
    [Camera::ProcessMousePress] does for that button; any other button or
    action changes nothing.  The projection of a frame is therefore built
    from finite numbers: the orthographic bounds divide by 90 or 160,
    never by 0. *)
Theorem zoom_is_45_or_80 :
  (forall pShaderManager events,
     let s := run sinf cosf events (ViewManager sinf cosf pShaderManager) in
     (Camera.Zoom (g_pCamera s) = of_int 45 \/ Camera.Zoom (g_pCamera s) = of_int 80)
     /\ match projection_of s with
        | glm_perspective fovy aspect zNear zFar => is_finite fovy = true
        | glm_ortho l r b t zNear zFar =>
            is_finite l = true /\ is_finite r = true
            /\ is_finite b = true /\ is_finite t = true
        end) /\
  (forall mods s,
     Mouse_Button_Callback GLFW_MOUSE_BUTTON_RIGHT GLFW_PRESS mods s
     = set_camera s (Camera.ProcessMousePress false true (g_pCamera s))) /\
  (forall mods s,
     Camera.Zoom (g_pCamera s) = of_int 80 ->
     let s1 := Mouse_Button_Callback GLFW_MOUSE_BUTTON_RIGHT GLFW_PRESS mods s in
     let s2 := Mouse_Button_Callback GLFW_MOUSE_BUTTON_RIGHT GLFW_PRESS mods s1 in
     Camera.Zoom (g_pCamera s1) = of_int 45 /\ Camera.Zoom (g_pCamera s2) = of_int 80) /\
  (forall button action mods s,
     button <> GLFW_MOUSE_BUTTON_RIGHT \/ action <> GLFW_PRESS ->
     Mouse_Button_Callback button action mods s = s).
Proof.
  split; [|split; [|split]].
  - intros pShaderManager events s.
    assert (Hzoom : Camera.Zoom (g_pCamera s) = of_int 45
                    \/ Camera.Zoom (g_pCamera s) = of_int 80).
    { subst s.
      apply (@run_invariant
               (fun s => Camera.Zoom (g_pCamera s) = of_int 45
                         \/ Camera.Zoom (g_pCamera s) = of_int 80)
               (fun _ => True)).
      - intros e s _ Hs. destruct (handle_Zoom e s) as [H|[H|H]]; rewrite H; auto.
      - apply Forall_forall. intros e _. exact I.
      - right. reflexivity. }
    split; [exact Hzoom|].
    unfold projection_of. cbv zeta.
    destruct (Bool.eqb (bOrthographicProjection s) false);
      destruct Hzoom as [-> | ->]; vm_compute; auto.
  - intros mods s. unfold Mouse_Button_Callback, Camera.ProcessMousePress.
    cbn [GLFW_MOUSE_BUTTON_RIGHT GLFW_PRESS Z.eqb Pos.eqb andb negb].
    repeat match goal with |- context [if ?t then _ else _] => destruct t end;
      try reflexivity.
    destruct s; reflexivity.
  - intros mods s Hzoom. cbv zeta. unfold Mouse_Button_Callback.
    cbn [GLFW_MOUSE_BUTTON_RIGHT GLFW_PRESS Z.eqb Pos.eqb andb negb].
    rewrite Hzoom. cbn [set_camera g_pCamera Camera.set_Zoom Camera.Zoom].
    change (eqb (of_int 80) (of_int 45)) with false.
    cbn [set_camera g_pCamera Camera.set_Zoom Camera.Zoom negb].
    change (eqb (of_int 45) (of_int 45)) with true.
    cbn [set_camera g_pCamera Camera.set_Zoom Camera.Zoom negb]. split; reflexivity.
  - intros button action mods s Hother. unfold Mouse_Button_Callback.
    destruct (Z.eqb_spec button GLFW_MOUSE_BUTTON_RIGHT) as [Hb|Hb];
      destruct (Z.eqb_spec action GLFW_PRESS) as [Ha|Ha]; try reflexivity.
    destruct Hother; contradiction.
Qed.

(** ** The movement speed *)

Lemma round_to_not_nan (p e : Z) (x : spec_float) :
  is_nan x = false -> is_nan (round_to p e x) = false.
Proof.
  destruct x; cbn [round_to is_nan]; intros H; try exact H.
  apply binary_normalize_not_nan.
Qed.

(** The two tests on the speed, on a speed that is not NaN. *)
Lemma clamp_speed_not_nan (p : float) :
  is_nan p = false ->
  let p1 := if ltb p (of_int 1) then of_int 1 else p in
  let p2 := if ltb (of_int 45) p1 then of_int 45 else p1 in
  leb (of_int 1) p2 = true /\ leb p2 (of_int 45) = true.
Proof.
  intros Hp. cbv zeta.
  destruct (ltb p (of_int 1)) eqn:Hlow.
  - split; reflexivity.
  - pose proof (@not_ltb_leb p (of_int 1) Hp eq_refl Hlow) as Hle.
    destruct (ltb (of_int 45) p) eqn:Hhigh.
    + split; reflexivity.
    + split; [exact Hle|]. apply not_ltb_leb; [reflexivity | exact Hp | exact Hhigh].
Qed.

Lemma speed_clamped_finite (c : Camera.t) :
  speed_clamped c -> is_finite (Camera.MovementSpeed c) = true.
Proof.
  intros [Hlow Hhigh]. destruct (Camera.MovementSpeed c) as [s|[|]| |s m e]; try reflexivity;
    cbn in Hlow, Hhigh; discriminate.
Qed.

Lemma Mouse_Scroll_Wheel_Callback_speed (xOffset yOffset : double) (s : State) :
  Camera.MovementSpeed (g_pCamera (Mouse_Scroll_Wheel_Callback xOffset yOffset s))
  = let p := add (Camera.MovementSpeed (g_pCamera s)) (to_float yOffset) in
    let p1 := if ltb p (of_int 1) then of_int 1 else p in
    if ltb (of_int 45) p1 then of_int 45 else p1.
Proof.
  unfold Mouse_Scroll_Wheel_Callback. cbv zeta.
  cbn [set_camera g_pCamera Camera.set_MovementSpeed Camera.MovementSpeed].
  destruct (ltb (add (Camera.MovementSpeed (g_pCamera s)) (to_float yOffset)) (of_int 1));
    cbn [Camera.set_MovementSpeed Camera.MovementSpeed];
    match goal with |- context [if ?t then _ else _] => destruct t end; reflexivity.
Qed.

Lemma handle_speed (e : Event) (s : State) :
  scroll_defined e -> speed_clamped (g_pCamera s) ->
  speed_clamped (g_pCamera (handle sinf cosf e s)).
Proof.
  unfold speed_clamped at 2.
  destruct e as [button action mods|width height|xOffset yOffset|xMousePos yMousePos
                 |time pressed]; cbn [handle scroll_defined]; intros He Hs.
  - unfold Mouse_Button_Callback.
    repeat match goal with |- context [if ?t then _ else _] => destruct t end; exact Hs.
  - exact Hs.
  - rewrite Mouse_Scroll_Wheel_Callback_speed. apply clamp_speed_not_nan.
    apply add_not_nan; [now apply speed_clamped_finite | now apply round_to_not_nan].
  - rewrite Mouse_Position_Callback_camera.
    destruct (ProcessMouseMovement_rest
                (to_float (sub_double xMousePos
                             (to_double (if gFirstMouse s then to_float xMousePos
                                         else gLastX s))))
                (to_float (sub_double
                             (to_double (if gFirstMouse s then to_float yMousePos
                                         else gLastY s)) yMousePos))
                true (g_pCamera s)) as [_ [Hspeed _]].
    cbv zeta in Hspeed. rewrite Hspeed. exact Hs.
  - rewrite (@polled_keeps _ Camera.MovementSpeed) by reflexivity. exact Hs.
Qed.

(** X15. The movement speed stays clamped.  From the constructor on,
    after every run of callbacks and frames whose scroll offsets are
    numbers (infinite ones included), [MovementSpeed] lies between 1 and
    45.  The scroll callback adds the offset to the speed and then clamps
    it with two comparisons; a NaN offset gets through both and leaves the
    speed NaN. *)
Theorem movement_speed_stays_clamped (pShaderManager : bool) (events : list Event) :
  Forall scroll_defined events ->
  speed_clamped (g_pCamera (run sinf cosf events (ViewManager sinf cosf pShaderManager)))
  /\ (forall xOffset yOffset s,
        Camera.MovementSpeed (g_pCamera (Mouse_Scroll_Wheel_Callback xOffset yOffset s))
        = let p := add (Camera.MovementSpeed (g_pCamera s)) (to_float yOffset) in
          let p1 := if ltb p (of_int 1) then of_int 1 else p in
          if ltb (of_int 45) p1 then of_int 45 else p1)
  /\ (forall xOffset s,
        is_nan (Camera.MovementSpeed
                  (g_pCamera (Mouse_Scroll_Wheel_Callback xOffset S754_nan s))) = true).
Proof.
  intros Hall. split; [|split].
  - apply (@run_invariant (fun s => speed_clamped (g_pCamera s)) scroll_defined).
    + intros e s. apply handle_speed.
    + exact Hall.
    + split; reflexivity.
  - apply Mouse_Scroll_Wheel_Callback_speed.
  - intros xOffset s. rewrite Mouse_Scroll_Wheel_Callback_speed. cbv zeta.
    replace (add (Camera.MovementSpeed (g_pCamera s)) (to_float S754_nan)) with S754_nan
      by (cbn [to_float round_to]; unfold add; now destruct (Camera.MovementSpeed (g_pCamera s))).
    reflexivity.
Qed.

(** ** The pitch *)

Lemma sub_double_not_nan (a b : double) :
  is_nan a = false -> is_finite b = true -> is_nan (sub_double a b) = false.
Proof.
  destruct a as [sa|sa| |sa ma ea], b as [sb|sb| |sb mb eb]; cbn;
    try discriminate; intros _ _; try reflexivity.
  - destruct sa, sb; reflexivity.
  - apply binary_normalize_not_nan.
Qed.

Lemma mul_SENSITIVITY_not_nan (a : float) :
  is_nan a = false -> is_nan (mul a Camera.SENSITIVITY) = false.
Proof.
  assert (Hs : exists m e, Camera.SENSITIVITY = S754_finite false m e)
    by (eexists _, _; vm_compute; reflexivity).
  destruct Hs as [m [e ->]].
  destruct a as [sa|sa| |sa ma ea]; cbn; try discriminate; intros _; try reflexivity.
  apply binary_round_aux_not_nan. lia.
Qed.

Lemma handle_pitch (e : Event) (s : State) :
  cursor_finite e -> pitch_invariant s -> pitch_invariant (handle sinf cosf e s).
Proof.
  unfold pitch_invariant.
  destruct e as [button action mods|width height|xOffset yOffset|xMousePos yMousePos
                 |time pressed]; cbn [handle cursor_finite]; intros He [Hp [Hs Hy]].
  - unfold Mouse_Button_Callback.
    repeat match goal with |- context [if ?t then _ else _] => destruct t end;
      repeat split; try exact Hs; try exact Hy; apply Hp.
  - repeat split; try exact Hs; try exact Hy; apply Hp.
  - unfold Mouse_Scroll_Wheel_Callback. cbv zeta.
    repeat match goal with |- context [if ?t then _ else _] => destruct t end;
      repeat split; try exact Hs; try exact Hy; apply Hp.
  - assert (Hy' : is_nan (to_float yMousePos) = false).
    { apply round_to_not_nan. now destruct yMousePos. }
    destruct (Mouse_Position_Callback_cursor xMousePos yMousePos s) as [_ [HlastY _]].
    cbv zeta in HlastY. rewrite HlastY, Mouse_Position_Callback_camera. cbv zeta.
    split; [|split; [|exact Hy']].
    + unfold Camera.pitch_constrained.
      rewrite ProcessMouseMovement_Pitch. apply constrain_not_nan.
      unfold Camera.updated_pitch. apply add_not_nan.
      * now apply pitch_constrained_finite.
      * rewrite Hs. apply mul_SENSITIVITY_not_nan, round_to_not_nan, sub_double_not_nan;
          [|exact He].
        apply round_to_not_nan. destruct (gFirstMouse s); assumption.
    + rewrite ProcessMouseMovement_MouseSensitivity. exact Hs.
  - unfold Camera.pitch_constrained in *.
    rewrite (@polled_keeps _ Camera.Pitch) by reflexivity.
    rewrite (@polled_keeps _ Camera.MouseSensitivity) by reflexivity.
    split; [|split; [exact Hs|]].
    + exact Hp.
    + unfold PrepareSceneView. cbv zeta.
      match goal with |- context [if ?t then _ else _] => destruct t end;
        cbn [send gLastY]; unfold ProcessKeyboardEvents; cbv zeta;
        do 11 rewrite (@if_pressed_keeps _ gLastY) by reflexivity; exact Hy.
Qed.

(** X16. The pitch stays constrained through the view manager.  From the
    constructor on, after every run of callbacks and frames in which the
    cursor heights handed to [Mouse_Position_Callback] are finite doubles,
    the pitch of the camera lies between -89 and 89: the offset computed
    from the last cursor height is a number, the sensitivity is still the
    constant the camera was created with, and no other event touches the
    pitch. *)
Theorem pitch_constrained_through_runs (pShaderManager : bool) (events : list Event) :
  Forall cursor_finite events ->
  let s := run sinf cosf events (ViewManager sinf cosf pShaderManager) in
  Camera.pitch_constrained (g_pCamera s)
  /\ Camera.MouseSensitivity (g_pCamera s) = Camera.SENSITIVITY
  /\ is_nan (gLastY s) = false.
Proof.
  intros Hall s. subst s.
  apply (@run_invariant pitch_invariant cursor_finite).
  - intros e s. apply handle_pitch.
  - exact Hall.
  - split; [split; reflexivity | split; reflexivity].
Qed.

(** ** Keys and the orientation *)

Lemma ProcessMouseMovement_orientation (xoffset yoffset : float) (b : bool)
  (c c' : Camera.t) :
  Camera.Yaw c' = Camera.Yaw c -> Camera.Pitch c' = Camera.Pitch c ->
  Camera.WorldUp c' = Camera.WorldUp c ->
  Camera.MouseSensitivity c' = Camera.MouseSensitivity c ->
  let r' := Camera.ProcessMouseMovement sinf cosf xoffset yoffset b c' in
  let r := Camera.ProcessMouseMovement sinf cosf xoffset yoffset b c in
  Camera.Front r' = Camera.Front r /\ Camera.Up r' = Camera.Up r
  /\ Camera.Right r' = Camera.Right r
  /\ Camera.Yaw r' = Camera.Yaw r /\ Camera.Pitch r' = Camera.Pitch r.
Proof.
  destruct c as [position front up right worldUp yaw pitch speed sensitivity zoom].
  destruct c' as [position' front' up' right' worldUp' yaw' pitch' speed' sensitivity' zoom'].
  cbn [Camera.Yaw Camera.Pitch Camera.WorldUp Camera.MouseSensitivity].
  intros -> -> -> ->. cbv zeta. unfold Camera.ProcessMouseMovement. cbv zeta.
  cbn [Camera.Yaw Camera.Pitch Camera.WorldUp Camera.MouseSensitivity
       Camera.set_Yaw Camera.set_Pitch].
  destruct b; [|repeat split; reflexivity].
  destruct (ltb (of_int 89) (add pitch (mul yoffset sensitivity)));
    cbn [Camera.Pitch Camera.set_Pitch Camera.set_Yaw];
    match goal with |- context [if ltb ?a ?b then _ else _] => destruct (ltb a b) end;
    repeat split; reflexivity.
Qed.

Lemma PrepareSceneView_cursor (glfwGetTime : double) (pressed : Key -> bool) (s : State) :
  let s' := PrepareSceneView glfwGetTime pressed s in
  gLastX s' = gLastX s /\ gLastY s' = gLastY s /\ gFirstMouse s' = gFirstMouse s.
Proof.
  unfold PrepareSceneView. cbv zeta.
  match goal with |- context [if ?t then _ else _] => destruct t end;
    cbn [send gLastX gLastY gFirstMouse]; unfold ProcessKeyboardEvents; cbv zeta;
    do 11 rewrite (@if_pressed_keeps _ gLastX) by reflexivity;
    do 11 rewrite (@if_pressed_keeps _ gLastY) by reflexivity;
    do 11 rewrite (@if_pressed_keeps _ gFirstMouse) by reflexivity;
    repeat split; reflexivity.
Qed.

(** X17. The keys do not turn the camera for longer than until the next
    mouse movement.  A frame, whatever keys are down, leaves [Yaw] and
    [Pitch] as they were: O, I, U and P write [Front] and [Up] directly.
    [ProcessMouseMovement] recomputes [Front], [Right] and [Up] from the
    two angles, so after the next mouse movement the three vectors are
    what they would have been had the frame not happened: the direction a
    view key has set is dropped. *)
Theorem view_keys_do_not_outlast_mouse_movement
  (glfwGetTime : double) (pressed : Key -> bool) (xMousePos yMousePos : double) (s : State) :
  let s1 := PrepareSceneView glfwGetTime pressed s in
  let after := g_pCamera (Mouse_Position_Callback sinf cosf xMousePos yMousePos s1) in
  let plain := g_pCamera (Mouse_Position_Callback sinf cosf xMousePos yMousePos s) in
  Camera.Yaw (g_pCamera s1) = Camera.Yaw (g_pCamera s)
  /\ Camera.Pitch (g_pCamera s1) = Camera.Pitch (g_pCamera s)
  /\ Camera.Front after = Camera.Front plain
  /\ Camera.Up after = Camera.Up plain
  /\ Camera.Right after = Camera.Right plain
  /\ Camera.Yaw after = Camera.Yaw plain
  /\ Camera.Pitch after = Camera.Pitch plain.
Proof.
  intros s1 after plain.
  assert (Hyaw : Camera.Yaw (g_pCamera s1) = Camera.Yaw (g_pCamera s))
    by (subst s1; now rewrite (@polled_keeps _ Camera.Yaw)).
  assert (Hpitch : Camera.Pitch (g_pCamera s1) = Camera.Pitch (g_pCamera s))
    by (subst s1; now rewrite (@polled_keeps _ Camera.Pitch)).
  split; [exact Hyaw|]. split; [exact Hpitch|].
  subst after plain. rewrite !Mouse_Position_Callback_camera. cbv zeta.
  destruct (PrepareSceneView_cursor glfwGetTime pressed s) as [HX [HY HF]].
  fold s1 in HX, HY, HF. rewrite HX, HY, HF.
  apply ProcessMouseMovement_orientation; try assumption.
  - subst s1. now rewrite (@polled_keeps _ Camera.WorldUp).
  - subst s1. now rewrite (@polled_keeps _ Camera.MouseSensitivity).
Qed.

Lemma if_pressed_true (pressed : Key -> bool) (key : Key) (action : State -> State)
  (s : State) :
  pressed key = true -> if_pressed pressed key action s = action s.
Proof.
  intros H. unfold if_pressed. now rewrite H.
Qed.

(** X18. The P key restores the view the program starts with.  When P is
    down, polling the keyboard leaves the position, the front and up
    vectors and the zoom of the constructor and clears the orthographic
    flag, whatever the state before and whatever other keys are down (P is
    polled last): the view matrix and the projection of the frame are
    those of the first frame.  The angles, the right vector and the
    movement speed are not restored. *)
Theorem p_key_restores_the_initial_view
  (pressed : Key -> bool) (pShaderManager : bool) (s : State) :
  pressed GLFW_KEY_P = true ->
  let s' := ProcessKeyboardEvents pressed s in
  let initial := ViewManager sinf cosf pShaderManager in
  Camera.Position (g_pCamera s') = Camera.Position (g_pCamera initial)
  /\ Camera.Front (g_pCamera s') = Camera.Front (g_pCamera initial)
  /\ Camera.Up (g_pCamera s') = Camera.Up (g_pCamera initial)
  /\ Camera.Zoom (g_pCamera s') = Camera.Zoom (g_pCamera initial)
  /\ bOrthographicProjection s' = bOrthographicProjection initial
  /\ Camera.GetViewMatrix (g_pCamera s') = Camera.GetViewMatrix (g_pCamera initial)
  /\ projection_of s' = projection_of initial
  /\ Camera.Yaw (g_pCamera s') = Camera.Yaw (g_pCamera s)
  /\ Camera.Pitch (g_pCamera s') = Camera.Pitch (g_pCamera s)
  /\ Camera.MovementSpeed (g_pCamera s') = Camera.MovementSpeed (g_pCamera s).
Proof.
  intros HP s' initial.
  assert (Hpos : Camera.Position (g_pCamera s') = Camera.Position (g_pCamera initial)
                 /\ Camera.Front (g_pCamera s') = Camera.Front (g_pCamera initial)
                 /\ Camera.Up (g_pCamera s') = Camera.Up (g_pCamera initial)
                 /\ Camera.Zoom (g_pCamera s') = Camera.Zoom (g_pCamera initial)
                 /\ bOrthographicProjection s' = bOrthographicProjection initial).
  { subst s' initial. unfold ProcessKeyboardEvents. cbv zeta.
    rewrite (if_pressed_true _ GLFW_KEY_P _ _ HP). repeat split; reflexivity. }
  destruct Hpos as [Hposition [Hfront [Hup [Hzoom Hflag]]]].
  repeat match goal with |- _ /\ _ => split end; try assumption.
  - unfold Camera.GetViewMatrix. now rewrite Hposition, Hfront, Hup.
  - unfold projection_of. cbv zeta. now rewrite Hzoom, Hflag.
  - subst s'. now rewrite (@ProcessKeyboardEvents_keeps _ Camera.Yaw).
  - subst s'. now rewrite (@ProcessKeyboardEvents_keeps _ Camera.Pitch).
  - subst s'. now rewrite (@ProcessKeyboardEvents_keeps _ Camera.MovementSpeed).
Qed.

End Runs.

Section RunWitnesses.

Import Ieee ViewManager.

(** A run with a scroll beyond the upper bound. *)
Lemma movement_speed_stays_clamped_witness :
  let sinf := fun a : float => a in
  let cosf := fun a : float => a in
  let events := [MouseScroll (of_int 0) (of_int 1000);
                 MouseButton GLFW_MOUSE_BUTTON_RIGHT GLFW_PRESS 0] in
  speed_clamped (g_pCamera (run sinf cosf events (ViewManager sinf cosf true))).
Proof.
  cbv zeta.
  apply (proj1 (@movement_speed_stays_clamped (fun a : float => a) (fun a : float => a) true
                  [MouseScroll (of_int 0) (of_int 1000);
                   MouseButton GLFW_MOUSE_BUTTON_RIGHT GLFW_PRESS 0]
                  ltac:(repeat constructor))).
Defined.

(** A run with two cursor positions far apart. *)
Lemma pitch_constrained_through_runs_witness :
  let sinf := fun a : float => a in
  let cosf := fun a : float => a in
  let events := [MousePosition (of_int 750) (of_int 600);
                 MousePosition (of_int 750) (of_int (-100000))] in
  let s := run sinf cosf events (ViewManager sinf cosf true) in
  Camera.pitch_constrained (g_pCamera s)
  /\ Camera.MouseSensitivity (g_pCamera s) = Camera.SENSITIVITY
  /\ is_nan (gLastY s) = false.
Proof.
  cbv zeta.
  apply (@pitch_constrained_through_runs (fun a : float => a) (fun a : float => a) true
           [MousePosition (of_int 750) (of_int 600);
            MousePosition (of_int 750) (of_int (-100000))]).
  repeat constructor.
Defined.

(** P and O down together, in the state the constructor leaves. *)
Lemma p_key_restores_the_initial_view_witness :
  let sinf := fun a : float => a in
  let cosf := fun a : float => a in
  let pressed := fun k : Key =>
                   match k with GLFW_KEY_P | GLFW_KEY_O => true | _ => false end in
  let initial := ViewManager sinf cosf true in
  let s' := ProcessKeyboardEvents pressed initial in
  Camera.GetViewMatrix (g_pCamera s') = Camera.GetViewMatrix (g_pCamera initial)
  /\ projection_of s' = projection_of initial.
Proof.
  cbv zeta.
  pose proof (@p_key_restores_the_initial_view (fun a : float => a) (fun a : float => a)
                (fun k : Key => match k with GLFW_KEY_P | GLFW_KEY_O => true | _ => false end)
                true (ViewManager (fun a : float => a) (fun a : float => a) true) eq_refl) as H.
  cbv zeta in H. destruct H as [_ [_ [_ [_ [_ [Hview [Hproj _]]]]]]].
  split; assumption.
Defined.

End RunWitnesses.

(* ===================================================================== *)
(** * Rounding to binary32 *)
(* ===================================================================== *)

Section Rounding.

Import FloatMeshes.
Local Open Scope Z_scope.

Lemma shifted_0 (m : Z) : 0 <= m -> shifted m 0 (Build_shr_record m false false).
Proof.
  intros Hm. exists 0. cbn [shr_m shr_r shr_s]. rewrite Z.pow_0_r.
  repeat split; try lia; discriminate.
Qed.

Lemma shifted_shr_1 (m k : Z) (mrs : shr_record) :
  0 <= k -> shifted m k mrs -> shifted m (k + 1) (shr_1 mrs).
Proof.
  intros Hk [rem (Hm & Hrem & Hpos & Hexact & Hlow & Hhigh & Hhalf)].
  destruct mrs as [m' r s]. cbn [shr_m shr_r shr_s] in *.
  assert (H2 : 2 ^ (k + 1) = 2 * 2 ^ k).
  { rewrite Z.pow_add_r, Z.pow_1_r by lia. lia. }
  assert (Hp : 0 < 2 ^ k) by (apply Z.pow_pos_nonneg; lia).
  assert (Hs : orb r s = false -> rem = 0).
  { intros H. apply orb_false_elim in H. destruct H. auto. }
  unfold shifted. rewrite H2.
  destruct m' as [|[p|p|]|p]; cbn [shr_1 shr_m shr_r shr_s]; try lia.
  - exists rem. cbn [shr_m shr_r shr_s]. repeat split; try lia; try discriminate.
    intros _. exact Hs.
  - exists (rem + 2 ^ k). cbn [shr_m shr_r shr_s].
    change (Zpos p~1) with (2 * Zpos p + 1) in Hm.
    repeat split; try lia; try discriminate.
    intros _ H. rewrite (Hs H). lia.
  - exists rem. cbn [shr_m shr_r shr_s].
    change (Zpos p~0) with (2 * Zpos p) in Hm.
    repeat split; try lia; try discriminate.
    intros _. exact Hs.
  - exists (rem + 2 ^ k). cbn [shr_m shr_r shr_s].
    repeat split; try lia; try discriminate.
    intros _ H. rewrite (Hs H). lia.
Qed.

Lemma shifted_iter_pos (m : Z) (p : positive) :
  forall (k : Z) (mrs : shr_record),
    0 <= k -> shifted m k mrs -> shifted m (k + Zpos p) (iter_pos shr_1 p mrs).
Proof.
  induction p as [p IH|p IH|]; intros k mrs Hk H; cbn [iter_pos].
  - replace (k + Zpos p~1) with (k + 1 + Zpos p + Zpos p) by lia.
    apply IH; [lia|]. apply IH; [lia|]. now apply shifted_shr_1.
  - replace (k + Zpos p~0) with (k + Zpos p + Zpos p) by lia.
    apply IH; [lia|]. now apply IH.
  - now apply shifted_shr_1.
Qed.

(** Rounding to nearest after a shift by [k] bits is off by at most half
    of the last bit kept. *)
Lemma round_nearest_even_shifted (m k : Z) (mrs : shr_record) :
  0 < k -> shifted m k mrs ->
  let m1 := round_nearest_even (shr_m mrs) (loc_of_shr_record mrs) in
  m / 2 ^ k <= m1 <= m / 2 ^ k + 1 /\
  - 2 ^ (k - 1) <= m1 * 2 ^ k - m <= 2 ^ (k - 1).
Proof.
  intros Hk [rem (Hm & Hrem & Hpos & Hexact & Hlow & Hhigh & Hhalf)].
  destruct mrs as [m' r s]. cbn [shr_m shr_r shr_s] in *.
  assert (Hp : 0 < 2 ^ k) by (apply Z.pow_pos_nonneg; lia).
  assert (H2 : 2 ^ k = 2 * 2 ^ (k - 1)).
  { replace k with (1 + (k - 1)) at 1 by lia. rewrite Z.pow_add_r by lia. reflexivity. }
  assert (Hq : m / 2 ^ k = m').
  { symmetry. apply (Z.div_unique m (2 ^ k) m' rem); lia. }
  rewrite Hq. cbv zeta.
  destruct r, s; cbn [loc_of_shr_record round_nearest_even].
  - specialize (Hhigh eq_refl). nia.
  - specialize (Hhalf eq_refl eq_refl). destruct (Z.even m'); nia.
  - specialize (Hlow eq_refl). nia.
  - specialize (Hexact eq_refl eq_refl). nia.
Qed.

Lemma digits2_pos_bounds (p : positive) :
  2 ^ (Zpos (digits2_pos p) - 1) <= Zpos p < 2 ^ Zpos (digits2_pos p).
Proof.
  induction p as [p IH|p IH|]; cbn [digits2_pos].
  - rewrite Pos2Z.inj_succ. change (Zpos p~1) with (2 * Zpos p + 1).
    replace (Z.succ (Zpos (digits2_pos p)) - 1) with (Zpos (digits2_pos p)) by lia.
    rewrite Z.pow_succ_r by lia.
    assert (H2 : 2 ^ Zpos (digits2_pos p) = 2 * 2 ^ (Zpos (digits2_pos p) - 1)).
    { rewrite <- Z.pow_succ_r by lia. f_equal. lia. }
    lia.
  - rewrite Pos2Z.inj_succ. change (Zpos p~0) with (2 * Zpos p).
    replace (Z.succ (Zpos (digits2_pos p)) - 1) with (Zpos (digits2_pos p)) by lia.
    rewrite Z.pow_succ_r by lia.
    assert (H2 : 2 ^ Zpos (digits2_pos p) = 2 * 2 ^ (Zpos (digits2_pos p) - 1)).
    { rewrite <- Z.pow_succ_r by lia. f_equal. lia. }
    lia.
  - cbn. lia.
Qed.

Lemma Zdigits2_bounds (m : Z) :
  0 < m -> 2 ^ (Zdigits2 m - 1) <= m < 2 ^ Zdigits2 m.
Proof.
  destruct m as [|p|p]; try lia. intros _. apply digits2_pos_bounds.
Qed.

(** The number of digits, from bounds. *)
Lemma Zdigits2_unique (m d : Z) :
  0 < d -> 2 ^ (d - 1) <= m < 2 ^ d -> Zdigits2 m = d.
Proof.
  intros Hd Hm.
  assert (Hpos : 0 < m).
  { assert (0 < 2 ^ (d - 1)) by (apply Z.pow_pos_nonneg; lia). lia. }
  pose proof (@Zdigits2_bounds m Hpos) as Hb.
  assert (Hd' : 0 < Zdigits2 m) by (destruct m; cbn; lia).
  destruct (Z.lt_trichotomy (Zdigits2 m) d) as [Hlt|[Heq|Hgt]]; [|exact Heq|].
  - assert (2 ^ Zdigits2 m <= 2 ^ (d - 1)) by (apply Z.pow_le_mono_r; lia). lia.
  - assert (2 ^ d <= 2 ^ (Zdigits2 m - 1)) by (apply Z.pow_le_mono_r; lia). lia.
Qed.

(** The second shift of [binary_round_aux] loses nothing. *)
Lemma shr_fexp_rounded (m1 e1 : Z) :
  0 <= m1 <= 2 ^ 24 -> -149 <= e1 -> (-149 < e1 -> 2 ^ 23 <= m1) ->
  exists m2 e2,
    shr_fexp 24 128 m1 e1 loc_Exact = (Build_shr_record m2 false false, e2) /\
    0 <= m2 /\ e1 <= e2 <= e1 + 1 /\ m2 * 2 ^ (e2 - e1) = m1.
Proof.
  intros Hm He Hnorm. unfold shr_fexp, fexp, emin. cbn [shr_record_of_loc].
  destruct (Z.eq_dec m1 (2 ^ 24)) as [->|Hne].
  - change (Zdigits2 (2 ^ 24)) with 25.
    replace (Z.max (25 + e1 - 24) (3 - 128 - 24) - e1) with 1 by lia.
    exists (2 ^ 23), (e1 + 1). cbn [shr iter_pos]. split; [reflexivity|].
    replace (e1 + 1 - e1) with 1 by lia. split; [lia|]. split; [lia|]. reflexivity.
  - destruct (Z.eq_dec m1 0) as [->|Hpos].
    + cbn [Zdigits2]. replace (Z.max (0 + e1 - 24) (3 - 128 - 24) - e1) with (-149 - e1) by lia.
      exists 0, e1. split.
      * destruct (-149 - e1) eqn:Hn; try reflexivity. lia.
      * rewrite Z.sub_diag. cbn. lia.
    + assert (Hd : 0 < Zdigits2 m1 <= 24).
      { pose proof (@Zdigits2_bounds m1 ltac:(lia)) as Hb.
        split; [destruct m1; cbn; lia|].
        destruct (Z_le_gt_dec (Zdigits2 m1) 24) as [H|H]; [exact H|].
        assert (2 ^ 24 <= 2 ^ (Zdigits2 m1 - 1)) by (apply Z.pow_le_mono_r; lia). lia. }
      assert (Hn : Z.max (Zdigits2 m1 + e1 - 24) (3 - 128 - 24) - e1 <= 0).
      { destruct (Z.eq_dec e1 (-149)) as [H|H]; [lia|].
        assert (Hge : 2 ^ 23 <= m1) by (apply Hnorm; lia).
        rewrite (@Zdigits2_unique m1 24); [lia|lia|]. change (24 - 1) with 23. lia. }
      exists m1, e1. split.
      * destruct (Z.max (Zdigits2 m1 + e1 - 24) (3 - 128 - 24) - e1) eqn:E; try reflexivity. lia.
      * rewrite Z.sub_diag. cbn. lia.
Qed.

(** Rounding a positive mantissa to binary32: the result is the float
    [make sx m2 e2], at most half a unit of its last place away. *)
Lemma binary_round_aux_nearest (sx : bool) (m : positive) (e : Z) :
  Zdigits2 (Zpos m) + e <= 1 ->
  exists m2 e2,
    binary_round_aux 24 128 sx (Zpos m) e loc_Exact = make sx m2 e2 /\
    0 <= m2 /\ e <= e2 /\
    (m2 * 2 ^ (e2 - e) = Zpos m \/
     (e <= -24 /\ Z.abs (m2 * 2 ^ (e2 - e) - Zpos m) <= 2 ^ (-24 - e))).
Proof.
  intros Hde. pose proof (@Zdigits2_bounds (Zpos m) ltac:(lia)) as Hb.
  set (d := Zdigits2 (Zpos m)) in *.
  assert (Hd : 0 < d) by (subst d; cbn; lia).
  unfold binary_round_aux. unfold shr_fexp at 1. fold d. unfold fexp, emin.
  cbn [shr_record_of_loc].
  destruct (Z.max (d + e - 24) (3 - 128 - 24) - e) as [|n|n] eqn:Hn.
  1, 3: (* nothing to shift *)
    cbn [shr shr_m loc_of_shr_record round_nearest_even];
    unfold shr_fexp; fold d; unfold fexp, emin; rewrite Hn; cbn [shr_record_of_loc shr shr_m];
    exists (Zpos m), e;
    replace (Z.leb e (128 - 24)) with true by (symmetry; apply Z.leb_le; lia);
    (split; [reflexivity|]); rewrite Z.sub_diag; cbn [Z.pow]; lia.
  (* a shift by [n] bits *)
  cbn [shr].
  pose proof (@shifted_iter_pos (Zpos m) n 0 _ ltac:(lia) (@shifted_0 (Zpos m) ltac:(lia))) as Hsh.
  rewrite Z.add_0_l in Hsh.
  pose proof (@round_nearest_even_shifted (Zpos m) (Zpos n) _ ltac:(lia) Hsh) as Hround.
  cbv zeta in Hround.
  set (m1 := round_nearest_even _ _) in *.
  destruct Hround as [Hm1 Herr].
  assert (Hpn : 0 < 2 ^ Zpos n) by (apply Z.pow_pos_nonneg; lia).
  assert (Hq0 : 0 <= Zpos m / 2 ^ Zpos n) by (apply Z.div_pos; lia).
  assert (Hquot : (-149 < e + Zpos n -> 2 ^ 23 <= Zpos m / 2 ^ Zpos n)
                  /\ Zpos m / 2 ^ Zpos n < 2 ^ 24).
  { split.
    - intros Hnorm. assert (Hnd : Zpos n = d - 24) by lia.
      assert (H23 : 2 ^ (d - 1) = 2 ^ 23 * 2 ^ Zpos n).
      { rewrite <- Z.pow_add_r by lia. f_equal. lia. }
      apply Z.div_le_lower_bound; lia.
    - apply Z.div_lt_upper_bound; [lia|].
      assert (H : 2 ^ d <= 2 ^ (Zpos n + 24)) by (apply Z.pow_le_mono_r; lia).
      rewrite Z.pow_add_r in H by lia. lia. }
  destruct Hquot as [Hnormal Hbelow].
  destruct (@shr_fexp_rounded m1 (e + Zpos n)) as [m2 [e2 (Hshr & Hm2 & He2 & Hval)]].
  + lia.
  + lia.
  + intros H. apply Hnormal in H. lia.
  + rewrite Hshr. cbn [shr_m]. exists m2, e2.
    split.
    * unfold make. destruct m2 as [|p|p]; [reflexivity| |lia].
      replace (Z.leb e2 (128 - 24)) with true by (symmetry; apply Z.leb_le; lia).
      reflexivity.
    * split; [exact Hm2|]. split; [lia|]. right. split; [lia|].
      assert (Hprod : m2 * 2 ^ (e2 - e) = m1 * 2 ^ Zpos n).
      { rewrite <- Hval. replace (e2 - e) with ((e2 - (e + Zpos n)) + Zpos n) by lia.
        rewrite Z.pow_add_r by lia. ring. }
      rewrite Hprod.
      assert (2 ^ (Zpos n - 1) <= 2 ^ (-24 - e)) by (apply Z.pow_le_mono_r; lia).
      lia.
Qed.

End Rounding.

Section RoundingError.

Import FloatMeshes.
Local Open Scope R_scope.

Lemma pow2_pos (e : Z) : 0 < powerRZ 2 e.
Proof.
  apply powerRZ_lt. lra.
Qed.

Lemma pow2_add (a b : Z) : powerRZ 2 (a + b) = powerRZ 2 a * powerRZ 2 b.
Proof.
  apply powerRZ_add. lra.
Qed.

Lemma pow2_IZR (k : Z) : (0 <= k)%Z -> powerRZ 2 k = IZR (2 ^ k).
Proof.
  intros Hk. destruct k as [|p|p]; [reflexivity| |lia].
  symmetry. apply (Zpower_pos_powerRZ 2 p).
Qed.

Lemma pow2_le (a b : Z) : (a <= b)%Z -> powerRZ 2 a <= powerRZ 2 b.
Proof.
  intros Hab. replace b with (a + (b - a))%Z by lia. rewrite pow2_add.
  rewrite (@pow2_IZR (b - a)) by lia.
  assert (H1 : (1 <= 2 ^ (b - a))%Z).
  { change 1%Z with (2 ^ 0)%Z. apply Z.pow_le_mono_r; lia. }
  apply IZR_le in H1. pose proof (pow2_pos a). nra.
Qed.

Lemma cond_Zopp_IZR (s : bool) (m : Z) :
  IZR (cond_Zopp s m) = (if s then -1 else 1) * IZR m.
Proof.
  destruct s; cbn [cond_Zopp]; [rewrite opp_IZR|]; ring.
Qed.

Lemma B2R_make (sx : bool) (m e : Z) :
  (0 <= m)%Z -> B2R (make sx m e) = (if sx then -1 else 1) * IZR m * powerRZ 2 e.
Proof.
  intros Hm. destruct m as [|p|p]; [|  |lia].
  - cbn [make B2R]. ring.
  - cbn [make B2R]. rewrite cond_Zopp_IZR. ring.
Qed.

Lemma is_finite_make (sx : bool) (m e : Z) : (0 <= m)%Z -> Ieee.is_finite (make sx m e) = true.
Proof.
  intros Hm. destruct m; [reflexivity|reflexivity|lia].
Qed.

Lemma sign_abs (s : bool) (x : R) : Rabs ((if s then -1 else 1) * x) = Rabs x.
Proof.
  destruct s.
  - replace (-1 * x) with (- x) by ring. apply Rabs_Ropp.
  - f_equal. ring.
Qed.

(** A mantissa whose value is below 2 ends at or below the unit digit. *)
Lemma digits_below_2 (m : positive) (e : Z) :
  IZR (Zpos m) * powerRZ 2 e < 2 -> (Zdigits2 (Zpos m) + e <= 1)%Z.
Proof.
  intros Hlt. pose proof (@Zdigits2_bounds (Zpos m) ltac:(lia)) as [Hlow _].
  set (d := Zdigits2 (Zpos m)) in *.
  assert (Hd : (0 < d)%Z) by (subst d; cbn; lia).
  destruct (Z_le_gt_dec (d + e) 1) as [H|H]; [exact H|exfalso].
  apply IZR_le in Hlow. rewrite <- pow2_IZR in Hlow by lia.
  assert (Hge : powerRZ 2 1 <= powerRZ 2 (d - 1 + e)) by (apply pow2_le; lia).
  rewrite pow2_add in Hge. change (powerRZ 2 1) with (2 * 1) in Hge.
  pose proof (pow2_pos e). pose proof (pow2_pos (d - 1)). nra.
Qed.

(** Rounding to binary32 a value below 2 in magnitude: the result is
    finite and within 2^-24 of the value. *)
Lemma binary_round_aux_error (sx : bool) (m : positive) (e : Z) :
  IZR (Zpos m) * powerRZ 2 e < 2 ->
  let r := binary_round_aux 24 128 sx (Zpos m) e loc_Exact in
  Ieee.is_finite r = true /\
  Rabs (B2R r - (if sx then -1 else 1) * IZR (Zpos m) * powerRZ 2 e) <= powerRZ 2 (-24).
Proof.
  intros Hlt. cbv zeta.
  destruct (@binary_round_aux_nearest sx m e (@digits_below_2 m e Hlt))
    as [m2 [e2 (-> & Hm2 & He2 & Herr)]].
  split; [now apply is_finite_make|].
  rewrite B2R_make by exact Hm2.
  assert (Hsplit : powerRZ 2 e2 = powerRZ 2 e * IZR (2 ^ (e2 - e))).
  { rewrite <- pow2_IZR, <- pow2_add by lia. f_equal. lia. }
  rewrite Hsplit.
  replace ((if sx then -1 else 1) * IZR m2 * (powerRZ 2 e * IZR (2 ^ (e2 - e)))
           - (if sx then -1 else 1) * IZR (Zpos m) * powerRZ 2 e)
    with ((if sx then -1 else 1) * (powerRZ 2 e * IZR (m2 * 2 ^ (e2 - e) - Zpos m)))
    by (rewrite minus_IZR, mult_IZR; ring).
  rewrite sign_abs, Rabs_mult, (Rabs_pos_eq (powerRZ 2 e)) by (left; apply pow2_pos).
  rewrite <- abs_IZR.
  pose proof (pow2_pos e) as Hpe. pose proof (pow2_pos (-24)) as Hp24.
  destruct Herr as [Hexact|[He Hhalf]].
  - rewrite Hexact, Z.sub_diag. cbn [Z.abs]. lra.
  - apply IZR_le in Hhalf. rewrite <- pow2_IZR in Hhalf by lia.
    assert (H24 : powerRZ 2 (-24) = powerRZ 2 e * powerRZ 2 (-24 - e)).
    { rewrite <- pow2_add. f_equal. lia. }
    rewrite H24. apply Rmult_le_compat_l; [lra | exact Hhalf].
Qed.

(** The product of two floats, rounded: finite and within 2^-24 of the
    exact product when that is below 2 in magnitude. *)
Lemma mul_error (a b : spec_float) :
  Ieee.is_finite a = true -> Ieee.is_finite b = true -> Rabs (B2R a * B2R b) < 2 ->
  Ieee.is_finite (SFmul 24 128 a b) = true /\
  Rabs (B2R (SFmul 24 128 a b) - B2R a * B2R b) <= powerRZ 2 (-24).
Proof.
  intros Ha Hb Hlt. pose proof (pow2_pos (-24)) as Hp24.
  assert (Hzero : Rabs (0 - 0) <= powerRZ 2 (-24)).
  { replace (0 - 0) with 0 by ring. rewrite Rabs_R0. lra. }
  destruct a as [sx|sx| |sx mx ex]; try discriminate Ha;
    destruct b as [sy|sy| |sy my ey]; try discriminate Hb; cbn [SFmul B2R].
  - split; [reflexivity|]. now rewrite Rmult_0_l.
  - split; [reflexivity|]. now rewrite Rmult_0_l.
  - split; [reflexivity|]. now rewrite Rmult_0_r.
  - cbn [B2R] in Hlt. rewrite !cond_Zopp_IZR in *.
    assert (Hprod : (if sx then -1 else 1) * IZR (Zpos mx) * powerRZ 2 ex
                    * ((if sy then -1 else 1) * IZR (Zpos my) * powerRZ 2 ey)
                    = (if xorb sx sy then -1 else 1) * IZR (Zpos (mx * my)) * powerRZ 2 (ex + ey)).
    { rewrite Pos2Z.inj_mul, mult_IZR, pow2_add. destruct sx, sy; cbn [xorb]; ring. }
    rewrite Hprod in *.
    apply binary_round_aux_error.
    rewrite Rmult_assoc, sign_abs in Hlt.
    rewrite Rabs_pos_eq in Hlt; [exact Hlt|].
    apply Rmult_le_pos; [apply IZR_le; lia | left; apply pow2_pos].
Qed.

End RoundingError.

(* ===================================================================== *)
(** * The sphere in binary32 *)
(* ===================================================================== *)

Section SphereNormals.

Import Cxx FloatMeshes.
Local Open Scope R_scope.

Lemma float_unpack_pack (v : Vertex) (rest : list Ieee.float) :
  unpack (pack v ++ rest) = v :: unpack rest.
Proof.
  destruct v as [[px py pz] [nx ny nz] [u w]]. reflexivity.
Qed.

Lemma float_unpack_row (A : Type) (g : A -> Vertex) (l : list A) (rest : list Ieee.float) :
  unpack (flat_map (fun a => pack (g a)) l ++ rest) = map g l ++ unpack rest.
Proof.
  induction l as [|a l IH]; cbn [flat_map map].
  - reflexivity.
  - rewrite <- app_assoc, float_unpack_pack. rewrite IH. reflexivity.
Qed.

Lemma float_unpack_grid (rows columns : Z) (f : Z -> Z -> Vertex) :
  unpack (flat_map (fun i => flat_map (fun j => pack (f i j)) (Zseq 0 (Z.to_nat columns)))
                   (Zseq 0 (Z.to_nat rows)))
  = grid rows columns f.
Proof.
  unfold grid. induction (Zseq 0 (Z.to_nat rows)) as [|i l IH]; cbn [flat_map].
  - reflexivity.
  - rewrite float_unpack_row. now rewrite IH.
Qed.

Lemma float_grid_flat_length (rows columns : Z) (f : Z -> Z -> Vertex) :
  (0 <= rows)%Z -> (0 <= columns)%Z ->
  ShapeMeshes.size
    (flat_map (fun i => flat_map (fun j => pack (f i j)) (Zseq 0 (Z.to_nat columns)))
              (Zseq 0 (Z.to_nat rows)))
  = (8 * (rows * columns))%Z.
Proof.
  intros Hr Hc. unfold ShapeMeshes.size.
  rewrite (@flat_map_length_const _ _ _ (8 * Z.to_nat columns)%nat).
  - rewrite Zseq_length. lia.
  - intros i _. rewrite (@flat_map_length_const _ _ _ 8%nat).
    + now rewrite Zseq_length.
    + reflexivity.
Qed.

Lemma float_grid_length (rows columns : Z) (f : Z -> Z -> Vertex) :
  List.length (grid rows columns f) = (Z.to_nat rows * Z.to_nat columns)%nat.
Proof.
  unfold grid. rewrite (@flat_map_length_const _ _ _ (Z.to_nat columns)).
  - rewrite Zseq_length. lia.
  - intros i _. now rewrite length_map, Zseq_length.
Qed.

Lemma float_grid_Forall (P : Vertex -> Prop) (rows columns : Z) (f : Z -> Z -> Vertex) :
  (forall i j, (0 <= i < rows)%Z -> (0 <= j < columns)%Z -> P (f i j)) ->
  Forall P (grid rows columns f).
Proof.
  intros H. unfold grid. apply Forall_flat_map_intro. intros i Hi.
  apply Zseq_In in Hi. apply Forall_forall. intros v Hv.
  apply in_map_iff in Hv. destruct Hv as [j [<- Hj]]. apply Zseq_In in Hj.
  apply H; lia.
Qed.

Lemma float_sphere_vertices_grid (sinf cosf : Ieee.float -> Ieee.float)
  (latitudeSegments longitudeSegments : Z) (radius : Ieee.float) :
  sphere_vertices sinf cosf latitudeSegments longitudeSegments radius
  = flat_map (fun lat =>
      flat_map (fun lon =>
        pack (sphere_vertex sinf cosf latitudeSegments longitudeSegments radius lat lon))
        (Zseq 0 (Z.to_nat (longitudeSegments + 1))))
      (Zseq 0 (Z.to_nat (latitudeSegments + 1))).
Proof.
  unfold sphere_vertices, for_le.
  erewrite for_from_ext.
  - rewrite for_from_app. reflexivity.
  - intros lat vertices. cbv zeta. rewrite for_from_app. reflexivity.
Qed.

Lemma float_sphere_nVertices (sinf cosf : Ieee.float -> Ieee.float)
  (latitudeSegments longitudeSegments : Z) (radius : Ieee.float) :
  (0 <= latitudeSegments)%Z -> (0 <= longitudeSegments)%Z ->
  ((latitudeSegments + 1) * (longitudeSegments + 1) <= INT_MAX)%Z ->
  nVertices (LoadSphereMesh sinf cosf latitudeSegments longitudeSegments radius)
  = ((latitudeSegments + 1) * (longitudeSegments + 1))%Z.
Proof.
  intros Hlat Hlon Hfit. unfold LoadSphereMesh. cbn [nVertices].
  rewrite float_sphere_vertices_grid, float_grid_flat_length by lia.
  rewrite Z.mul_comm, Z.div_mul by lia.
  unfold GLuint_of, INT_MAX in *. apply Z.mod_small. lia.
Qed.

(** ** The length of a normal *)

Lemma pow2_minus_24 : powerRZ 2 (-24) = / 16777216.
Proof.
  change (-24)%Z with (Z.opp 24). rewrite powerRZ_neg', (@pow2_IZR 24) by lia. reflexivity.
Qed.

Lemma Rabs_bounds (x b : R) : Rabs x <= b -> - b <= x <= b.
Proof.
  intros H. unfold Rabs in H. destruct (Rcase_abs x); lra.
Qed.

Lemma Rabs_within (x b : R) : - b <= x <= b -> Rabs x <= b.
Proof.
  intros H. unfold Rabs. destruct (Rcase_abs x); lra.
Qed.

Lemma Rabs_product (x y a b : R) : Rabs x <= a -> Rabs y <= b -> Rabs (x * y) <= a * b.
Proof.
  intros Hx Hy. rewrite Rabs_mult.
  apply Rmult_le_compat; [apply Rabs_pos | apply Rabs_pos | exact Hx | exact Hy].
Qed.

(** The product of a sine by a cosine or a sine of the library is at most
    1 + 2^-22 in magnitude. *)
Lemma accurate_product (s c s' c' : R) :
  Rabs (s * s + c * c - 1) <= tolerance ->
  Rabs (s' * s' + c' * c' - 1) <= tolerance ->
  Rabs (s * c') <= 1 + tolerance /\ Rabs (s * s') <= 1 + tolerance.
Proof.
  unfold tolerance. intros H H'. apply Rabs_bounds in H, H'.
  pose proof (Rle_0_sqr s) as Hs. pose proof (Rle_0_sqr c) as Hc.
  pose proof (Rle_0_sqr s') as Hs'. pose proof (Rle_0_sqr c') as Hc'.
  pose proof (Rle_0_sqr (s - c')) as H1. pose proof (Rle_0_sqr (s + c')) as H2.
  pose proof (Rle_0_sqr (s - s')) as H3. pose proof (Rle_0_sqr (s + s')) as H4.
  unfold Rsqr in *. split; apply Rabs_within; lra.
Qed.

(** The vector (nx, c, nz), where nx and nz are within 2^-24 of the
    products s * c' and s * s' of sines and cosines of the library, has a
    length within 2^-20 of 1. *)
Lemma unit_within_epsilon (s c s' c' nx nz : R) :
  Rabs (s * s + c * c - 1) <= tolerance ->
  Rabs (s' * s' + c' * c' - 1) <= tolerance ->
  Rabs (nx - s * c') <= powerRZ 2 (-24) ->
  Rabs (nz - s * s') <= powerRZ 2 (-24) ->
  Rabs (sqrt (nx * nx + c * c + nz * nz) - 1) <= epsilon.
Proof.
  intros H H' Hx Hz. rewrite pow2_minus_24 in Hx, Hz.
  destruct (accurate_product s c s' c' H H') as [Hp Hq].
  set (A := s * s + c * c - 1) in *. set (B := s' * s' + c' * c' - 1) in *.
  set (ex := nx - s * c') in *. set (ez := nz - s * s') in *.
  assert (Hss : Rabs (s * s) <= 1 + tolerance).
  { apply Rabs_within. apply Rabs_bounds in H. subst A.
    pose proof (Rle_0_sqr s) as Hs. pose proof (Rle_0_sqr c) as Hc.
    unfold Rsqr, tolerance in *. lra. }
  pose proof (Rabs_product (s * s) B Hss H') as T1.
  pose proof (Rabs_product (s * c') ex Hp Hx) as T2.
  pose proof (Rabs_product (s * s') ez Hq Hz) as T3.
  pose proof (Rabs_product ex ex Hx Hx) as T4.
  pose proof (Rabs_product ez ez Hz Hz) as T5.
  apply Rabs_bounds in H, T1, T2, T3, T4, T5.
  set (S := nx * nx + c * c + nz * nz).
  assert (HS : S - 1 = A + s * s * B + 2 * (s * c' * ex) + 2 * (s * s' * ez)
                       + ex * ex + ez * ez).
  { subst S A B ex ez. ring. }
  assert (HQ : - epsilon <= S - 1 <= epsilon).
  { rewrite HS. unfold epsilon, tolerance in *. lra. }
  assert (HS0 : 0 <= S).
  { subst S. pose proof (Rle_0_sqr nx). pose proof (Rle_0_sqr c). pose proof (Rle_0_sqr nz).
    unfold Rsqr in *. lra. }
  pose proof (sqrt_pos S) as HL. pose proof (sqrt_sqrt S HS0) as HLL.
  set (L := sqrt S) in *. unfold epsilon in *.
  apply Rabs_within. split; nra.
Qed.

(** A library whose sine and cosine at some angle are finite floats
    within 2^-24 of the true values, the spacing of the floats below 1, is
    accurate in the sense asked for. *)
Lemma within_spacing_accurate (s c : Ieee.float) (angle : R) :
  Ieee.is_finite s = true -> Ieee.is_finite c = true ->
  Rabs (B2R s - sin angle) <= powerRZ 2 (-24) ->
  Rabs (B2R c - cos angle) <= powerRZ 2 (-24) ->
  sin_cos_accurate s c.
Proof.
  intros Hs Hc Hsin Hcos. split; [exact Hs|]. split; [exact Hc|].
  rewrite pow2_minus_24 in Hsin, Hcos.
  pose proof (sin2_cos2 angle) as Hone. unfold Rsqr in Hone.
  set (a := sin angle) in *. set (b := cos angle) in *.
  set (e1 := B2R s - a) in *. set (e2 := B2R c - b) in *.
  replace (B2R s) with (a + e1) by (subst e1; ring).
  replace (B2R c) with (b + e2) by (subst e2; ring).
  pose proof (Rabs_product e1 e1 Hsin Hsin) as H11.
  pose proof (Rabs_product e2 e2 Hcos Hcos) as H22.
  apply Rabs_bounds in H11, H22.
  pose proof (Rle_0_sqr e1) as P1. pose proof (Rle_0_sqr e2) as P2.
  pose proof (Rle_0_sqr (a * e2 - b * e1)) as P3. unfold Rsqr in P1, P2, P3.
  set (X := a * e1 + b * e2).
  assert (HX2 : X * X <= e1 * e1 + e2 * e2).
  { replace (e1 * e1 + e2 * e2) with ((a * a + b * b) * (e1 * e1 + e2 * e2))
      by (rewrite Hone; ring).
    subst X. nra. }
  assert (HX : - (3 / 33554432) <= X <= 3 / 33554432) by (split; nra).
  unfold tolerance. apply Rabs_within.
  replace ((a + e1) * (a + e1) + (b + e2) * (b + e2) - 1)
    with (a * a + b * b - 1 + 2 * X + e1 * e1 + e2 * e2) by (subst X; ring).
  rewrite Hone. lra.
Qed.

(** A normal of the sphere: its three floats are finite and its length is
    within 2^-20 of 1. *)
Lemma sphere_normal_unit (s c s' c' : Ieee.float) :
  sin_cos_accurate s c -> sin_cos_accurate s' c' ->
  let n := Ieee.mkvec3 (Ieee.mul s c') c (Ieee.mul s s') in
  Ieee.is_finite (Ieee.x n) = true /\ Ieee.is_finite (Ieee.y n) = true /\
  Ieee.is_finite (Ieee.z n) = true /\ Rabs (length3 n - 1) <= epsilon.
Proof.
  intros (Hs & Hc & H) (Hs' & Hc' & H') n.
  destruct (accurate_product _ _ _ _ H H') as [Hp Hq].
  assert (Hlt : 1 + tolerance < 2) by (unfold tolerance; lra).
  destruct (@mul_error s c' Hs Hc' ltac:(lra)) as [Hfx Hex].
  destruct (@mul_error s s' Hs Hs' ltac:(lra)) as [Hfz Hez].
  subst n. cbn [Ieee.x Ieee.y Ieee.z]. unfold length3. cbn [Ieee.x Ieee.y Ieee.z].
  repeat split; try assumption.
  apply (unit_within_epsilon (B2R s) (B2R c) (B2R s') (B2R c')); assumption.
Qed.

(** [sin_cos_accurate], decided. *)
Lemma B2R_units (f : Ieee.float) :
  in_units f = true -> B2R f = IZR (units f) * powerRZ 2 (-149).
Proof.
  destruct f as [sx|sx| |sx m e]; cbn [in_units units B2R]; try discriminate.
  - intros _. ring.
  - intros He. apply Z.leb_le in He.
    rewrite mult_IZR, <- (@pow2_IZR (e + 149)) by lia.
    rewrite Rmult_assoc, <- pow2_add. do 2 f_equal. lia.
Qed.

Lemma sin_cos_accurate_check_ok (s c : Ieee.float) :
  sin_cos_accurate_check s c = true -> sin_cos_accurate s c.
Proof.
  unfold sin_cos_accurate_check. intros H.
  apply andb_prop in H. destruct H as [H Hle]. apply andb_prop in H. destruct H as [Hs Hc].
  apply Z.leb_le in Hle.
  split; [destruct s; try discriminate Hs; reflexivity|].
  split; [destruct c; try discriminate Hc; reflexivity|].
  rewrite (B2R_units s Hs), (B2R_units c Hc).
  set (S := units s) in *. set (C := units c) in *.
  assert (Hp : powerRZ 2 (-149) * powerRZ 2 (-149) * IZR (2 ^ 298) = 1).
  { rewrite <- (@pow2_IZR 298), <- !pow2_add by lia. reflexivity. }
  set (p := powerRZ 2 (-149)) in *.
  assert (Hp2 : 0 < p * p) by (pose proof (pow2_pos (-149)); subst p; nra).
  assert (Heq : IZR S * p * (IZR S * p) + IZR C * p * (IZR C * p) - 1
                = p * p * IZR (S * S + C * C - 2 ^ 298)).
  { transitivity (IZR S * p * (IZR S * p) + IZR C * p * (IZR C * p)
                  - p * p * IZR (2 ^ 298)).
    - now rewrite Hp.
    - rewrite minus_IZR, plus_IZR, !mult_IZR. ring. }
  rewrite Heq, Rabs_mult, (Rabs_pos_eq (p * p)) by lra. rewrite <- abs_IZR.
  apply IZR_le in Hle. rewrite mult_IZR in Hle.
  unfold tolerance.
  set (N := IZR (Z.abs (S * S + C * C - 2 ^ 298))) in *.
  assert (HN : p * p * (N * 4194304) <= p * p * IZR (2 ^ 298))
    by (apply Rmult_le_compat_l; lra).
  rewrite Hp in HN. lra.
Qed.

(** C1. [LoadSphereMesh(8, 8, 1)] as the machine computes it, with floats
    in binary32.  The mesh stores 81 vertices, that is (8+1)*(8+1), laid
    out row by row; the normal of the vertex at (lat, lon) is
    (sinTheta * cosPhi, cosTheta, sinTheta * sinPhi) with the two products
    rounded to float.  What [sin] and [cos] return is not fixed by the
    language: the theorem asks of them that at each of the angles theta
    and phi the loops compute, the two floats returned are finite and the
    sum of their squares is within 2^-22 of 1.  Then the three floats of
    every normal are finite, and the length of the normal is within
    epsilon = 2^-20 of 1. *)
Theorem sphere_8_8_vertex_count_and_unit_normals (sinf cosf : Ieee.float -> Ieee.float) :
  (forall k : Z, (0 <= k <= 8)%Z ->
     sin_cos_accurate (sinf (theta 8 k)) (cosf (theta 8 k)) /\
     sin_cos_accurate (sinf (phi 8 k)) (cosf (phi 8 k))) ->
  let mesh := LoadSphereMesh sinf cosf 8 8 (Ieee.of_int 1) in
  nVertices mesh = ((8 + 1) * (8 + 1))%Z /\
  nVertices mesh = 81%Z /\
  unpack (vertexBuffer mesh) = grid 9 9 (sphere_vertex sinf cosf 8 8 (Ieee.of_int 1)) /\
  List.length (unpack (vertexBuffer mesh)) = 81%nat /\
  Forall (fun v =>
            (exists lat lon : Z,
               (0 <= lat <= 8)%Z /\ (0 <= lon <= 8)%Z /\
               normal v = Ieee.mkvec3 (Ieee.mul (sinf (theta 8 lat)) (cosf (phi 8 lon)))
                                      (cosf (theta 8 lat))
                                      (Ieee.mul (sinf (theta 8 lat)) (sinf (phi 8 lon))))
            /\ Ieee.is_finite (Ieee.x (normal v)) = true
            /\ Ieee.is_finite (Ieee.y (normal v)) = true
            /\ Ieee.is_finite (Ieee.z (normal v)) = true
            /\ Rabs (length3 (normal v) - 1) <= epsilon)
         (unpack (vertexBuffer mesh)).
Proof.
  intros Hlibm. cbv zeta.
  assert (Hgrid : unpack (vertexBuffer (LoadSphereMesh sinf cosf 8 8 (Ieee.of_int 1)))
                  = grid 9 9 (sphere_vertex sinf cosf 8 8 (Ieee.of_int 1))).
  { cbn [LoadSphereMesh vertexBuffer]. rewrite float_sphere_vertices_grid.
    apply float_unpack_grid. }
  split; [|split; [|split; [|split]]].
  - apply float_sphere_nVertices; unfold INT_MAX; lia.
  - rewrite float_sphere_nVertices by (unfold INT_MAX; lia). reflexivity.
  - exact Hgrid.
  - rewrite Hgrid, float_grid_length. reflexivity.
  - rewrite Hgrid. apply float_grid_Forall. intros lat lon Hlat Hlon.
    cbn [sphere_vertex normal]. split.
    + exists lat, lon. split; [lia|]. split; [lia|]. reflexivity.
    + destruct (Hlibm lat ltac:(lia)) as [Htheta _].
      destruct (Hlibm lon ltac:(lia)) as [_ Hphi].
      apply (sphere_normal_unit Htheta Hphi).
Qed.

(** The generator run with the library of the table: the nearest floats
    to the sine and the cosine at the angles of the sphere. *)
Lemma sphere_8_8_vertex_count_and_unit_normals_witness :
  (forall k : Z, (0 <= k <= 8)%Z ->
     sin_cos_accurate (table_sinf (theta 8 k)) (table_cosf (theta 8 k)) /\
     sin_cos_accurate (table_sinf (phi 8 k)) (table_cosf (phi 8 k))) /\
  let mesh := LoadSphereMesh table_sinf table_cosf 8 8 (Ieee.of_int 1) in
  nVertices mesh = ((8 + 1) * (8 + 1))%Z /\
  nVertices mesh = 81%Z /\
  unpack (vertexBuffer mesh)
  = grid 9 9 (sphere_vertex table_sinf table_cosf 8 8 (Ieee.of_int 1)) /\
  List.length (unpack (vertexBuffer mesh)) = 81%nat /\
  Forall (fun v =>
            (exists lat lon : Z,
               (0 <= lat <= 8)%Z /\ (0 <= lon <= 8)%Z /\
               normal v
               = Ieee.mkvec3 (Ieee.mul (table_sinf (theta 8 lat)) (table_cosf (phi 8 lon)))
                             (table_cosf (theta 8 lat))
                             (Ieee.mul (table_sinf (theta 8 lat)) (table_sinf (phi 8 lon))))
            /\ Ieee.is_finite (Ieee.x (normal v)) = true
            /\ Ieee.is_finite (Ieee.y (normal v)) = true
            /\ Ieee.is_finite (Ieee.z (normal v)) = true
            /\ Rabs (length3 (normal v) - 1) <= epsilon)
         (unpack (vertexBuffer mesh)).
Proof.
  assert (Hlibm : forall k : Z, (0 <= k <= 8)%Z ->
            sin_cos_accurate (table_sinf (theta 8 k)) (table_cosf (theta 8 k)) /\
            sin_cos_accurate (table_sinf (phi 8 k)) (table_cosf (phi 8 k))).
  { intros k Hk.
    assert (Hcases : k = 0%Z \/ k = 1%Z \/ k = 2%Z \/ k = 3%Z \/ k = 4%Z \/ k = 5%Z
                     \/ k = 6%Z \/ k = 7%Z \/ k = 8%Z) by lia.
    repeat (destruct Hcases as [->|Hcases]); [..|subst k];
      split; apply sin_cos_accurate_check_ok; vm_compute; reflexivity. }
  split; [exact Hlibm|].
  apply (sphere_8_8_vertex_count_and_unit_normals table_sinf table_cosf Hlibm).
Defined.

End SphereNormals.
